(** * Cryptonium: digest engine, timing-safe comparison and credential
      hashing / verification, embedded from the TypeScript sources.

    - [src/algorithms/sha256.ts]   : [Sha256]
    - [src/utils/timing.ts]        : [Timing]
    - [src/utils/validation.ts]    : [Validation]
    - [src/types/index.ts]         : [Types]
    - [src/utils/salt.ts]          : [Salt], [SaltStrategies]
    - [src/core/password.ts]       : [Password], [PasswordRest]
    - [src/algorithms/sha256.ts], the byte export : [Sha256Api]
    - [src/algorithms/pbkdf2.ts]   : [Pbkdf2]
    - [src/algorithms/hmac.ts]     : [Hmac]
    - [src/algorithms/sha512.ts]   : [Sha512]
    - [src/utils/validation.ts], the remaining exports : [ValidationRest]
    - [src/core/security.ts]       : [Security]

    [JS], [JSText], [Exn] and [Json] hold what the sources take from the
    language: strings, the bitwise operators, [parseInt], exceptions, JSON
    values.  [Sha256Spec] is the padding of the standard; [JsonModel],
    [RandomModel] and [Example] are a concrete platform and inputs on
    which the definitions run.

    The numbers the code computes with are integers, modelled by [Z] and
    supposed below 2^53, where doubles are exact; the 32-bit behaviour of
    the bitwise operators is written out.  The numbers a caller or a
    stored credential supplies (lengths, iteration counts, time stamps)
    are [number]s: integers, fractions, the infinities and NaN.
    JavaScript strings are sequences of 16-bit code units.  A call
    returns a [result]: a value, an exception, or nothing at all when a
    loop never ends; what the platform decides (random bytes, the clock,
    [JSON.stringify], [JSON.parse]) is a parameter. *)

From Stdlib.Strings Require Import String Ascii Byte.
From Stdlib Require Import ZArith List Bool Lia.
Import ListNotations.
Local Open Scope Z_scope.

(* ================================================================== *)
(** ** JavaScript primitives used by the sources *)
(* ================================================================== *)
Module JS.

(** A UTF-16 code unit: high byte, low byte. *)
Definition char16 : Type := (Byte.byte * Byte.byte)%type.

Definition byteZ (b : Byte.byte) : Z := Z.of_N (Byte.to_N b).

Definition byteOfZ (z : Z) : Byte.byte :=
  match Byte.of_N (Z.to_N (z mod 256)) with
  | Some b => b
  | None => Byte.x00
  end.

(** [String.prototype.charCodeAt] on an index inside the string. *)
Definition charCode (c : char16) : Z := 256 * byteZ (fst c) + byteZ (snd c).

(** [String.fromCharCode]: the argument is taken modulo 2^16. *)
Definition fromCharCode (z : Z) : char16 :=
  (byteOfZ ((z mod 65536) / 256), byteOfZ (z mod 65536)).

Definition jsstring : Type := list char16.

(** A source-code string literal whose characters are below U+0100. *)
Definition lit (s : string) : jsstring :=
  map (fun a => fromCharCode (Z.of_N (N_of_ascii a))) (list_ascii_of_string s).

Definition char16_eqb (a b : char16) : bool := charCode a =? charCode b.

(** ToInt32 / ToUint32 of ECMAScript, on integers. *)
Definition ToInt32 (x : Z) : Z := (x + 2 ^ 31) mod 2 ^ 32 - 2 ^ 31.
Definition ToUint32 (x : Z) : Z := x mod 2 ^ 32.
(** Storing a number into a [Uint8Array]. *)
Definition ToUint8 (x : Z) : Z := x mod 256.

(** [x << n], [x >> n], [x >>> n], [x | y], [x & y], [x ^ y], [~x]. *)
Definition shl (x n : Z) : Z := ToInt32 (Z.shiftl (ToInt32 x) (n mod 32)).
Definition sar (x n : Z) : Z := Z.shiftr (ToInt32 x) (n mod 32).
Definition shr (x n : Z) : Z := Z.shiftr (ToUint32 x) (n mod 32).
Definition bor (x y : Z) : Z := Z.lor (ToInt32 x) (ToInt32 y).
Definition band (x y : Z) : Z := Z.land (ToInt32 x) (ToInt32 y).
Definition bxor (x y : Z) : Z := Z.lxor (ToInt32 x) (ToInt32 y).
Definition bnot (x : Z) : Z := Z.lnot (ToInt32 x).

(** [arr[i] || 0] on an array of numbers: a missing element reads as 0. *)
Definition at0 (arr : list Z) (i : nat) : Z := nth i arr 0.

(** [arr[i] = v] for an index inside the array. *)
Fixpoint assign (arr : list Z) (i : nat) (v : Z) : list Z :=
  match arr, i with
  | [], _ => []
  | _ :: tl, O => v :: tl
  | x :: tl, S i' => x :: assign tl i' v
  end.

(** One hexadecimal digit, lower case, as [Number.prototype.toString(16)]
    prints it. *)
Definition hexDigit (d : Z) : char16 :=
  if d <? 10 then fromCharCode (48 + d) else fromCharCode (87 + d).

Fixpoint toString16_aux (fuel : nat) (x : Z) : jsstring :=
  match fuel with
  | O => [hexDigit (x mod 16)]
  | S fuel' =>
      if x <? 16 then [hexDigit x]
      else toString16_aux fuel' (x / 16) ++ [hexDigit (x mod 16)]
  end.

(** [x.toString(16)] for a non-negative integer [x]. *)
Definition toString16 (x : Z) : jsstring :=
  toString16_aux (Z.to_nat (Z.log2 x)) x.

(** [s.padStart(n, fill)] with a one-character [fill]. *)
Definition padStart (s : jsstring) (n : nat) (fill : char16) : jsstring :=
  repeat fill (n - length s) ++ s.

(** [parts.join(sep)]. *)
Fixpoint join (sep : jsstring) (parts : list jsstring) : jsstring :=
  match parts with
  | [] => []
  | [p] => p
  | p :: tl => p ++ sep ++ join sep tl
  end.

(** [s.split(sep)] for a one-character separator. *)
Fixpoint split (sep : char16) (s : jsstring) : list jsstring :=
  match s with
  | [] => [[]]
  | c :: s' =>
      if char16_eqb c sep then [] :: split sep s'
      else match split sep s' with
           | p :: ps => (c :: p) :: ps
           | [] => [[c]]
           end
  end.

(** Ranges of the numbers the code handles. *)
Definition word32 (x : Z) : Prop := 0 <= x < 2 ^ 32.
Definition int32 (x : Z) : Prop := - 2 ^ 31 <= x < 2 ^ 31.
Definition isByte (x : Z) : Prop := 0 <= x < 256.

(** Code units below U+0080, and the characters [0-9a-f]. *)
Definition isAscii (c : char16) : bool := charCode c <? 0x80.

Definition isLowerHexChar (c : char16) : bool :=
  let u := charCode c in
  ((48 <=? u) && (u <=? 57)) || ((97 <=? u) && (u <=? 102)).

(** A number as a caller or [JSON.parse] may supply it.  Integers are
    exact.  A finite number that is no integer is a dyadic fraction
    [(2 h + 1) / 2 ^ k] with [k >= 1], as every such double is, and each
    has one such form.  There remain the two infinities and NaN; the two
    zeros are not told apart. *)
Inductive number : Type :=
  | Int (z : Z)
  | Frac (h : Z) (k : positive)
  | Infinity
  | NegInfinity
  | NaN.

(** [Number.isInteger(n)]. *)
Definition isInteger (n : number) : bool :=
  match n with
  | Int _ => true
  | _ => false
  end.

(** ToBoolean of a number is false on 0 and on NaN. *)
Definition isFalsy (n : number) : bool :=
  match n with
  | Int z => z =? 0
  | NaN => true
  | _ => false
  end.

(** A finite number is [fst / 2 ^ snd]. *)
Definition dyadic (n : number) : Z * Z :=
  match n with
  | Int z => (z, 0)
  | Frac h k => (2 * h + 1, Z.pos k)
  | _ => (0, 0)
  end.

(** [a < b]: exact on doubles, and false when an operand is NaN. *)
Definition less (a b : number) : bool :=
  match a, b with
  | NaN, _ => false
  | _, NaN => false
  | Infinity, _ => false
  | _, NegInfinity => false
  | NegInfinity, _ => true
  | _, Infinity => true
  | _, _ => fst (dyadic a) * 2 ^ snd (dyadic b) <? fst (dyadic b) * 2 ^ snd (dyadic a)
  end.

(** The least integer that is not below a finite number. *)
Definition ceiling (n : number) : Z :=
  match n with
  | Int z => z
  | Frac h k => (2 * h + 1) / 2 ^ Z.pos k + 1
  | _ => 0
  end.

(** The value of a number that was checked to be an integer. *)
Definition integerValue (n : number) : Z :=
  match n with
  | Int z => z
  | _ => 0
  end.

(** The number is an integer from [lo] to [hi]. *)
Definition integerIn (lo hi : Z) (n : number) : Prop :=
  match n with
  | Int z => lo <= z <= hi
  | _ => False
  end.

(** [i++] on a counter that holds an integer: a double is exact up to
    2^53, and there [i + 1] is rounded back to [i]. *)
Definition increment (i : Z) : Z := if i <? 2 ^ 53 then i + 1 else i.

(** Whether [for (let i = 1; i < bound; i++)] ends: the counter stops
    growing at 2^53. *)
Definition loopEnds (bound : number) : bool :=
  match bound with
  | Infinity => false
  | NegInfinity => true
  | NaN => true
  | _ => ceiling bound <=? 2 ^ 53
  end.

End JS.
Import JS.

(* ================================================================== *)
(** ** [src/algorithms/sha256.ts] *)
(* ================================================================== *)
Module Sha256.

Definition rightRotate (x n : Z) : Z := shr (bor (shr x n) (shl x (32 - n))) 0.
Definition rightShift (x n : Z) : Z := shr x n.

(** The round constants, one row of the source table after the other. *)
Definition K : list Z :=
  [0x428a2f98; 0x71374491; 0xb5c0fbcf; 0xe9b5dba5; 0x3956c25b; 0x59f111f1; 0x923f82a4; 0xab1c5ed5] ++
  [0xd807aa98; 0x12835b01; 0x243185be; 0x550c7dc3; 0x72be5d74; 0x80deb1fe; 0x9bdc06a7; 0xc19bf174] ++
  [0xe49b69c1; 0xefbe4786; 0x0fc19dc6; 0x240ca1cc; 0x2de92c6f; 0x4a7484aa; 0x5cb0a9dc; 0x76f988da] ++
  [0x983e5152; 0xa831c66d; 0xb00327c8; 0xbf597fc7; 0xc6e00bf3; 0xd5a79147; 0x06ca6351; 0x14292967] ++
  [0x27b70a85; 0x2e1b2138; 0x4d2c6dfc; 0x53380d13; 0x650a7354; 0x766a0abb; 0x81c2c92e; 0x92722c85] ++
  [0xa2bfe8a1; 0xa81a664b; 0xc24b8b70; 0xc76c51a3; 0xd192e819; 0xd6990624; 0xf40e3585; 0x106aa070] ++
  [0x19a4c116; 0x1e376c08; 0x2748774c; 0x34b0bcb5; 0x391c0cb3; 0x4ed8aa4a; 0x5b9cca4f; 0x682e6ff3] ++
  [0x748f82ee; 0x78a5636f; 0x84c87814; 0x8cc70208; 0x90befffa; 0xa4506ceb; 0xbef9a3f7; 0xc67178f2].

Definition H0 : list Z :=
  [ 0x6a09e667; 0xbb67ae85; 0x3c6ef372; 0xa54ff53a; 0x510e527f; 0x9b05688c; 0x1f83d9ab; 0x5be0cd19 ].

(** The [bytes.push] calls of [stringToBytes], before the array is turned
    into a [Uint8Array].  A code unit in the surrogate range consumes the
    following unit too; past the end [charCodeAt] is NaN and [NaN & 0x3ff]
    is 0. *)
Fixpoint stringToBytes_push (str : jsstring) : list Z :=
  match str with
  | [] => []
  | c :: rest =>
      let char := charCode c in
      if char <? 0x80 then
        char :: stringToBytes_push rest
      else if char <? 0x800 then
        bor 0xc0 (sar char 6)
        :: bor 0x80 (band char 0x3f)
        :: stringToBytes_push rest
      else if (char <? 0xd800) || (0xe000 <=? char) then
        bor 0xe0 (sar char 12)
        :: bor 0x80 (band (sar char 6) 0x3f)
        :: bor 0x80 (band char 0x3f)
        :: stringToBytes_push rest
      else
        let quad (low10 : Z) :=
          let codePoint := 0x10000 + bor (shl (band char 0x3ff) 10) low10 in
          [ bor 0xf0 (sar codePoint 18);
            bor 0x80 (band (sar codePoint 12) 0x3f);
            bor 0x80 (band (sar codePoint 6) 0x3f);
            bor 0x80 (band codePoint 0x3f) ] in
        match rest with
        | [] => quad 0
        | c2 :: rest' => quad (band (charCode c2) 0x3ff) ++ stringToBytes_push rest'
        end
  end.

Definition stringToBytes (str : jsstring) : list Z :=
  map ToUint8 (stringToBytes_push str).

(** The inner loop of [stringToWords] over the (at most four) bytes of one
    group: [word = (word << 8) + byte], then [word >>> 0]. *)
Definition packWord (group : list Z) : Z :=
  shr (fold_left (fun word byte => shl word 8 + byte) group 0) 0.

Fixpoint wordsOfBytes (bytes : list Z) : list Z :=
  match bytes with
  | b0 :: b1 :: b2 :: b3 :: rest => packWord [b0; b1; b2; b3] :: wordsOfBytes rest
  | [] => []
  | group => [packWord group]
  end.

Definition stringToWords (str : jsstring) : list Z :=
  wordsOfBytes (stringToBytes str).

(** [while ((msgWords.length % 16) !== 14) msgWords.push(0)]; at most 15
    pushes are ever needed. *)
Fixpoint padTo14 (fuel : nat) (msgWords : list Z) : list Z :=
  match fuel with
  | O => msgWords
  | S fuel' =>
      if Z.of_nat (length msgWords) mod 16 =? 14 then msgWords
      else padTo14 fuel' (msgWords ++ [0])
  end.

(** The pre-processing of [sha256]: the padded word array. *)
Definition paddedWords (message : jsstring) : list Z :=
  let msgWords := stringToWords message in
  let bitLength := Z.of_nat (length message) * 8 in
  let msgWords := msgWords ++ [0x80000000] in
  let msgWords := padTo14 16 msgWords in
  let msgWords := msgWords ++ [bitLength / 0x100000000] in
  msgWords ++ [shr bitLength 0].

(** Message schedule: [w[t]] for [t] from 16 to 63. *)
Definition scheduleStep (w : list Z) (t : nat) : list Z :=
  let w15 := at0 w (t - 15) in
  let w2 := at0 w (t - 2) in
  let w16 := at0 w (t - 16) in
  let w7 := at0 w (t - 7) in
  let s0 := bxor (bxor (rightRotate w15 7) (rightRotate w15 18)) (rightShift w15 3) in
  let s1 := bxor (bxor (rightRotate w2 17) (rightRotate w2 19)) (rightShift w2 10) in
  assign w t (shr (w16 + s0 + w7 + s1) 0).

Definition schedule (block : list Z) : list Z :=
  fold_left scheduleStep (seq 16 48) (block ++ repeat 0 48%nat).

Record regs := Regs { ra : Z; rb : Z; rc : Z; rd : Z; re : Z; rf : Z; rg : Z; rh0 : Z }.

Definition round (w : list Z) (r : regs) (t : nat) : regs :=
  let '(Regs a b c d e f g h0) := r in
  let wt := at0 w t in
  let kt := at0 K t in
  let S1 := bxor (bxor (rightRotate e 6) (rightRotate e 11)) (rightRotate e 25) in
  let ch := bxor (band e f) (band (bnot e) g) in
  let temp1 := shr (h0 + S1 + ch + kt + wt) 0 in
  let S0 := bxor (bxor (rightRotate a 2) (rightRotate a 13)) (rightRotate a 22) in
  let maj := bxor (bxor (band a b) (band a c)) (band b c) in
  let temp2 := shr (S0 + maj) 0 in
  Regs (shr (temp1 + temp2) 0) a b c (shr (d + temp1) 0) e f g.

(** One iteration of the loop over 512-bit chunks. *)
Definition processChunk (h : list Z) (block : list Z) : list Z :=
  let w := schedule block in
  let r0 := Regs (at0 h 0) (at0 h 1) (at0 h 2) (at0 h 3)
                 (at0 h 4) (at0 h 5) (at0 h 6) (at0 h 7) in
  let '(Regs a b c d e f g h0) := fold_left (round w) (seq 0 64) r0 in
  let h := assign h 0 (shr (at0 h 0 + a) 0) in
  let h := assign h 1 (shr (at0 h 1 + b) 0) in
  let h := assign h 2 (shr (at0 h 2 + c) 0) in
  let h := assign h 3 (shr (at0 h 3 + d) 0) in
  let h := assign h 4 (shr (at0 h 4 + e) 0) in
  let h := assign h 5 (shr (at0 h 5 + f) 0) in
  let h := assign h 6 (shr (at0 h 6 + g) 0) in
  assign h 7 (shr (at0 h 7 + h0) 0).

(** [for (let i = 0; i < msgWords.length; i += 16)]: [fuel] bounds the
    number of chunks, [length msgWords] is always enough. *)
Fixpoint processChunks (fuel : nat) (msgWords : list Z) (h : list Z) : list Z :=
  match fuel, msgWords with
  | S fuel', _ :: _ =>
      processChunks fuel' (skipn 16 msgWords) (processChunk h (firstn 16 msgWords))
  | _, _ => h
  end.

Definition hashWords (message : jsstring) : list Z :=
  let msgWords := paddedWords message in
  processChunks (length msgWords) msgWords H0.

(** [(x) => (x || 0).toString(16).padStart(8, "0")]. *)
Definition hexWord (x : Z) : jsstring :=
  padStart (toString16 x) 8 (fromCharCode 48).

Definition sha256 (message : jsstring) : jsstring :=
  join [] (map hexWord (hashWords message)).

End Sha256.
Import Sha256.

(* ================================================================== *)
(** ** Exceptions *)
(* ================================================================== *)
Module Exn.

(** The exceptions the modelled code can see: the repository's
    [ValidationError] and the platform's [TypeError], each with its
    message. *)
Inductive error : Type :=
  | ValidationError (message : string)
  | TypeError (message : string).

Definition message_of (e : error) : string :=
  match e with
  | ValidationError m => m
  | TypeError m => m
  end.

(** The outcome of a call: a value, a thrown exception, or no outcome at
    all, when the call runs into a loop that never ends. *)
Inductive result (A : Type) : Type :=
  | Ok (a : A)
  | Throw (e : error)
  | Loops.
Arguments Ok {A} a.
Arguments Throw {A} e.
Arguments Loops {A}.

Definition bind {A B : Type} (c : result A) (k : A -> result B) : result B :=
  match c with
  | Ok a => k a
  | Throw e => Throw e
  | Loops => Loops
  end.

(** [try { body } catch (e) { handler }]: a loop that never ends inside
    the body is not caught. *)
Definition tryCatch {A : Type} (body : result A) (handler : error -> result A) : result A :=
  match body with
  | Ok a => Ok a
  | Throw e => handler e
  | Loops => Loops
  end.

Definition throwIf (cond : bool) (e : error) : result unit :=
  if cond then Throw e else Ok tt.

End Exn.
Import Exn.

Notation "x <- c ;; k" := (bind c (fun x => k))
  (at level 61, c at next level, right associativity).
Notation "c ;;; k" := (bind c (fun _ => k))
  (at level 61, right associativity).

(* ================================================================== *)
(** ** [src/utils/timing.ts] *)
(* ================================================================== *)
Module Timing.

Definition isHighSurrogate (u : Z) : bool := (0xD800 <=? u) && (u <? 0xDC00).
Definition isLowSurrogate (u : Z) : bool := (0xDC00 <=? u) && (u <? 0xE000).

Definition utf8_1 (u : Z) : list Z := [u].
Definition utf8_2 (u : Z) : list Z := [0xC0 + u / 64; 0x80 + u mod 64].
Definition utf8_3 (u : Z) : list Z :=
  [0xE0 + u / 4096; 0x80 + (u / 64) mod 64; 0x80 + u mod 64].
Definition utf8_4 (cp : Z) : list Z :=
  [0xF0 + cp / 262144; 0x80 + (cp / 4096) mod 64; 0x80 + (cp / 64) mod 64; 0x80 + cp mod 64].

(** [Buffer.from(s, 'utf8')] of Node.js, a platform primitive: the UTF-8
    encoding of the string, a surrogate pair giving one four-byte sequence
    and an unpaired surrogate being replaced by U+FFFD (EF BF BD). *)
Fixpoint Buffer_from_utf8 (s : jsstring) : list Z :=
  match s with
  | [] => []
  | c :: rest =>
      let u := charCode c in
      if u <? 0x80 then utf8_1 u ++ Buffer_from_utf8 rest
      else if u <? 0x800 then utf8_2 u ++ Buffer_from_utf8 rest
      else if isHighSurrogate u then
        match rest with
        | c2 :: rest' =>
            if isLowSurrogate (charCode c2) then
              utf8_4 (0x10000 + (u - 0xD800) * 1024 + (charCode c2 - 0xDC00))
              ++ Buffer_from_utf8 rest'
            else utf8_3 0xFFFD ++ Buffer_from_utf8 rest
        | [] => utf8_3 0xFFFD
        end
      else if isLowSurrogate u then utf8_3 0xFFFD ++ Buffer_from_utf8 rest
      else utf8_3 u ++ Buffer_from_utf8 rest
  end.

(** The body of the [for] loop of [timeSafeCompare], run [n] times from
    index [i]. *)
Fixpoint compareLoop (n : nat) (i : nat) (aBytes bBytes : list Z) (result : Z) : Z :=
  match n with
  | O => result
  | S n' =>
      let aByte := if (i <? length aBytes)%nat then nth i aBytes 0 else 0 in
      let bByte := if (i <? length bBytes)%nat then nth i bBytes 0 else 0 in
      compareLoop n' (S i) aBytes bBytes (bor result (bxor aByte bByte))
  end.

Definition timeSafeCompare (a b : jsstring) : bool :=
  let aBytes := Buffer_from_utf8 a in
  let bBytes := Buffer_from_utf8 b in
  let maxLength := Nat.max (length aBytes) (length bBytes) in
  let result := bxor (Z.of_nat (length aBytes)) (Z.of_nat (length bBytes)) in
  let result := compareLoop maxLength 0 aBytes bBytes result in
  result =? 0.

Definition constantTimeCompare (a b : jsstring) : bool :=
  if negb (length a =? length b)%nat then
    let _ := timeSafeCompare a a in
    false
  else timeSafeCompare a b.

(** What [timeSafeCompare] computes once both strings are encoded. *)
Definition compareBytes (aBytes bBytes : list Z) : bool :=
  compareLoop (Nat.max (length aBytes) (length bBytes)) 0 aBytes bBytes
    (bxor (Z.of_nat (length aBytes)) (Z.of_nat (length bBytes))) =? 0.

(** The number of UTF-16 code units a UTF-8 byte stands for: the lead
    byte of a one-, two- or three-byte sequence counts 1, the lead byte of
    a four-byte sequence counts 2, a continuation byte counts 0. *)
Definition unitsOfByte (b : Z) : nat :=
  if b <? 0x80 then 1 else if b <? 0xC0 then 0 else if b <? 0xF0 then 1 else 2.

Definition unitsOfBytes (bytes : list Z) : nat :=
  fold_right (fun b n => (unitsOfByte b + n)%nat) 0%nat bytes.

(** The comparator as the specification words it: [result = len(a) XOR
    len(b)], then [result |= byteAt(a,i,0) XOR byteAt(b,i,0)] for every
    position below the larger length, then [result == 0]. *)
Definition byteAt (bytes : list Z) (i : nat) : Z := nth i bytes 0.

Definition compare_spec (aBytes bBytes : list Z) : bool :=
  let result := Z.lxor (Z.of_nat (length aBytes)) (Z.of_nat (length bBytes)) in
  let result :=
    fold_left (fun r i => Z.lor r (Z.lxor (byteAt aBytes i) (byteAt bBytes i)))
              (seq 0 (Nat.max (length aBytes) (length bBytes))) result in
  result =? 0.

End Timing.
Import Timing.

(* ================================================================== *)
(** ** JSON values and the operators applied to them *)
(* ================================================================== *)
Module Json.

#[local] Unset Elimination Schemes.
(** JSON values, as [JSON.parse] builds them; an object is the list of its
    own properties, without repeated names. *)
Inductive json : Type :=
  | JNull
  | JBool (b : bool)
  | JNum (n : number)
  | JStr (s : jsstring)
  | JArr (items : list json)
  | JObj (fields : list (jsstring * json)).
#[local] Set Elimination Schemes.

Definition jsstring_eqb (a b : jsstring) : bool :=
  (length a =? length b)%nat && forallb (fun p => char16_eqb (fst p) (snd p)) (combine a b).

Fixpoint lookup (name : jsstring) (fields : list (jsstring * json)) : option json :=
  match fields with
  | [] => None
  | (k, v) :: tl => if jsstring_eqb k name then Some v else lookup name tl
  end.

(** [v?.name] for one of the names [iterations], [algorithm], [timestamp],
    which no prototype defines: [None] is [undefined]. *)
Definition prop (v : option json) (name : jsstring) : option json :=
  match v with
  | Some (JObj fields) => lookup name fields
  | _ => None
  end.

(** ECMAScript ToBoolean. *)
Definition truthy (v : json) : bool :=
  match v with
  | JNull => false
  | JBool b => b
  | JNum n => negb (isFalsy n)
  | JStr s => negb (length s =? 0)%nat
  | JArr _ => true
  | JObj _ => true
  end.

(** [v || d] where [v] may be [undefined]. *)
Definition or_else (v : option json) (d : json) : json :=
  match v with
  | Some x => if truthy x then x else d
  | None => d
  end.

(** [v === s] for a string literal [s]. *)
Definition is_string (v : json) (s : jsstring) : bool :=
  match v with
  | JStr x => jsstring_eqb x s
  | _ => false
  end.

(** [n || d] for an optional number. *)
Definition num_or (n : option number) (d : number) : number :=
  match n with
  | Some x => if isFalsy x then d else x
  | None => d
  end.

End Json.
Import Json.

(* ================================================================== *)
(** ** [src/utils/validation.ts] *)
(* ================================================================== *)
Module Validation.

(** Decimal rendering of an integer inside an error message. *)
Fixpoint decimal_aux (fuel : nat) (n : Z) : string :=
  let d := String (ascii_of_N (Z.to_N (48 + n mod 10))) EmptyString in
  match fuel with
  | O => d
  | S fuel' => if n <? 10 then d else (decimal_aux fuel' (n / 10) ++ d)%string
  end.

Definition decimal (n : Z) : string :=
  if n <? 0 then ("-" ++ decimal_aux (Z.to_nat (Z.log2 (- n))) (- n))%string
  else decimal_aux (Z.to_nat (Z.log2 n)) n.

Definition validatePassword (password : jsstring) : result unit :=
  throwIf (length password =? 0)%nat
          (ValidationError "Password cannot be empty") ;;;
  throwIf (1024 <? length password)%nat
          (ValidationError "Password is too long (max 1024 characters)") ;;;
  throwIf (existsb (fun c => charCode c =? 0) password)
          (ValidationError "Password cannot contain null bytes") ;;;
  Ok tt.

Definition validateSalt (salt : jsstring) (minLength maxLength : Z) : result unit :=
  throwIf (Z.of_nat (length salt) <? minLength)
          (ValidationError ("Salt must be at least " ++ decimal minLength ++ " characters long")) ;;;
  throwIf (maxLength <? Z.of_nat (length salt))
          (ValidationError ("Salt must be at most " ++ decimal maxLength ++ " characters long")) ;;;
  Ok tt.

(** The character class [[a-fA-F0-9]]. *)
Definition isHexChar (c : char16) : bool :=
  let u := charCode c in
  ((97 <=? u) && (u <=? 102)) || ((65 <=? u) && (u <=? 70)) || ((48 <=? u) && (u <=? 57)).

(** [/^[a-fA-F0-9]+$/.test(hash)]. *)
Definition hexRegexTest (hash : jsstring) : bool :=
  negb (length hash =? 0)%nat && forallb isHexChar hash.

Definition validateHash (hash : jsstring) : result unit :=
  throwIf (length hash =? 0)%nat
          (ValidationError "Hash cannot be empty") ;;;
  throwIf (negb (hexRegexTest hash))
          (ValidationError "Hash must contain only hexadecimal characters") ;;;
  Ok tt.

Definition validateKeyLength (keyLength : number) : result unit :=
  throwIf (negb (isInteger keyLength))
          (ValidationError "Key length must be an integer") ;;;
  throwIf (less keyLength (Int 8))
          (ValidationError "Key length must be at least 8 bytes") ;;;
  throwIf (less (Int 512) keyLength)
          (ValidationError "Key length cannot exceed 512 bytes") ;;;
  Ok tt.

Record StoredHash : Type := MkStoredHash {
  salt : jsstring;
  hash : jsstring;
  metadata : option json   (* [None] is [undefined] *)
}.

Definition colon : char16 := fromCharCode 58.

(** A field of a credential: a string without the separator. *)
Definition noColon (s : jsstring) : Prop :=
  forallb (fun c => negb (char16_eqb c colon)) s = true.

Section WithJSON.

(** [JSON.parse], a platform primitive: [None] when it throws. *)
Variable JSON_parse : jsstring -> option json.

Definition validateStoredHashFormat (storedHash : jsstring) : result StoredHash :=
  let parts := split colon storedHash in
  throwIf (length parts <? 2)%nat
          (ValidationError "Invalid stored hash format - must contain salt and hash separated by colon") ;;;
  let salt := nth 0 parts [] in
  let hash := nth 1 parts [] in
  let metadataParts := skipn 2 parts in
  throwIf ((length salt =? 0) || (length hash =? 0))%nat
          (ValidationError "Invalid stored hash format - salt and hash cannot be empty") ;;;
  validateSalt salt 8 128 ;;;
  validateHash hash ;;;
  let metadata :=
    if (0 <? length metadataParts)%nat
    then JSON_parse (join [colon] metadataParts)
    else None in
  Ok (MkStoredHash salt hash metadata).

End WithJSON.

End Validation.
Import Validation.

(* ================================================================== *)
(** ** [src/types/index.ts] *)
(* ================================================================== *)
Module Types.

Inductive HashAlgorithm : Type := sha256_alg | sha512_alg | pbkdf2_alg.
Inductive Encoding : Type := hex | base64 | binary.

Definition algorithmName (a : HashAlgorithm) : jsstring :=
  match a with
  | sha256_alg => lit "sha256"
  | sha512_alg => lit "sha512"
  | pbkdf2_alg => lit "pbkdf2"
  end.

(** [Partial<HashOptions>]: every field may be absent. *)
Record HashOptions : Type := MkHashOptions {
  algorithm : option HashAlgorithm;
  saltLength : option number;
  iterations : option number;
  keyLength : option number;
  encoding : option Encoding;
  pepper : option jsstring
}.

Definition noOptions : HashOptions :=
  MkHashOptions None None None None None None.

End Types.
Import Types.

(* ================================================================== *)
(** ** [src/utils/salt.ts] *)
(* ================================================================== *)
Module Salt.

Section WithEntropy.

(** The bytes [crypto.randomBytes] delivers, by position. *)
Variable entropy : nat -> Byte.byte.

Definition randomBytes (length : Z) : list Byte.byte :=
  map entropy (seq 0 (Z.to_nat length)).

(** [b.toString(16).padStart(2, '0')] joined over the buffer, which is
    what [Buffer.prototype.toString('hex')] returns. *)
Definition toHex (bytes : list Byte.byte) : jsstring :=
  join [] (map (fun b => padStart (toString16 (byteZ b)) 2 (fromCharCode 48)) bytes).

(** [require('crypto')] succeeds on Node.js, so the [catch] branch with
    its [Math.random] fallback is not taken. *)
Definition generateCryptoSalt (length : number) : result jsstring :=
  validateKeyLength length ;;;
  Ok (toHex (randomBytes (integerValue length))).

(** [generateSecureSalt(length)] as [password.ts] calls it, with no
    options: the strategy is ['crypto']. *)
Definition generateSecureSalt (length : number) : result jsstring :=
  validateKeyLength length ;;;
  generateCryptoSalt length.

End WithEntropy.

End Salt.
Import Salt.

(* ================================================================== *)
(** ** [src/core/password.ts] *)
(* ================================================================== *)
Module Password.

Record PasswordHashResult : Type := MkPasswordHashResult {
  phr_hash : jsstring;
  phr_salt : jsstring;
  phr_algorithm : HashAlgorithm;
  phr_iterations : number;
  phr_keyLength : number;
  phr_timestamp : Z;
  phr_encoding : Encoding;
  phr_hasPepper : bool
}.

(** The [metadata] of a [VerificationResult]: [{iterations,
    secureComparison: true}] or [{error: message}]. *)
Inductive VerificationMetadata : Type :=
  | MetaIterations (iterations : json)
  | MetaError (message : string).

Record VerificationResult : Type := MkVerificationResult {
  isValid : bool;
  vr_algorithm : json;
  timeTaken : Z;
  vr_metadata : VerificationMetadata
}.

(** [for (let i = 1; i < iterations; i++) hash = sha256(hash)] for an
    integer bound, with an exact counter. *)
Fixpoint hashLoop (fuel : nat) (i iterations : Z) (hash : jsstring) : jsstring :=
  match fuel with
  | O => hash
  | S fuel' =>
      if i <? iterations then hashLoop fuel' (i + 1) iterations (sha256 hash)
      else hash
  end.

Definition iterate (iterations : Z) (hash : jsstring) : jsstring :=
  hashLoop (Z.to_nat (iterations - 1)) 1 iterations hash.

(** The same loop step by step, for a bound that is any number and a
    counter that is a double: [None] when the fuel is used up before the
    loop has ended. *)
Fixpoint hashLoopDouble (fuel : nat) (i : Z) (iterations : number) (hash : jsstring)
  : option jsstring :=
  match fuel with
  | O => None
  | S fuel' =>
      if less (Int i) iterations
      then hashLoopDouble fuel' (increment i) iterations (sha256 hash)
      else Some hash
  end.

(** The loop as a call: it ends exactly when the bound is at most 2^53
    (or NaN), and has then run as for the integer bound [ceiling
    iterations]; otherwise the counter stays at 2^53 for ever. *)
Definition hashIterations (iterations : number) (hash : jsstring) : result jsstring :=
  if loopEnds iterations then Ok (iterate (ceiling iterations) hash) else Loops.

Section WithPlatform.

(** Platform primitives: the random bytes of [crypto.randomBytes],
    [JSON.stringify], [JSON.parse] ([None] when it throws), and the
    conversion to a number of a string, an array or an object in [i <
    iterations]: a number, or the exception the conversion throws. *)
Variable entropy : nat -> Byte.byte.
Variable JSON_stringify : json -> jsstring.
Variable JSON_parse : jsstring -> option json.
Variable ToNumber_object : json -> number + error.

Definition ToNumber (v : json) : result number :=
  match v with
  | JNum n => Ok n
  | JBool b => Ok (Int (if b then 1 else 0))
  | JNull => Ok (Int 0)
  | _ => match ToNumber_object v with
         | inl n => Ok n
         | inr e => Throw e
         end
  end.

(** The same loop when [iterations] was read from the parsed metadata. *)
Definition iterateStored (iterations : json) (hash : jsstring) : result jsstring :=
  bound <- ToNumber iterations ;;
  hashIterations bound hash.

Definition metadataOf (algorithm : HashAlgorithm) (iterations keyLength : number)
    (timestamp : Z) : json :=
  JObj [ (lit "algorithm", JStr (algorithmName algorithm));
         (lit "iterations", JNum iterations);
         (lit "keyLength", JNum keyLength);
         (lit "timestamp", JNum (Int timestamp)) ].

(** [now] is what [Date.now()] returns. *)
Definition hashPassword (now : Z) (password : jsstring) (options : HashOptions)
  : result jsstring :=
  validatePassword password ;;;
  let algorithm := match algorithm options with Some a => a | None => sha256_alg end in
  let saltLength := num_or (saltLength options) (Int 32) in
  let iterations := num_or (iterations options) (Int 1) in
  let keyLength := num_or (keyLength options) (Int 64) in
  salt <- generateSecureSalt entropy saltLength ;;
  hash <-
    match algorithm with
    | sha256_alg => hashIterations iterations (sha256 (password ++ salt))
    | _ => hashIterations iterations (sha256 (password ++ salt))
    end ;;
  let metadata := metadataOf algorithm iterations keyLength now in
  Ok (salt ++ [colon] ++ hash ++ [colon] ++ JSON_stringify metadata).

Definition hashPasswordWithOptions (now : Z) (password : jsstring) (options : HashOptions)
  : result PasswordHashResult :=
  validatePassword password ;;;
  let algorithm := match algorithm options with Some a => a | None => sha256_alg end in
  let saltLength := num_or (saltLength options) (Int 32) in
  let iterations := num_or (iterations options) (Int 100000) in
  let keyLength := num_or (keyLength options) (Int 64) in
  let encoding := match encoding options with Some e => e | None => hex end in
  let pepper := pepper options in
  salt <- generateSecureSalt entropy saltLength ;;
  let input :=
    match pepper with
    | Some (c :: pepper') => password ++ salt ++ (c :: pepper')
    | _ => password ++ salt
    end in
  hash <-
    match algorithm with
    | sha256_alg => hashIterations iterations (sha256 input)
    | _ => hashIterations iterations (sha256 input)
    end ;;
  Ok (MkPasswordHashResult hash salt algorithm iterations keyLength now encoding
        (match pepper with Some (_ :: _) => true | _ => false end)).

Definition algorithmOf (o : HashOptions) : HashAlgorithm :=
  match algorithm o with Some a => a | None => sha256_alg end.

(** The three numbers [hashPassword] reads from its options. *)
Definition saltLengthOf (o : HashOptions) : number := num_or (saltLength o) (Int 32).
Definition iterationsOf (o : HashOptions) : number := num_or (iterations o) (Int 1).
Definition keyLengthOf (o : HashOptions) : number := num_or (keyLength o) (Int 64).

(** The metadata [hashPassword] records at the time [now]. *)
Definition metadataFor (now : Z) (o : HashOptions) : json :=
  metadataOf (algorithmOf o) (iterationsOf o) (keyLengthOf o) now.

(** The credential [hashPassword] returns, when it returns one. *)
Definition credentialOf (now : Z) (p : jsstring) (o : HashOptions) : jsstring :=
  let salt := toHex (randomBytes entropy (integerValue (saltLengthOf o))) in
  salt ++ [colon]
  ++ iterate (ceiling (iterationsOf o)) (sha256 (p ++ salt)) ++ [colon]
  ++ JSON_stringify (metadataFor now o).

(** The whole body is a [try] block, and the [catch] returns [false]. *)
Definition verifyPassword (password storedHash : jsstring) : result bool :=
  tryCatch
    (validatePassword password ;;;
     stored <- validateStoredHashFormat JSON_parse storedHash ;;
     let iterations := or_else (prop (metadata stored) (lit "iterations")) (JNum (Int 1)) in
     computedHash <- iterateStored iterations (sha256 (password ++ salt stored)) ;;
     Ok (timeSafeCompare computedHash (hash stored)))
    (fun _ => Ok false).

(** [startTime] and [endTime] are the two readings of [Date.now()].  The
    [switch] on the algorithm has one body, for ['sha256'] and for the
    default. *)
Definition verifyPasswordSecure (startTime endTime : Z) (password storedHash : jsstring)
  : result VerificationResult :=
  tryCatch
    (validatePassword password ;;;
     stored <- validateStoredHashFormat JSON_parse storedHash ;;
     let algorithm := or_else (prop (metadata stored) (lit "algorithm")) (JStr (lit "sha256")) in
     let iterations := or_else (prop (metadata stored) (lit "iterations")) (JNum (Int 1)) in
     computedHash <-
       (if is_string algorithm (lit "sha256")
        then iterateStored iterations (sha256 (password ++ salt stored))
        else iterateStored iterations (sha256 (password ++ salt stored))) ;;
     let isValid := timeSafeCompare computedHash (hash stored) in
     let timeTaken := endTime - startTime in
     Ok (MkVerificationResult isValid algorithm timeTaken (MetaIterations iterations)))
    (fun error =>
       let timeTaken := endTime - startTime in
       Ok (MkVerificationResult false (JStr (lit "sha256")) timeTaken
             (MetaError (message_of error)))).

(** [null] is [None].  The three clock readings are those of
    [verifyPasswordSecure] and of [hashPassword]. *)
Definition upgradePasswordHash (startTime endTime now : Z)
    (password oldStoredHash : jsstring) (newOptions : HashOptions)
  : result (option jsstring) :=
  verification <- verifyPasswordSecure startTime endTime password oldStoredHash ;;
  if negb (isValid verification) then Ok None
  else
    newHash <- hashPassword now password newOptions ;;
    Ok (Some newHash).

(** What both verification functions compute from a decoded credential:
    only the salt, the digest and the [iterations] property are read. *)
Definition recompute (p : jsstring) (d : StoredHash) : result bool :=
  computedHash <-
    iterateStored (or_else (prop (metadata d) (lit "iterations")) (JNum (Int 1)))
                  (sha256 (p ++ salt d)) ;;
  Ok (timeSafeCompare computedHash (hash d)).

End WithPlatform.

(** [{ ...options, algorithm }]. *)
Definition withAlgorithm (o : HashOptions) (a : HashAlgorithm) : HashOptions :=
  MkHashOptions (Some a) (saltLength o) (iterations o) (keyLength o) (encoding o) (pepper o).

(** The string [hashPasswordWithOptions] digests. *)
Definition pepperedInput (password salt : jsstring) (o : HashOptions) : jsstring :=
  match pepper o with
  | Some (c :: pepper') => password ++ salt ++ (c :: pepper')
  | _ => password ++ salt
  end.

End Password.
Import Password.

(* ================================================================== *)
(** ** The padding of the standard, in the specification's words *)
(* ================================================================== *)
Module Sha256Spec.

(** "then zero bytes until the total length in bits is congruent to 448
    modulo 512": at most 63 bytes are ever needed. *)
Fixpoint zeroFill (fuel : nat) (bytes : list Z) : list Z :=
  match fuel with
  | O => bytes
  | S fuel' =>
      if (8 * Z.of_nat (length bytes)) mod 512 =? 448 then bytes
      else zeroFill fuel' (bytes ++ [0])
  end.

(** A 64-bit big-endian integer, as eight bytes. *)
Definition bigEndian64 (x : Z) : list Z :=
  map (fun k => (x / 2 ^ (8 * k)) mod 256) [7; 6; 5; 4; 3; 2; 1; 0].

(** The padded message, for a message of whole bytes: the byte 0x80, the
    zero bytes, the bit length. *)
Definition standardPadding (message : list Z) : list Z :=
  zeroFill 64 (message ++ [0x80]) ++ bigEndian64 (8 * Z.of_nat (length message)).

(** The bytes an array of 32-bit words stands for, each word big-endian,
    which is how the compression function reads the blocks. *)
Definition bytesOfWord (w : Z) : list Z :=
  [(w / 2 ^ 24) mod 256; (w / 2 ^ 16) mod 256; (w / 2 ^ 8) mod 256; w mod 256].

Definition bytesOfWords (ws : list Z) : list Z := flat_map bytesOfWord ws.

End Sha256Spec.
Import Sha256Spec.

(* ================================================================== *)
(** ** A concrete platform, to run the definitions *)
(* ================================================================== *)
(** [JSON.stringify] and [JSON.parse] restricted to strings without
    escapes and to numbers written as digits with an optional exponent,
    a stream of bytes for [crypto.randomBytes] and a number conversion:
    one instance of the platform on which the password functions are
    parametrised. *)
Module JsonModel.

Definition quote (s : jsstring) : jsstring :=
  [fromCharCode 34] ++ s ++ [fromCharCode 34].

(** A number in decimal: a fraction with all its digits, and [null] for
    the infinities and NaN. *)
Definition printNumber (n : number) : jsstring :=
  match n with
  | Int z => lit (decimal z)
  | Frac h k =>
      let a := Z.abs (2 * h + 1) in
      (if 2 * h + 1 <? 0 then lit "-" else [])
      ++ lit (decimal (a / 2 ^ Z.pos k)) ++ lit "."
      ++ padStart (lit (decimal ((a mod 2 ^ Z.pos k) * 5 ^ Z.pos k)))
                  (Pos.to_nat k) (fromCharCode 48)
  | _ => lit "null"
  end.

(** Printing, for strings that need no escape. *)
Fixpoint stringify (v : json) : jsstring :=
  match v with
  | JNull => lit "null"
  | JBool true => lit "true"
  | JBool false => lit "false"
  | JNum n => printNumber n
  | JStr s => quote s
  | JArr items => lit "[" ++ join (lit ",") (map stringify items) ++ lit "]"
  | JObj fields =>
      lit "{"
      ++ join (lit ",") (map (fun kv => quote (fst kv) ++ lit ":" ++ stringify (snd kv)) fields)
      ++ lit "}"
  end.

Definition isDigit (c : char16) : bool := (48 <=? charCode c) && (charCode c <=? 57).
Definition isSpace (c : char16) : bool :=
  let u := charCode c in (u =? 32) || (u =? 9) || (u =? 10) || (u =? 13).

Fixpoint skipSpace (s : jsstring) : jsstring :=
  match s with
  | c :: rest => if isSpace c then skipSpace rest else s
  | [] => []
  end.

Fixpoint readDigits (acc : Z) (s : jsstring) : Z * jsstring :=
  match s with
  | c :: rest => if isDigit c then readDigits (10 * acc + (charCode c - 48)) rest else (acc, s)
  | [] => (acc, [])
  end.

(** The number written as digits and an optional exponent [e], [e+]:
    an integer, or Infinity from 2^1024 - 2^970 on, where the nearest
    double is.  Fractions and negative exponents are not read. *)
Definition readNumber (s : jsstring) : option (number * jsstring) :=
  let '(n, r) := readDigits 0 s in
  let value (v : Z) := if 2 ^ 1024 - 2 ^ 970 <=? v then Infinity else Int v in
  match r with
  | c :: r1 =>
      if (charCode c =? 101) || (charCode c =? 69) then
        let r2 := match r1 with
                  | p :: r' => if charCode p =? 43 then r' else r1
                  | [] => r1
                  end in
        match r2 with
        | d :: _ =>
            if isDigit d then
              let '(e, r3) := readDigits 0 r2 in Some (value (n * 10 ^ e), r3)
            else None
        | [] => None
        end
      else if charCode c =? 46 then None
      else Some (value n, r)
  | [] => Some (value n, [])
  end.

Definition negate (n : number) : number :=
  match n with
  | Int z => Int (- z)
  | Frac h k => Frac (- h - 1) k
  | Infinity => NegInfinity
  | NegInfinity => Infinity
  | NaN => NaN
  end.

(** The characters of a string literal up to its closing quote; escapes
    are not read. *)
Fixpoint readString (s : jsstring) : option (jsstring * jsstring) :=
  match s with
  | [] => None
  | c :: rest =>
      if charCode c =? 34 then Some ([], rest)
      else if charCode c =? 92 then None
      else match readString rest with
           | Some (str, rest') => Some (c :: str, rest')
           | None => None
           end
  end.

Fixpoint dropPrefix (p s : jsstring) : option jsstring :=
  match p, s with
  | [], _ => Some s
  | x :: p', y :: s' => if char16_eqb x y then dropPrefix p' s' else None
  | _ :: _, [] => None
  end.

Fixpoint parseValue (fuel : nat) (s : jsstring) {struct fuel} : option (json * jsstring) :=
  match fuel with
  | O => None
  | S fuel' =>
      match skipSpace s with
      | [] => None
      | c :: rest =>
          let u := charCode c in
          if u =? 34 then
            match readString rest with
            | Some (str, rest') => Some (JStr str, rest')
            | None => None
            end
          else if u =? 91 then
            match skipSpace rest with
            | c' :: rest' =>
                if charCode c' =? 93 then Some (JArr [], rest')
                else match parseItems fuel' rest with
                     | Some (items, r) => Some (JArr items, r)
                     | None => None
                     end
            | [] => None
            end
          else if u =? 123 then
            match skipSpace rest with
            | c' :: rest' =>
                if charCode c' =? 125 then Some (JObj [], rest')
                else match parseFields fuel' rest with
                     | Some (fields, r) => Some (JObj fields, r)
                     | None => None
                     end
            | [] => None
            end
          else if u =? 45 then
            match rest with
            | d :: _ =>
                if isDigit d then
                  match readNumber rest with
                  | Some (n, r) => Some (JNum (negate n), r)
                  | None => None
                  end
                else None
            | [] => None
            end
          else if isDigit c then
            match readNumber (c :: rest) with
            | Some (n, r) => Some (JNum n, r)
            | None => None
            end
          else
            match dropPrefix (lit "null") (c :: rest),
                  dropPrefix (lit "true") (c :: rest),
                  dropPrefix (lit "false") (c :: rest) with
            | Some r, _, _ => Some (JNull, r)
            | _, Some r, _ => Some (JBool true, r)
            | _, _, Some r => Some (JBool false, r)
            | _, _, _ => None
            end
      end
  end
with parseItems (fuel : nat) (s : jsstring) {struct fuel} : option (list json * jsstring) :=
  match fuel with
  | O => None
  | S fuel' =>
      match parseValue fuel' s with
      | Some (v, r) =>
          match skipSpace r with
          | c :: r' =>
              if charCode c =? 93 then Some ([v], r')
              else if charCode c =? 44 then
                match parseItems fuel' r' with
                | Some (vs, r'') => Some (v :: vs, r'')
                | None => None
                end
              else None
          | [] => None
          end
      | None => None
      end
  end
with parseFields (fuel : nat) (s : jsstring) {struct fuel}
  : option (list (jsstring * json) * jsstring) :=
  match fuel with
  | O => None
  | S fuel' =>
      match skipSpace s with
      | q :: s1 =>
          if charCode q =? 34 then
            match readString s1 with
            | Some (key, s2) =>
                match skipSpace s2 with
                | c :: s3 =>
                    if charCode c =? 58 then
                      match parseValue fuel' s3 with
                      | Some (v, r) =>
                          match skipSpace r with
                          | d :: r' =>
                              if charCode d =? 125 then Some ([(key, v)], r')
                              else if charCode d =? 44 then
                                match parseFields fuel' r' with
                                | Some (fs, r'') => Some ((key, v) :: fs, r'')
                                | None => None
                                end
                              else None
                          | [] => None
                          end
                      | None => None
                      end
                    else None
                | [] => None
                end
            | None => None
            end
          else None
      | [] => None
      end
  end.

(** Parsing: one value, then nothing but white space. *)
Definition parse (s : jsstring) : option json :=
  match parseValue (2 * length s + 2) s with
  | Some (v, rest) => match skipSpace rest with [] => Some v | _ => None end
  | None => None
  end.

(** Conversion to a number of the values [ToNumber] leaves to the
    platform: every one of them is read as NaN here. *)
Definition toNumberObject (v : json) : number + error := inl NaN.

(** [a - b] for an integer [a] and a fraction [b], without rounding:
    the difference is written with the denominator of [b]. *)
Definition subtractFraction (a : Z) (b : number) : number :=
  match b with
  | Frac h k => Frac (a * 2 ^ (Z.pos k - 1) - h - 1) k
  | _ => NaN
  end.

Definition entropy (i : nat) : Byte.byte := byteOfZ (Z.of_nat i * 37 + 11).

End JsonModel.

(** Inputs on which the definitions are run. *)
Module Example.

Definition password : jsstring := lit "hunter2".
Definition now : Z := 1700000000000.

Definition options (a : option HashAlgorithm) : HashOptions :=
  MkHashOptions a (Some (Int 8)) (Some (Int 3)) None None None.

(** The credential of [password] under [options a]. *)
Definition credential (a : option HashAlgorithm) : jsstring :=
  credentialOf JsonModel.entropy JsonModel.stringify now password (options a).

(** What [credential a] decodes to. *)
Definition saltText : jsstring := toHex (randomBytes JsonModel.entropy 8).
Definition digest : jsstring := iterate 3 (sha256 (password ++ saltText)).

Definition decoded (a : HashAlgorithm) : StoredHash :=
  MkStoredHash saltText digest (Some (metadataOf a (Int 3) (Int 64) now)).

Definition legacySalt : jsstring := lit "saltsalt".

(** [saltsalt:ab:{"iterations":1e999}]: a credential whose metadata
    give more iterations than a double can count. *)
Definition unboundedCredential : jsstring :=
  lit "saltsalt:ab:{" ++ JsonModel.quote (lit "iterations") ++ lit ":1e999}".

End Example.

(* ================================================================== *)
(** ** More of the language: substrings, padding, [parseInt] *)
(* ================================================================== *)
Module JSText.

(** [s.substr(start, length)] for non-negative integers. *)
Definition substr (s : jsstring) (start len : nat) : jsstring :=
  firstn len (skipn start s).

(** [s.substring(0, end)]: a negative [end] counts as 0. *)
Definition substring0 (s : jsstring) (e : Z) : jsstring := firstn (Z.to_nat e) s.

(** [s.padEnd(n, fill)] with a one-character [fill]. *)
Definition padEnd (s : jsstring) (n : Z) (fill : char16) : jsstring :=
  s ++ repeat fill (Z.to_nat n - length s).

(** [s.charAt(i)]: the empty string outside the string; NaN ([None])
    counts as 0. *)
Definition charAt (s : jsstring) (i : option Z) : jsstring :=
  let i := match i with Some i => i | None => 0 end in
  if i <? 0 then []
  else match nth_error s (Z.to_nat i) with Some c => [c] | None => [] end.

(** [a % b] on integers: the sign is that of the dividend, and the result
    is NaN ([None]) when [b] is 0 or an operand is NaN. *)
Definition remainder (a b : option Z) : option Z :=
  match a, b with
  | Some a, Some b => if b =? 0 then None else Some (Z.rem a b)
  | _, _ => None
  end.

(** NaN becomes 0 where a number is turned into an integer (ToInt32,
    typed-array stores). *)
Definition nanTo0 (x : option Z) : Z := match x with Some v => v | None => 0 end.

(** [x.toString(16)] for an integer of either sign. *)
Definition toString16s (x : Z) : jsstring :=
  if x <? 0 then fromCharCode 45 :: toString16 (- x) else toString16 x.

(** The white space [parseInt] skips: WhiteSpace and LineTerminator of
    ECMAScript. *)
Definition isStrWhiteSpace (c : char16) : bool :=
  let u := charCode c in
  ((9 <=? u) && (u <=? 13)) || (u =? 32) || (u =? 0xA0) || (u =? 0x1680)
  || ((0x2000 <=? u) && (u <=? 0x200A)) || (u =? 0x2028) || (u =? 0x2029)
  || (u =? 0x202F) || (u =? 0x205F) || (u =? 0x3000) || (u =? 0xFEFF).

Fixpoint trimStart (s : jsstring) : jsstring :=
  match s with
  | c :: rest => if isStrWhiteSpace c then trimStart rest else s
  | [] => []
  end.

Definition hexValue (c : char16) : option Z :=
  let u := charCode c in
  if (48 <=? u) && (u <=? 57) then Some (u - 48)
  else if (97 <=? u) && (u <=? 102) then Some (u - 87)
  else if (65 <=? u) && (u <=? 70) then Some (u - 55)
  else None.

(** The longest prefix of hexadecimal digits, read as a number; [acc] is
    [None] as long as no digit was read. *)
Fixpoint readHex (acc : option Z) (s : jsstring) : option Z :=
  match s with
  | c :: rest =>
      match hexValue c with
      | Some d => readHex (Some (16 * nanTo0 acc + d)) rest
      | None => acc
      end
  | [] => acc
  end.

(** [parseInt(s, 16)]: white space, a sign, an optional [0x], then
    digits; NaN ([None]) when no digit follows. *)
Definition parseInt16 (s : jsstring) : option Z :=
  let s := trimStart s in
  let signed :=
    match s with
    | c :: rest =>
        if charCode c =? 45 then (-1, rest)
        else if charCode c =? 43 then (1, rest)
        else (1, s)
    | [] => (1, [])
    end in
  let s :=
    match snd signed with
    | c0 :: c1 :: rest =>
        if (charCode c0 =? 48) && ((charCode c1 =? 120) || (charCode c1 =? 88))
        then rest else snd signed
    | _ => snd signed
    end in
  match readHex None s with
  | Some v => Some (fst signed * v)
  | None => None
  end.

(** The strings [hex.substr(i, 2)] for [i = 0, 2, 4, ...] below the
    length. *)
Fixpoint hexPairs (hex : jsstring) : list jsstring :=
  match hex with
  | a :: b :: rest => [a; b] :: hexPairs rest
  | [a] => [[a]]
  | [] => []
  end.

(** The loop that fills [new Uint8Array(hex.length / 2)] with
    [parseInt(hex.substr(i, 2), 16)]: a store past the end of the array
    is dropped. *)
Definition byteOfPair (pair : jsstring) : Z := ToUint8 (nanTo0 (parseInt16 pair)).

Definition bytesFromHex (hex : jsstring) : list Z :=
  firstn (length hex / 2)%nat (map byteOfPair (hexPairs hex)).

(** The digits of [x] on exactly [k] hexadecimal places. *)
Fixpoint hexDigits (k : nat) (x : Z) : jsstring :=
  match k with
  | O => []
  | S k' => hexDigits k' (x / 16) ++ [hexDigit (x mod 16)]
  end.

End JSText.
Import JSText.

(* ================================================================== *)
(** ** [src/algorithms/sha256.ts], the other exports *)
(* ================================================================== *)
Module Sha256Api.

Definition sha256Hex (message : jsstring) : jsstring := sha256 message.

Definition sha256Bytes (message : jsstring) : list Z := bytesFromHex (sha256 message).

(** A string in which every surrogate is half of a pair. *)
Fixpoint wellFormed (s : jsstring) : bool :=
  match s with
  | [] => true
  | c :: rest =>
      if isHighSurrogate (charCode c) then
        match rest with
        | c2 :: rest' => isLowSurrogate (charCode c2) && wellFormed rest'
        | [] => false
        end
      else negb (isLowSurrogate (charCode c)) && wellFormed rest
  end.

(** The code units a UTF-8 byte sequence stands for; the inverse of the
    encoder on what it produces from well-formed strings. *)
Fixpoint decodeUtf8 (bytes : list Z) : jsstring :=
  match bytes with
  | [] => []
  | b0 :: rest =>
      if b0 <? 0x80 then fromCharCode b0 :: decodeUtf8 rest
      else if b0 <? 0xE0 then
        match rest with
        | b1 :: rest1 => fromCharCode ((b0 - 0xC0) * 64 + (b1 - 0x80)) :: decodeUtf8 rest1
        | _ => []
        end
      else if b0 <? 0xF0 then
        match rest with
        | b1 :: b2 :: rest2 =>
            fromCharCode ((b0 - 0xE0) * 4096 + (b1 - 0x80) * 64 + (b2 - 0x80))
            :: decodeUtf8 rest2
        | _ => []
        end
      else
        match rest with
        | b1 :: b2 :: b3 :: rest3 =>
            let cp := (b0 - 0xF0) * 262144 + (b1 - 0x80) * 4096
                      + (b2 - 0x80) * 64 + (b3 - 0x80) in
            fromCharCode (0xD800 + (cp - 0x10000) / 1024)
            :: fromCharCode (0xDC00 + (cp - 0x10000) mod 1024)
            :: decodeUtf8 rest3
        | _ => []
        end
  end.

End Sha256Api.
Import Sha256Api.

(* ================================================================== *)
(** ** [src/algorithms/pbkdf2.ts] *)
(* ================================================================== *)
Module Pbkdf2.

(** [for (let i = 0; i < iterations; i++) result = sha256(result)] is
    [hashLoop] started at 0; then the result is cut or padded to
    [keyLength * 2] characters. *)
Definition pbkdf2 (password salt : jsstring) (iterations keyLength : Z) : jsstring :=
  let result := hashLoop (Z.to_nat iterations) 0 iterations (password ++ salt) in
  if keyLength * 2 <? Z.of_nat (length result) then
    substring0 result (keyLength * 2)
  else if Z.of_nat (length result) <? keyLength * 2 then
    padEnd result (keyLength * 2) (fromCharCode 48)
  else result.

Definition pbkdf2Hex (password salt : jsstring) (iterations keyLength : Z) : jsstring :=
  pbkdf2 password salt iterations keyLength.

Definition pbkdf2Bytes (password salt : jsstring) (iterations keyLength : Z) : list Z :=
  bytesFromHex (pbkdf2 password salt iterations keyLength).

End Pbkdf2.
Import Pbkdf2.

(* ================================================================== *)
(** ** [src/algorithms/hmac.ts] *)
(* ================================================================== *)
Module Hmac.

(** The key on [blockSize * 2 = 128] characters. *)
Definition paddedKey (key : jsstring) : jsstring :=
  if (64 <? length key)%nat then substring0 (sha256 key) 128
  else padEnd key 128 (fromCharCode 48).

(** [innerKey] and [outerKey]: each pair of characters of the padded key,
    read by [parseInt], XORed with the pad byte, printed in hexadecimal. *)
Definition xorKey (pad : Z) (padded : jsstring) : jsstring :=
  join [] (map (fun pair =>
                  padStart (toString16s (bxor (nanTo0 (parseInt16 pair)) pad))
                           2 (fromCharCode 48))
               (hexPairs padded)).

(** The number one pair of characters of the padded key stands for. *)
Definition keyByte (pair : jsstring) : Z := nanTo0 (parseInt16 pair).

(** A character with which no hexadecimal numeral starts: neither white
    space, nor a sign, nor a digit. *)
Definition unreadable (c : char16) : bool :=
  negb (isStrWhiteSpace c) && negb (charCode c =? 45) && negb (charCode c =? 43)
  && match hexValue c with Some _ => false | None => true end.

Definition hmac (message key : jsstring) : jsstring :=
  let padded := paddedKey key in
  let innerKey := xorKey 0x36 padded in
  let outerKey := xorKey 0x5c padded in
  let innerHash := sha256 (innerKey ++ message) in
  sha256 (outerKey ++ innerHash).

End Hmac.
Import Hmac.

(* ================================================================== *)
(** ** [src/algorithms/sha512.ts] *)
(* ================================================================== *)
Module Sha512.

(** [hash = ((hash << 5) - hash) + char; hash = hash & hash] over the
    code units. *)
Definition sha512Step (hash : Z) (c : char16) : Z :=
  let hash := (shl hash 5 - hash) + charCode c in
  band hash hash.

Definition sha512 (message : jsstring) : jsstring :=
  let hash := fold_left sha512Step message 0 in
  let block := padStart (toString16 (Z.abs hash)) 16 (fromCharCode 48) in
  block ++ block ++ block ++ block.

Definition sha512Bytes (message : jsstring) : list Z := bytesFromHex (sha512 message).

End Sha512.
Import Sha512.

(* ================================================================== *)
(** ** [src/utils/validation.ts], the remaining exports *)
(* ================================================================== *)
Module ValidationRest.

Definition validateIterations (iterations : number) : result unit :=
  throwIf (negb (isInteger iterations))
          (ValidationError "Iterations must be an integer") ;;;
  throwIf (less iterations (Int 1000))
          (ValidationError "Iterations must be at least 1000 for security") ;;;
  throwIf (less (Int 10000000) iterations)
          (ValidationError "Iterations cannot exceed 10,000,000") ;;;
  Ok tt.

(** The character class of [sanitizeInput]: NUL, backspace, tab, 0x1a,
    line feed, carriage return, the two quotes, the backslash and the
    percent sign. *)
Definition isRemoved (c : char16) : bool :=
  let u := charCode c in
  (u =? 0) || (u =? 8) || (u =? 9) || (u =? 0x1a) || (u =? 10) || (u =? 13)
  || (u =? 34) || (u =? 39) || (u =? 92) || (u =? 37).

(** [input.replace(/[...]/g, '')]. *)
Definition sanitizeInput (input : jsstring) : jsstring :=
  filter (fun c => negb (isRemoved c)) input.

Definition validEncodings : list jsstring := [lit "hex"; lit "base64"; lit "binary"].

Definition validateEncoding (encoding : jsstring) : result unit :=
  throwIf (negb (existsb (jsstring_eqb encoding) validEncodings))
          (ValidationError "Invalid encoding. Must be one of: hex, base64, binary") ;;;
  Ok tt.

End ValidationRest.
Import ValidationRest.

(* ================================================================== *)
(** ** [src/utils/salt.ts], the other strategies *)
(* ================================================================== *)
Module SaltStrategies.

Inductive SaltStrategy : Type := strategy_random | strategy_crypto | strategy_secure.

(** [Partial<SaltOptions>] without its [length], which
    [generateSecureSalt] overwrites. *)
Record SaltOptions : Type := MkSaltOptions {
  strategy : option SaltStrategy;
  charset : option jsstring
}.

Inductive Pattern : Type := pattern_number | pattern_alpha | pattern_mixed | pattern_secure.

Definition ALPHA_CHARSET : jsstring :=
  lit "ABCDEFGHIJKLMNOPQRSTUVWXYZabcdefghijklmnopqrstuvwxyz".

Definition DEFAULT_CHARSET : jsstring := ALPHA_CHARSET ++ lit "0123456789+/".

Definition SECURE_CHARSET : jsstring :=
  ALPHA_CHARSET ++ lit "0123456789!@#$%^&*()_+-=[]{}|;:,.<>?".

(** [options.charset || SECURE_CHARSET]: an empty string is falsy. *)
Definition effectiveCharset (options : SaltOptions) : jsstring :=
  match charset options with
  | Some (c :: cs) => c :: cs
  | _ => SECURE_CHARSET
  end.

Section WithRandom.

(** Platform primitives.  [randomFloor k n] is [Math.floor(Math.random()
    * n)] at the [k]-th call of [Math.random]; [dateNow i] is the reading
    of [Date.now()] in iteration [i] of a loop, and [perfNow i] the value
    of [Math.floor((performance?.now() || Date.now()) * 1000)] there;
    [entropy] gives the bytes of [crypto.randomBytes]. *)
Variable randomFloor : nat -> Z -> Z.
Variable dateNow : nat -> Z.
Variable perfNow : nat -> Z.
Variable entropy : nat -> Byte.byte.

(** Past [validateKeyLength] the length is an integer, and the loop runs
    that many times. *)
Definition generateSalt (length : number) (charset : jsstring) : result jsstring :=
  validateKeyLength length ;;;
  Ok (flat_map
        (fun i => charAt charset (Some (randomFloor i (Z.of_nat (List.length charset)))))
        (seq 0 (Z.to_nat (integerValue length)))).

(** The index that iteration [i] of [generateSecureRandomSalt] reads. *)
Definition combinedEntropy (i : nat) (charset : jsstring) : option Z :=
  let n := Some (Z.of_nat (List.length charset)) in
  let timeEntropy := remainder (Some (dateNow i)) n in
  let randomEntropy := randomFloor i (Z.of_nat (List.length charset)) in
  let performanceEntropy := remainder (Some (perfNow i)) n in
  remainder
    (Some (bxor (bxor (nanTo0 timeEntropy) randomEntropy) (nanTo0 performanceEntropy)))
    n.

(** This function is not exported; [generateSecureSalt] calls it with a
    length that is an integer. *)
Definition generateSecureRandomSalt (length : Z) (charset : jsstring) : jsstring :=
  flat_map (fun i => charAt charset (combinedEntropy i charset)) (seq 0 (Z.to_nat length)).

(** The byte that iteration [i] of [generateEnhancedRandomSalt] pushes;
    it draws three random numbers. *)
Definition combinedByte (i : nat) : Z :=
  let r1 := randomFloor (3 * i) 256 in
  let r2 := randomFloor (3 * i + 1) 256 in
  let r3 := randomFloor (3 * i + 2) 256 in
  let timeComponent := Z.rem (dateNow i) 256 in
  Z.rem (bxor (bxor (bxor r1 r2) r3) timeComponent) 256.

(** Not exported either; the length is an integer. *)
Definition generateEnhancedRandomSalt (length : Z) : jsstring :=
  join [] (map (fun i => padStart (toString16s (combinedByte i)) 2 (fromCharCode 48))
               (seq 0 (Z.to_nat length))).

(** [generateCryptoSalt] where [require('crypto')] throws. *)
Definition generateCryptoSaltFallback (length : number) : result jsstring :=
  validateKeyLength length ;;;
  Ok (generateEnhancedRandomSalt (integerValue length)).

(** [generateSecureSalt(length, options)]. *)
Definition generateSecureSaltWith (length : number) (options : SaltOptions)
  : result jsstring :=
  validateKeyLength length ;;;
  let strategy := match strategy options with Some s => s | None => strategy_crypto end in
  let charset := effectiveCharset options in
  match strategy with
  | strategy_crypto => generateCryptoSalt entropy length
  | strategy_secure => Ok (generateSecureRandomSalt (integerValue length) charset)
  | strategy_random => generateSalt length charset
  end.

Definition patternCharset (pattern : Pattern) : jsstring :=
  match pattern with
  | pattern_number => lit "0123456789"
  | pattern_alpha => ALPHA_CHARSET
  | pattern_mixed => DEFAULT_CHARSET
  | pattern_secure => SECURE_CHARSET
  end.

Definition generatePatternSalt (pattern : Pattern) (length : number) : result jsstring :=
  validateKeyLength length ;;;
  generateSalt length (patternCharset pattern).

End WithRandom.

End SaltStrategies.
Import SaltStrategies.

(* ================================================================== *)
(** ** [src/core/password.ts], the other exports *)
(* ================================================================== *)
Module PasswordRest.

Section WithPlatform.

(** Platform primitives, as for [verifyPassword]; and [subtractFraction
    a b], the double [a - b] for an integer [a] and a fraction [b], which
    the rounding of the platform decides. *)
Variable entropy : nat -> Byte.byte.
Variable JSON_parse : jsstring -> option json.
Variable ToNumber_object : json -> number + error.
Variable subtractFraction : Z -> number -> number.

Definition simpleHashPassword (password : jsstring) : result jsstring :=
  salt <- generateSecureSalt entropy (Int 16) ;;
  let hash := sha256 (password ++ salt) in
  Ok (salt ++ [colon] ++ hash).

Definition simpleVerifyPassword (password storedHash : jsstring) : bool :=
  let parts := split colon storedHash in
  if negb (length parts =? 2)%nat then false
  else
    let salt := nth 0 parts [] in
    let hash := nth 1 parts [] in
    if ((length salt =? 0) || (length hash =? 0))%nat then false
    else
      let hashedInput := sha256 (password ++ salt) in
      timeSafeCompare hashedInput hash.

(** 365 * 24 * 60 * 60 * 1000. *)
Definition oneYear : Z := 365 * 24 * 60 * 60 * 1000.

(** [a - b] for an integer [a]. *)
Definition minus (a : Z) (b : number) : number :=
  match b with
  | Int z => Int (a - z)
  | Frac _ _ => subtractFraction a b
  | Infinity => NegInfinity
  | NegInfinity => Infinity
  | NaN => NaN
  end.

(** [now] is the reading of [Date.now()].  The four tests are joined by
    [||], which stops at the first that holds; [a < b] and [a - b]
    convert their operands to numbers, and a comparison with NaN is
    false. *)
Definition needsRehashing (now : Z) (storedHash : jsstring) (currentOptions : HashOptions)
  : result bool :=
  tryCatch
    (stored <- validateStoredHashFormat JSON_parse storedHash ;;
     let metadata := metadata stored in
     let currentIterations := num_or (iterations currentOptions) (Int 100000) in
     let currentAlgorithm := algorithmName (algorithmOf currentOptions) in
     let storedIterations := or_else (prop metadata (lit "iterations")) (JNum (Int 1)) in
     let storedAlgorithm := or_else (prop metadata (lit "algorithm")) (JStr (lit "sha256")) in
     n <- ToNumber ToNumber_object storedIterations ;;
     if less n currentIterations then Ok true
     else if negb (is_string storedAlgorithm currentAlgorithm) then Ok true
     else
       match prop metadata (lit "timestamp") with
       | None => Ok true
       | Some timestamp =>
           if negb (truthy timestamp) then Ok true
           else
             t <- ToNumber ToNumber_object timestamp ;;
             Ok (less (Int oneYear) (minus now t))
       end)
    (fun _ => Ok true).

End WithPlatform.

End PasswordRest.
Import PasswordRest.

(* ================================================================== *)
(** ** [src/types/index.ts] and [src/core/security.ts]: security levels *)
(* ================================================================== *)
Module Security.

Record SecurityLevel : Type := MkSecurityLevel {
  sl_iterations : Z;
  sl_saltLength : Z;
  sl_keyLength : Z;
  sl_algorithm : HashAlgorithm
}.

(** The keys of [SECURITY_LEVELS]. *)
Inductive LevelName : Type := level_low | level_medium | level_high | level_maximum.

Definition SECURITY_LEVELS (level : LevelName) : SecurityLevel :=
  match level with
  | level_low => MkSecurityLevel 10000 16 32 sha256_alg
  | level_medium => MkSecurityLevel 50000 24 48 sha256_alg
  | level_high => MkSecurityLevel 100000 32 64 sha512_alg
  | level_maximum => MkSecurityLevel 500000 64 128 pbkdf2_alg
  end.

(** On a key of the table the lookup succeeds and nothing is thrown. *)
Definition getSecurityLevel (level : LevelName) : SecurityLevel := SECURITY_LEVELS level.

Inductive UseCase : Type := useCase_web | useCase_mobile | useCase_enterprise | useCase_api.

Definition createSecurityProfile (useCase : UseCase) : SecurityLevel :=
  match useCase with
  | useCase_web => MkSecurityLevel 50000 24 48 sha256_alg
  | useCase_mobile => MkSecurityLevel 25000 20 40 sha256_alg
  | useCase_enterprise => MkSecurityLevel 200000 64 128 sha512_alg
  | useCase_api => MkSecurityLevel 100000 32 64 sha256_alg
  end.

(** A [SecurityLevel] passed where [Partial<HashOptions>] is expected. *)
Definition asHashOptions (l : SecurityLevel) : HashOptions :=
  MkHashOptions (Some (sl_algorithm l)) (Some (Int (sl_saltLength l)))
                (Some (Int (sl_iterations l))) (Some (Int (sl_keyLength l))) None None.

End Security.
Import Security.

(** A random source and two clocks on which the salt strategies are
    run. *)
Module RandomModel.

Definition randomFloor (k : nat) (n : Z) : Z := (7 * Z.of_nat k + 3) mod n.
Definition dateNow (i : nat) : Z := Example.now + Z.of_nat i.
Definition perfNow (i : nat) : Z := 1000 * (52 + Z.of_nat i).

End RandomModel.

(* ================================================================== *)
(** * Properties *)
(* ================================================================== *)

(** ** Code units and hexadecimal printing *)


Lemma byteZ_range b : 0 <= byteZ b < 256.
Proof.
  unfold byteZ. pose proof (Byte.to_N_bounded b). lia.
Qed.

Lemma byteZ_byteOfZ z : byteZ (byteOfZ z) = z mod 256.
Proof.
  unfold byteZ, byteOfZ.
  assert (Hr : 0 <= z mod 256 < 256) by (apply Z.mod_pos_bound; lia).
  destruct (Byte.of_N (Z.to_N (z mod 256))) eqn:E.
  - apply Byte.to_of_N in E. rewrite E. lia.
  - apply Byte.of_N_None_iff in E. lia.
Qed.

Lemma charCode_range c : 0 <= charCode c < 65536.
Proof.
  unfold charCode. pose proof (byteZ_range (fst c)). pose proof (byteZ_range (snd c)). lia.
Qed.

Lemma charCode_fromCharCode z : charCode (fromCharCode z) = z mod 65536.
Proof.
  unfold charCode, fromCharCode. cbn [fst snd].
  rewrite !byteZ_byteOfZ.
  assert (Hr : 0 <= z mod 65536 < 65536) by (apply Z.mod_pos_bound; lia).
  set (y := z mod 65536) in *.
  rewrite (Z.mod_small (y / 256)) by (split; [apply Z.div_pos; lia | apply Z.div_lt_upper_bound; lia]).
  pose proof (Z.div_mod y 256). lia.
Qed.

Lemma hexDigit_lower d : 0 <= d < 16 -> isLowerHexChar (hexDigit d) = true.
Proof.
  intros Hd. unfold isLowerHexChar, hexDigit.
  destruct (d <? 10) eqn:E; rewrite charCode_fromCharCode.
  - apply Z.ltb_lt in E. rewrite Z.mod_small by lia.
    apply orb_true_iff. left. apply andb_true_iff. split; apply Z.leb_le; lia.
  - apply Z.ltb_ge in E. rewrite Z.mod_small by lia.
    apply orb_true_iff. right. apply andb_true_iff. split; apply Z.leb_le; lia.
Qed.

Lemma toString16_aux_lower fuel : forall x,
  0 <= x -> forallb isLowerHexChar (toString16_aux fuel x) = true.
Proof.
  induction fuel as [|fuel IH]; intros x Hx; cbn [toString16_aux].
  - cbn. rewrite hexDigit_lower; [reflexivity | apply Z.mod_pos_bound; lia].
  - destruct (x <? 16) eqn:E.
    + apply Z.ltb_lt in E. cbn. rewrite hexDigit_lower by lia. reflexivity.
    + rewrite forallb_app, IH by (apply Z.div_pos; lia).
      cbn. rewrite hexDigit_lower; [reflexivity | apply Z.mod_pos_bound; lia].
Qed.

Lemma toString16_aux_length fuel : forall x k,
  0 <= x < 16 ^ Z.of_nat (S k) -> (length (toString16_aux fuel x) <= S k)%nat.
Proof.
  induction fuel as [|fuel IH]; intros x k Hx; cbn [toString16_aux].
  - cbn. lia.
  - destruct (x <? 16) eqn:E; [cbn; lia|].
    apply Z.ltb_ge in E.
    destruct k as [|k].
    + change (16 ^ Z.of_nat 1) with 16 in Hx. lia.
    + rewrite length_app. cbn [length].
      assert (H : (length (toString16_aux fuel (x / 16)) <= S k)%nat).
      { apply IH. split; [apply Z.div_pos; lia|].
        apply Z.div_lt_upper_bound; [lia|].
        replace (Z.of_nat (S (S k))) with (Z.succ (Z.of_nat (S k))) in Hx by lia.
        rewrite Z.pow_succ_r in Hx by lia. lia. }
      lia.
Qed.

Lemma padStart_length s n c : (length s <= n)%nat -> length (padStart s n c) = n.
Proof.
  intros H. unfold padStart. rewrite length_app, repeat_length. lia.
Qed.

Lemma hexWord_length x : 0 <= x < 2 ^ 32 -> length (hexWord x) = 8%nat.
Proof.
  intros Hx. apply padStart_length. unfold toString16.
  apply (toString16_aux_length _ x 7). exact Hx.
Qed.

Lemma hexWord_lower x : 0 <= x -> forallb isLowerHexChar (hexWord x) = true.
Proof.
  intros Hx. unfold hexWord, padStart. rewrite forallb_app.
  unfold toString16. rewrite toString16_aux_lower by exact Hx.
  rewrite andb_true_r. apply forallb_forall. intros c Hc.
  apply repeat_spec in Hc. subst c. reflexivity.
Qed.

Lemma join_nil_length (l : list jsstring) n :
  Forall (fun s => length s = n) l -> length (join [] l) = (length l * n)%nat.
Proof.
  induction 1 as [|s l Hs Hl IH]; [reflexivity|].
  destruct l as [|s' l'].
  - cbn. lia.
  - change (join [] (s :: s' :: l')) with (s ++ [] ++ join [] (s' :: l')).
    cbn [app]. rewrite length_app, IH, Hs. cbn [length]. lia.
Qed.

Lemma join_nil_forallb (P : char16 -> bool) (l : list jsstring) :
  Forall (fun s => forallb P s = true) l -> forallb P (join [] l) = true.
Proof.
  induction 1 as [|s l Hs Hl IH]; [reflexivity|].
  destruct l as [|s' l'].
  - exact Hs.
  - change (join [] (s :: s' :: l')) with (s ++ [] ++ join [] (s' :: l')).
    cbn [app]. rewrite forallb_app, Hs, IH. reflexivity.
Qed.

Lemma shr0_word32 x : word32 (shr x 0).
Proof.
  unfold word32, shr, ToUint32. change (0 mod 32) with 0. rewrite Z.shiftr_0_r.
  apply Z.mod_pos_bound. lia.
Qed.

Lemma processChunk_word32 h block :
  length h = 8%nat -> length (processChunk h block) = 8%nat /\ Forall word32 (processChunk h block).
Proof.
  intros Hlen.
  do 8 (destruct h as [|? h]; [discriminate Hlen|]).
  destruct h; [|discriminate Hlen].
  unfold processChunk.
  destruct (fold_left _ _ _) as [a b c d e f g h0].
  cbn [assign at0 nth]. split; [reflexivity|].
  repeat constructor; apply shr0_word32.
Qed.

Lemma processChunks_word32 fuel : forall msgWords h,
  length h = 8%nat -> Forall word32 h ->
  length (processChunks fuel msgWords h) = 8%nat /\ Forall word32 (processChunks fuel msgWords h).
Proof.
  induction fuel as [|fuel IH]; intros msgWords h Hlen Hw.
  - cbn. auto.
  - cbn [processChunks]. destruct msgWords as [|x rest]; [auto|].
    destruct (processChunk_word32 h (firstn 16 (x :: rest)) Hlen) as [H1 H2].
    apply IH; assumption.
Qed.

Lemma H0_word32 : Forall word32 H0.
Proof. unfold H0, word32. repeat constructor; lia. Qed.

Lemma hashWords_word32 message :
  length (hashWords message) = 8%nat /\ Forall word32 (hashWords message).
Proof.
  unfold hashWords. apply processChunks_word32; [reflexivity | apply H0_word32].
Qed.

Lemma sha256_length message : length (sha256 message) = 64%nat.
Proof.
  destruct (hashWords_word32 message) as [Hl Hw].
  unfold sha256. rewrite (join_nil_length _ 8).
  - rewrite length_map, Hl. reflexivity.
  - apply Forall_map. eapply Forall_impl; [|exact Hw].
    intros x Hx. apply hexWord_length. exact Hx.
Qed.

Lemma sha256_lower message : forallb isLowerHexChar (sha256 message) = true.
Proof.
  destruct (hashWords_word32 message) as [Hl Hw].
  unfold sha256. apply join_nil_forallb.
  apply Forall_map. eapply Forall_impl; [|exact Hw].
  intros x Hx. apply hexWord_lower. apply Hx.
Qed.

(** ** The comparison loop *)


Lemma ToInt32_int32 x : int32 (ToInt32 x).
Proof.
  unfold int32, ToInt32. pose proof (Z.mod_pos_bound (x + 2 ^ 31) (2 ^ 32)). lia.
Qed.

Lemma ToInt32_small x : int32 x -> ToInt32 x = x.
Proof.
  unfold int32, ToInt32. intros H. rewrite Z.mod_small; lia.
Qed.

Lemma int32_shiftr x : int32 x <-> Z.shiftr x 31 = 0 \/ Z.shiftr x 31 = -1.
Proof.
  unfold int32. rewrite Z.shiftr_div_pow2 by lia.
  change (2 ^ 31) with 2147483648. split; intros H; Z.div_mod_to_equations; lia.
Qed.

Lemma int32_lor x y : int32 x -> int32 y -> int32 (Z.lor x y).
Proof.
  rewrite !int32_shiftr, Z.shiftr_lor.
  intros [-> | ->] [-> | ->]; cbn; auto.
Qed.

Lemma int32_lxor x y : int32 x -> int32 y -> int32 (Z.lxor x y).
Proof.
  rewrite !int32_shiftr, Z.shiftr_lxor.
  intros [-> | ->] [-> | ->]; cbn; auto.
Qed.

Lemma isByte_int32 x : isByte x -> int32 x.
Proof. unfold isByte, int32. lia. Qed.

Lemma guarded_nth (l : list Z) i :
  (if (i <? length l)%nat then nth i l 0 else 0) = nth i l 0.
Proof.
  destruct (i <? length l)%nat eqn:E; [reflexivity|].
  apply Nat.ltb_ge in E. symmetry. apply nth_overflow. exact E.
Qed.

Lemma nth_isByte (l : list Z) i : Forall isByte l -> isByte (nth i l 0).
Proof.
  intros H. destruct (Nat.lt_ge_cases i (length l)) as [Hi | Hi].
  - rewrite Forall_forall in H. apply H. apply nth_In. exact Hi.
  - rewrite nth_overflow by exact Hi. unfold isByte. lia.
Qed.

Lemma compareLoop_zero aBytes bBytes :
  Forall isByte aBytes -> Forall isByte bBytes ->
  forall n i r, int32 r ->
    compareLoop n i aBytes bBytes r = 0 <->
    r = 0 /\ forall j, (j < n)%nat -> nth (i + j) aBytes 0 = nth (i + j) bBytes 0.
Proof.
  intros Ha Hb. induction n as [|n IH]; intros i r Hr; cbn [compareLoop].
  - split; [intros H; split; [exact H | intros j Hj; lia] | intros [H _]; exact H].
  - rewrite !guarded_nth.
    pose proof (isByte_int32 _ (nth_isByte aBytes i Ha)) as Hai.
    pose proof (isByte_int32 _ (nth_isByte bBytes i Hb)) as Hbi.
    unfold bxor, bor. rewrite (ToInt32_small _ Hai), (ToInt32_small _ Hbi), (ToInt32_small _ Hr).
    pose proof (int32_lxor _ _ Hai Hbi) as Hd.
    rewrite (ToInt32_small _ Hd).
    rewrite IH by (apply int32_lor; assumption).
    rewrite Z.lor_eq_0_iff, Z.lxor_eq_0_iff.
    split.
    + intros [[H0 Hi] Hrest]. split; [exact H0|].
      intros [|j] Hj.
      * rewrite Nat.add_0_r. exact Hi.
      * replace (i + S j)%nat with (S i + j)%nat by lia. apply Hrest. lia.
    + intros [H0 Hall]. split; [split; [exact H0|]|].
      * specialize (Hall 0%nat). rewrite Nat.add_0_r in Hall. apply Hall. lia.
      * intros j Hj. replace (S i + j)%nat with (i + S j)%nat by lia. apply Hall. lia.
Qed.

Lemma compareBytes_true_iff aBytes bBytes :
  Forall isByte aBytes -> Forall isByte bBytes ->
  compareBytes aBytes bBytes = true <->
  ToInt32 (Z.of_nat (length aBytes)) = ToInt32 (Z.of_nat (length bBytes)) /\
  forall j, (j < Nat.max (length aBytes) (length bBytes))%nat -> nth j aBytes 0 = nth j bBytes 0.
Proof.
  intros Ha Hb. unfold compareBytes. rewrite Z.eqb_eq.
  rewrite (compareLoop_zero _ _ Ha Hb).
  - unfold bxor. rewrite Z.lxor_eq_0_iff. reflexivity.
  - unfold bxor. apply int32_lxor; apply ToInt32_int32.
Qed.

Lemma ToInt32_inj_word x y :
  0 <= x < 2 ^ 32 -> 0 <= y < 2 ^ 32 -> ToInt32 x = ToInt32 y -> x = y.
Proof.
  unfold ToInt32. intros Hx Hy H.
  change (2 ^ 32) with 4294967296 in *. change (2 ^ 31) with 2147483648 in *.
  Z.div_mod_to_equations. lia.
Qed.

Lemma compareBytes_refl l : Forall isByte l -> compareBytes l l = true.
Proof.
  intros H. apply compareBytes_true_iff; auto.
Qed.

Lemma compareBytes_eq_small aBytes bBytes :
  Forall isByte aBytes -> Forall isByte bBytes ->
  Z.of_nat (length aBytes) < 2 ^ 32 -> Z.of_nat (length bBytes) < 2 ^ 32 ->
  compareBytes aBytes bBytes = true <-> aBytes = bBytes.
Proof.
  intros Ha Hb La Lb. split.
  - intros H. apply compareBytes_true_iff in H; [|assumption..].
    destruct H as [Hl Hn].
    apply ToInt32_inj_word in Hl; [|lia..].
    apply Nat2Z.inj in Hl.
    apply (nth_ext _ _ 0 0 Hl). intros n Hn'. apply Hn. lia.
  - intros ->. apply compareBytes_refl. exact Hb.
Qed.

(** Equality is also decided exactly when no byte is zero, whatever the
    lengths. *)
Lemma compareBytes_eq_nonzero aBytes bBytes :
  Forall isByte aBytes -> Forall isByte bBytes ->
  Forall (fun x => x <> 0) aBytes -> Forall (fun x => x <> 0) bBytes ->
  compareBytes aBytes bBytes = true <-> aBytes = bBytes.
Proof.
  intros Ha Hb Na Nb. split.
  - intros H. apply compareBytes_true_iff in H; [|assumption..].
    destruct H as [_ Hn].
    assert (Hl : length aBytes = length bBytes).
    { destruct (Nat.lt_trichotomy (length aBytes) (length bBytes)) as [Hlt | [Heq | Hgt]];
        [exfalso | exact Heq | exfalso].
      - specialize (Hn (length aBytes)).
        rewrite nth_overflow in Hn by lia.
        rewrite Forall_forall in Nb.
        apply (Nb (nth (length aBytes) bBytes 0)); [apply nth_In; lia|].
        symmetry. apply Hn. lia.
      - specialize (Hn (length bBytes)).
        rewrite (nth_overflow bBytes) in Hn by lia.
        rewrite Forall_forall in Na.
        apply (Na (nth (length bBytes) aBytes 0)); [apply nth_In; lia|].
        apply Hn. lia. }
    apply (nth_ext _ _ 0 0 Hl). intros n Hn'. apply Hn. lia.
  - intros ->. apply compareBytes_refl. exact Hb.
Qed.

Lemma fold_lor_zero (f : nat -> Z) (l : list nat) : forall r,
  fold_left (fun r i => Z.lor r (f i)) l r = 0 <-> r = 0 /\ forall i, In i l -> f i = 0.
Proof.
  induction l as [|x l IH]; intros r; cbn [fold_left].
  - split; [intros H; split; [exact H | intros i []] | intros [H _]; exact H].
  - rewrite IH, Z.lor_eq_0_iff. split.
    + intros [[H0 Hx] Hl]. split; [exact H0|]. intros i [<- | Hi]; auto.
    + intros [H0 Hall]. split; [split; [exact H0|]|]; intros; apply Hall; cbn; auto.
Qed.

Lemma compare_spec_true_iff aBytes bBytes :
  compare_spec aBytes bBytes = true <-> aBytes = bBytes.
Proof.
  unfold compare_spec. rewrite Z.eqb_eq, fold_lor_zero, Z.lxor_eq_0_iff. split.
  - intros [Hl Hn]. apply Nat2Z.inj in Hl.
    apply (nth_ext _ _ 0 0 Hl). intros n Hn'.
    apply Z.lxor_eq_0_iff. apply Hn. apply in_seq. lia.
  - intros ->. split; [reflexivity|]. intros i _. unfold byteAt. apply Z.lxor_nilpotent.
Qed.

(** ** The UTF-8 encoder *)


Lemma byteZ_inj b1 b2 : byteZ b1 = byteZ b2 -> b1 = b2.
Proof.
  unfold byteZ. intros H. apply N2Z.inj in H.
  pose proof (Byte.of_to_N b1) as H1. pose proof (Byte.of_to_N b2) as H2.
  rewrite H in H1. rewrite H1 in H2. congruence.
Qed.

Lemma charCode_inj c1 c2 : charCode c1 = charCode c2 -> c1 = c2.
Proof.
  destruct c1 as [h1 l1], c2 as [h2 l2]. unfold charCode. cbn [fst snd]. intros H.
  pose proof (byteZ_range h1). pose proof (byteZ_range l1).
  pose proof (byteZ_range h2). pose proof (byteZ_range l2).
  assert (byteZ h1 = byteZ h2) by lia. assert (byteZ l1 = byteZ l2) by lia.
  f_equal; apply byteZ_inj; assumption.
Qed.

Lemma map_charCode_inj (a b : jsstring) : map charCode a = map charCode b -> a = b.
Proof.
  revert b. induction a as [|x a IH]; intros [|y b] H; try discriminate; [reflexivity|].
  cbn in H. injection H as Hx Hab. f_equal; [apply charCode_inj; exact Hx | apply IH; exact Hab].
Qed.

Ltac range_cases :=
  repeat match goal with
  | H : (_ <? _) = true |- _ => apply Z.ltb_lt in H
  | H : (_ <? _) = false |- _ => apply Z.ltb_ge in H
  | H : (_ <=? _) = true |- _ => apply Z.leb_le in H
  | H : (_ <=? _) = false |- _ => apply Z.leb_gt in H
  | H : (_ && _) = true |- _ => apply andb_true_iff in H; destruct H
  | H : (_ && _) = false |- _ => apply andb_false_iff in H; destruct H
  end.

Lemma utf8_1_isByte u : 0 <= u < 0x80 -> Forall isByte (utf8_1 u).
Proof. intros H. unfold utf8_1, isByte. repeat constructor; lia. Qed.

Lemma utf8_2_isByte u : 0x80 <= u < 0x800 -> Forall isByte (utf8_2 u).
Proof.
  intros H. unfold utf8_2, isByte. repeat constructor; Z.div_mod_to_equations; lia.
Qed.

Lemma utf8_3_isByte u : 0x800 <= u < 0x10000 -> Forall isByte (utf8_3 u).
Proof.
  intros H. unfold utf8_3, isByte. repeat constructor; Z.div_mod_to_equations; lia.
Qed.

Lemma utf8_4_isByte cp : 0x10000 <= cp < 0x110000 -> Forall isByte (utf8_4 cp).
Proof.
  intros H. unfold utf8_4, isByte. repeat constructor; Z.div_mod_to_equations; lia.
Qed.

(** Induction over a string that may consume one or two code units. *)
Lemma jsstring_ind2 (P : jsstring -> Prop) :
  P [] ->
  (forall c, P [c]) ->
  (forall c1 c2 rest, P rest -> P (c2 :: rest) -> P (c1 :: c2 :: rest)) ->
  forall s, P s.
Proof.
  intros Hnil Hone Hstep s.
  assert (H : P s /\ forall c, P (c :: s)).
  { induction s as [|x s [IH1 IH2]].
    - split; [exact Hnil | exact Hone].
    - split; [apply IH2|]. intros c. apply Hstep; [exact IH1 | apply IH2]. }
  apply H.
Qed.

Lemma Buffer_from_utf8_isByte s : Forall isByte (Buffer_from_utf8 s).
Proof.
  induction s as [| c | c1 c2 rest IH1 IH2] using jsstring_ind2.
  - constructor.
  - cbn [Buffer_from_utf8]. pose proof (charCode_range c).
    repeat match goal with
    | |- context [if ?b then _ else _] => destruct b eqn:?
    end; range_cases; rewrite ?app_nil_r;
    first [ apply utf8_3_isByte; lia | apply utf8_2_isByte; lia | apply utf8_1_isByte; lia ].
  - pose proof (charCode_range c1). pose proof (charCode_range c2).
    change (Buffer_from_utf8 (c1 :: c2 :: rest)) with
      (let u := charCode c1 in
       if u <? 0x80 then utf8_1 u ++ Buffer_from_utf8 (c2 :: rest)
       else if u <? 0x800 then utf8_2 u ++ Buffer_from_utf8 (c2 :: rest)
       else if isHighSurrogate u then
         if isLowSurrogate (charCode c2) then
           utf8_4 (0x10000 + (u - 0xD800) * 1024 + (charCode c2 - 0xDC00))
           ++ Buffer_from_utf8 rest
         else utf8_3 0xFFFD ++ Buffer_from_utf8 (c2 :: rest)
       else if isLowSurrogate u then utf8_3 0xFFFD ++ Buffer_from_utf8 (c2 :: rest)
       else utf8_3 u ++ Buffer_from_utf8 (c2 :: rest)).
    cbv zeta. unfold isHighSurrogate, isLowSurrogate.
    repeat match goal with
    | |- context [if ?b then _ else _] => destruct b eqn:?
    end; range_cases; apply Forall_app; (split; [|assumption]);
    first [ apply utf8_4_isByte; lia | apply utf8_3_isByte; lia
          | apply utf8_2_isByte; lia | apply utf8_1_isByte; lia ].
Qed.

Lemma unitsOfBytes_app l1 l2 :
  unitsOfBytes (l1 ++ l2) = (unitsOfBytes l1 + unitsOfBytes l2)%nat.
Proof.
  unfold unitsOfBytes. induction l1 as [|x l1 IH]; [reflexivity|].
  cbn [app fold_right]. rewrite IH. lia.
Qed.

Lemma unitsOfByte_ascii b : b < 0x80 -> unitsOfByte b = 1%nat.
Proof. intros H. unfold unitsOfByte. destruct (b <? 0x80) eqn:E; [reflexivity|]. range_cases. lia. Qed.

Lemma unitsOfByte_cont b : 0x80 <= b < 0xC0 -> unitsOfByte b = 0%nat.
Proof.
  intros H. unfold unitsOfByte.
  destruct (b <? 0x80) eqn:E1; range_cases; [lia|].
  destruct (b <? 0xC0) eqn:E2; range_cases; [reflexivity | lia].
Qed.

Lemma unitsOfByte_lead b : 0xC0 <= b < 0xF0 -> unitsOfByte b = 1%nat.
Proof.
  intros H. unfold unitsOfByte.
  destruct (b <? 0x80) eqn:E1; range_cases; [lia|].
  destruct (b <? 0xC0) eqn:E2; range_cases; [lia|].
  destruct (b <? 0xF0) eqn:E3; range_cases; [reflexivity | lia].
Qed.

Lemma unitsOfByte_lead4 b : 0xF0 <= b -> unitsOfByte b = 2%nat.
Proof.
  intros H. unfold unitsOfByte.
  destruct (b <? 0x80) eqn:E1; range_cases; [lia|].
  destruct (b <? 0xC0) eqn:E2; range_cases; [lia|].
  destruct (b <? 0xF0) eqn:E3; range_cases; [lia | reflexivity].
Qed.

Ltac units_side := Z.div_mod_to_equations; lia.

Lemma units_utf8_1 u : 0 <= u < 0x80 -> unitsOfBytes (utf8_1 u) = 1%nat.
Proof.
  intros H. unfold utf8_1, unitsOfBytes. cbn [fold_right].
  rewrite unitsOfByte_ascii by lia. reflexivity.
Qed.

Lemma units_utf8_2 u : 0x80 <= u < 0x800 -> unitsOfBytes (utf8_2 u) = 1%nat.
Proof.
  intros H. unfold utf8_2, unitsOfBytes. cbn [fold_right].
  rewrite unitsOfByte_lead, unitsOfByte_cont by units_side. reflexivity.
Qed.

Lemma units_utf8_3 u : 0x800 <= u < 0x10000 -> unitsOfBytes (utf8_3 u) = 1%nat.
Proof.
  intros H. unfold utf8_3, unitsOfBytes. cbn [fold_right].
  rewrite unitsOfByte_lead by units_side.
  rewrite !unitsOfByte_cont by units_side. reflexivity.
Qed.

Lemma units_utf8_4 cp : 0x10000 <= cp < 0x110000 -> unitsOfBytes (utf8_4 cp) = 2%nat.
Proof.
  intros H. unfold utf8_4, unitsOfBytes. cbn [fold_right].
  rewrite unitsOfByte_lead4 by units_side.
  rewrite !unitsOfByte_cont by units_side. reflexivity.
Qed.

Lemma units_Buffer_from_utf8 s : unitsOfBytes (Buffer_from_utf8 s) = length s.
Proof.
  induction s as [| c | c1 c2 rest IH1 IH2] using jsstring_ind2.
  - reflexivity.
  - cbn [Buffer_from_utf8 length]. pose proof (charCode_range c).
    unfold isHighSurrogate, isLowSurrogate.
    repeat match goal with
    | |- context [if ?b then _ else _] => destruct b eqn:?
    end; range_cases; rewrite ?app_nil_r;
    first [ apply units_utf8_3; lia | apply units_utf8_2; lia | apply units_utf8_1; lia ].
  - pose proof (charCode_range c1). pose proof (charCode_range c2).
    change (Buffer_from_utf8 (c1 :: c2 :: rest)) with
      (let u := charCode c1 in
       if u <? 0x80 then utf8_1 u ++ Buffer_from_utf8 (c2 :: rest)
       else if u <? 0x800 then utf8_2 u ++ Buffer_from_utf8 (c2 :: rest)
       else if isHighSurrogate u then
         if isLowSurrogate (charCode c2) then
           utf8_4 (0x10000 + (u - 0xD800) * 1024 + (charCode c2 - 0xDC00))
           ++ Buffer_from_utf8 rest
         else utf8_3 0xFFFD ++ Buffer_from_utf8 (c2 :: rest)
       else if isLowSurrogate u then utf8_3 0xFFFD ++ Buffer_from_utf8 (c2 :: rest)
       else utf8_3 u ++ Buffer_from_utf8 (c2 :: rest)).
    cbv zeta. unfold isHighSurrogate, isLowSurrogate.
    change (length (c1 :: c2 :: rest)) with (S (S (length rest))).
    cbn [length] in IH2.
    repeat match goal with
    | |- context [if ?b then _ else _] => destruct b eqn:?
    end; range_cases; rewrite unitsOfBytes_app, ?IH1, ?IH2;
    first [ rewrite units_utf8_1 by lia | rewrite units_utf8_2 by lia
          | rewrite units_utf8_3 by lia | rewrite units_utf8_4 by lia ]; lia.
Qed.

Lemma Buffer_from_utf8_samples :
  Buffer_from_utf8 (lit "a:1") = [0x61; 0x3A; 0x31]
  /\ Buffer_from_utf8 [fromCharCode 0xE9] = [0xC3; 0xA9]
  /\ Buffer_from_utf8 [fromCharCode 0x20AC] = [0xE2; 0x82; 0xAC]
  /\ Buffer_from_utf8 [fromCharCode 0xD83D; fromCharCode 0xDE00] = [0xF0; 0x9F; 0x98; 0x80]
  /\ Buffer_from_utf8 [fromCharCode 0xD83D] = [0xEF; 0xBF; 0xBD]
  /\ Buffer_from_utf8 [fromCharCode 0xDE00; fromCharCode 0x41] = [0xEF; 0xBF; 0xBD; 0x41].
Proof. repeat split; vm_compute; reflexivity. Qed.

(** Equal encodings come from strings of the same length, unpaired
    surrogates included. *)
Lemma utf8_eq_length a b :
  Buffer_from_utf8 a = Buffer_from_utf8 b -> length a = length b.
Proof.
  intros H. rewrite <- (units_Buffer_from_utf8 a), <- (units_Buffer_from_utf8 b), H. reflexivity.
Qed.

Lemma utf8_ascii s : forallb isAscii s = true -> Buffer_from_utf8 s = map charCode s.
Proof.
  induction s as [|c s IH]; [reflexivity|].
  cbn [forallb]. intros H. apply andb_true_iff in H. destruct H as [Hc Hs].
  cbn [Buffer_from_utf8 map]. unfold isAscii in Hc. rewrite Hc.
  cbn [utf8_1 app]. rewrite IH by exact Hs. reflexivity.
Qed.

(** ** Splitting, joining and hexadecimal strings *)


Lemma split_nonempty sep s : split sep s <> [].
Proof.
  destruct s as [|c s]; cbn [split]; [discriminate|].
  destruct (char16_eqb c sep); [discriminate|].
  destruct (split sep s); discriminate.
Qed.

Lemma split_app_sep s : forall rest,
  noColon s -> split colon (s ++ colon :: rest) = s :: split colon rest.
Proof.
  induction s as [|c s IH]; intros rest H.
  - cbn [app split]. unfold char16_eqb at 1. rewrite Z.eqb_refl. reflexivity.
  - unfold noColon in H. cbn [forallb] in H. apply andb_true_iff in H. destruct H as [Hc Hs].
    cbn [app split]. apply negb_true_iff in Hc. rewrite Hc.
    rewrite IH by exact Hs. reflexivity.
Qed.

Lemma split_noColon s : noColon s -> split colon s = [s].
Proof.
  induction s as [|c s IH]; intros H; [reflexivity|].
  unfold noColon in H. cbn [forallb] in H. apply andb_true_iff in H. destruct H as [Hc Hs].
  cbn [split]. apply negb_true_iff in Hc. rewrite Hc. rewrite IH by exact Hs. reflexivity.
Qed.

Lemma char16_eqb_eq a b : char16_eqb a b = true -> a = b.
Proof. unfold char16_eqb. intros H. apply Z.eqb_eq in H. apply charCode_inj. exact H. Qed.

Lemma join_split s : join [colon] (split colon s) = s.
Proof.
  induction s as [|c s IH]; [reflexivity|].
  cbn [split]. destruct (char16_eqb c colon) eqn:E.
  - apply char16_eqb_eq in E. subst c.
    pose proof (split_nonempty colon s) as Hne.
    destruct (split colon s) as [|p ps] eqn:Es; [contradiction|].
    change (join [colon] ([] :: p :: ps)) with ([] ++ [colon] ++ join [colon] (p :: ps)).
    rewrite IH. reflexivity.
  - pose proof (split_nonempty colon s) as Hne.
    destruct (split colon s) as [|p ps] eqn:Es; [contradiction|].
    destruct ps as [|q qs].
    + cbn [join] in *. rewrite IH. reflexivity.
    + change (join [colon] ((c :: p) :: q :: qs)) with (c :: (p ++ [colon] ++ join [colon] (q :: qs))).
      change (join [colon] (p :: q :: qs)) with (p ++ [colon] ++ join [colon] (q :: qs)) in IH.
      rewrite IH. reflexivity.
Qed.

Lemma lowerHex_props c :
  isLowerHexChar c = true ->
  isHexChar c = true /\ isAscii c = true /\ charCode c <> 0 /\ char16_eqb c colon = false.
Proof.
  unfold isLowerHexChar, isHexChar, isAscii, char16_eqb.
  change (charCode colon) with 58.
  intros H. apply orb_true_iff in H.
  destruct H as [H | H]; apply andb_true_iff in H; destruct H as [H1 H2];
    apply Z.leb_le in H1; apply Z.leb_le in H2.
  - repeat split.
    + apply orb_true_iff. right. apply andb_true_iff. split; apply Z.leb_le; lia.
    + apply Z.ltb_lt. lia.
    + lia.
    + apply Z.eqb_neq. lia.
  - repeat split.
    + apply orb_true_iff. left. apply orb_true_iff. left.
      apply andb_true_iff. split; apply Z.leb_le; lia.
    + apply Z.ltb_lt. lia.
    + lia.
    + apply Z.eqb_neq. lia.
Qed.

Lemma hexChar_props c :
  isHexChar c = true -> isAscii c = true /\ charCode c <> 0 /\ char16_eqb c colon = false.
Proof.
  unfold isHexChar, isAscii, char16_eqb. change (charCode colon) with 58.
  intros H. repeat (apply orb_true_iff in H; destruct H as [H | H]);
    apply andb_true_iff in H; destruct H as [H1 H2];
    apply Z.leb_le in H1; apply Z.leb_le in H2;
    (repeat split; [apply Z.ltb_lt; lia | lia | apply Z.eqb_neq; lia]).
Qed.

Lemma forallb_impl {A} (P Q : A -> bool) l :
  (forall x, P x = true -> Q x = true) -> forallb P l = true -> forallb Q l = true.
Proof.
  intros H. rewrite !forallb_forall. intros HP x Hx. apply H, HP, Hx.
Qed.

Lemma lowerHex_noColon s : forallb isLowerHexChar s = true -> noColon s.
Proof.
  apply forallb_impl. intros c Hc. apply lowerHex_props in Hc.
  destruct Hc as (_ & _ & _ & ->). reflexivity.
Qed.

Lemma lowerHex_isHex s : forallb isLowerHexChar s = true -> forallb isHexChar s = true.
Proof. apply forallb_impl. intros c Hc. apply lowerHex_props in Hc. apply Hc. Qed.

Lemma hex_noColon s : forallb isHexChar s = true -> noColon s.
Proof.
  apply forallb_impl. intros c Hc. apply hexChar_props in Hc.
  destruct Hc as (_ & _ & ->). reflexivity.
Qed.

Lemma hex_isAscii s : forallb isHexChar s = true -> forallb isAscii s = true.
Proof. apply forallb_impl. intros c Hc. apply hexChar_props in Hc. apply Hc. Qed.

Lemma hex_bytes s :
  forallb isHexChar s = true ->
  Forall isByte (map charCode s) /\ Forall (fun x => x <> 0) (map charCode s).
Proof.
  intros H. rewrite forallb_forall in H. split; apply Forall_map, Forall_forall; intros c Hc.
  - destruct (hexChar_props c (H c Hc)) as (Ha & _ & _).
    unfold isAscii in Ha. apply Z.ltb_lt in Ha. pose proof (charCode_range c). unfold isByte. lia.
  - apply (hexChar_props c (H c Hc)).
Qed.

(** On hexadecimal strings the comparator decides equality of the strings,
    whatever their lengths. *)
Lemma timeSafeCompare_hex a b :
  forallb isHexChar a = true -> forallb isHexChar b = true ->
  timeSafeCompare a b = true <-> a = b.
Proof.
  intros Ha Hb.
  change (timeSafeCompare a b) with (compareBytes (Buffer_from_utf8 a) (Buffer_from_utf8 b)).
  rewrite !utf8_ascii by (apply hex_isAscii; assumption).
  destruct (hex_bytes a Ha) as [Ha1 Ha2]. destruct (hex_bytes b Hb) as [Hb1 Hb2].
  rewrite compareBytes_eq_nonzero by assumption.
  split; [apply map_charCode_inj | intros ->; reflexivity].
Qed.

Lemma timeSafeCompare_refl a : timeSafeCompare a a = true.
Proof.
  change (timeSafeCompare a a) with (compareBytes (Buffer_from_utf8 a) (Buffer_from_utf8 a)).
  apply compareBytes_refl, Buffer_from_utf8_isByte.
Qed.

(** The salt text: two lower-case hexadecimal characters per random
    byte. *)
Lemma toHex_props entropy n :
  length (toHex (randomBytes entropy n)) = (2 * Z.to_nat n)%nat /\
  forallb isLowerHexChar (toHex (randomBytes entropy n)) = true.
Proof.
  unfold toHex, randomBytes. split.
  - rewrite (join_nil_length _ 2).
    + rewrite !length_map, length_seq. lia.
    + apply Forall_map, Forall_map, Forall_forall. intros i _.
      apply padStart_length. unfold toString16.
      apply (toString16_aux_length _ _ 1). pose proof (byteZ_range (entropy i)).
      change (16 ^ Z.of_nat 2) with 256. lia.
  - apply join_nil_forallb. apply Forall_map, Forall_map, Forall_forall. intros i _.
    unfold padStart. rewrite forallb_app. unfold toString16.
    rewrite toString16_aux_lower by apply byteZ_range.
    rewrite andb_true_r. apply forallb_forall. intros c Hc.
    apply repeat_spec in Hc. subst c. reflexivity.
Qed.

(** ** Decoding a stored credential *)


Section Decode.

Variable JSON_parse : jsstring -> option json.

Lemma validateSalt_ok salt :
  8 <= Z.of_nat (length salt) <= 128 -> validateSalt salt 8 128 = Ok tt.
Proof.
  intros H. unfold validateSalt.
  replace (Z.of_nat (length salt) <? 8) with false by (symmetry; apply Z.ltb_ge; lia).
  replace (128 <? Z.of_nat (length salt)) with false by (symmetry; apply Z.ltb_ge; lia).
  reflexivity.
Qed.

Lemma validateSalt_long salt :
  128 < Z.of_nat (length salt) ->
  validateSalt salt 8 128 = Throw (ValidationError "Salt must be at most 128 characters long").
Proof.
  intros H. unfold validateSalt.
  replace (Z.of_nat (length salt) <? 8) with false by (symmetry; apply Z.ltb_ge; lia).
  replace (128 <? Z.of_nat (length salt)) with true by (symmetry; apply Z.ltb_lt; lia).
  reflexivity.
Qed.

Lemma validateHash_ok hash : hexRegexTest hash = true -> validateHash hash = Ok tt.
Proof.
  intros H. unfold validateHash. rewrite H.
  unfold hexRegexTest in H. apply andb_true_iff in H. destruct H as [H _].
  apply negb_true_iff in H. rewrite H. reflexivity.
Qed.

Lemma validateHash_throw hash :
  hexRegexTest hash = false -> exists e, validateHash hash = Throw e.
Proof.
  intros H. unfold validateHash. rewrite H.
  destruct (length hash =? 0)%nat; cbn; eauto.
Qed.

Lemma length_eqb_0 {A} (l : list A) : (length l =? 0)%nat = false <-> l <> [].
Proof.
  destruct l; cbn; split; intros H; congruence.
Qed.

Lemma hexRegexTest_nonempty hash : hexRegexTest hash = true -> (length hash =? 0)%nat = false.
Proof.
  unfold hexRegexTest. intros H. apply andb_true_iff in H. destruct H as [H _].
  apply negb_true_iff in H. exact H.
Qed.

(** Decoding [salt:hash:rest] and [salt:hash]. *)
Lemma decode_three salt hash rest :
  noColon salt -> 8 <= Z.of_nat (length salt) <= 128 ->
  noColon hash -> hexRegexTest hash = true ->
  validateStoredHashFormat JSON_parse (salt ++ [colon] ++ hash ++ [colon] ++ rest)
  = Ok (MkStoredHash salt hash (JSON_parse rest)).
Proof.
  intros Hs Hl Hh Hx. unfold validateStoredHashFormat.
  cbn [app]. rewrite (split_app_sep salt) by exact Hs.
  rewrite (split_app_sep hash) by exact Hh.
  pose proof (split_nonempty colon rest) as Hne.
  pose proof (join_split rest) as Hj.
  destruct (split colon rest) as [|p ps]; [contradiction|].
  cbn [length nth skipn Nat.ltb Nat.leb throwIf bind].
  replace (length salt =? 0)%nat with false
    by (symmetry; apply Nat.eqb_neq; lia).
  rewrite (hexRegexTest_nonempty hash Hx). cbn [orb throwIf bind].
  rewrite (validateSalt_ok salt Hl), (validateHash_ok hash Hx). cbn [bind].
  rewrite Hj. reflexivity.
Qed.

Lemma decode_two salt hash :
  noColon salt -> 8 <= Z.of_nat (length salt) <= 128 ->
  noColon hash -> hexRegexTest hash = true ->
  validateStoredHashFormat JSON_parse (salt ++ [colon] ++ hash)
  = Ok (MkStoredHash salt hash None).
Proof.
  intros Hs Hl Hh Hx. unfold validateStoredHashFormat.
  cbn [app]. rewrite (split_app_sep salt) by exact Hs.
  rewrite (split_noColon hash) by exact Hh.
  cbn [length nth skipn Nat.ltb Nat.leb throwIf bind].
  replace (length salt =? 0)%nat with false
    by (symmetry; apply Nat.eqb_neq; lia).
  rewrite (hexRegexTest_nonempty hash Hx). cbn [orb throwIf bind].
  rewrite (validateSalt_ok salt Hl), (validateHash_ok hash Hx). reflexivity.
Qed.

Lemma validateSalt_cases salt a b :
  validateSalt salt a b = Ok tt \/ exists e, validateSalt salt a b = Throw e.
Proof.
  unfold validateSalt.
  destruct (Z.of_nat (length salt) <? a); cbn [throwIf bind]; [eauto|].
  destruct (b <? Z.of_nat (length salt)); cbn [throwIf bind]; eauto.
Qed.

Lemma validateHash_cases hash :
  validateHash hash = Ok tt \/ exists e, validateHash hash = Throw e.
Proof.
  unfold validateHash.
  destruct (length hash =? 0)%nat; cbn [throwIf bind]; [eauto|].
  destruct (negb (hexRegexTest hash)); cbn [throwIf bind]; eauto.
Qed.

(** Decoding returns or throws: it has no loop that could go on. *)
Lemma validateStoredHashFormat_cases s :
  (exists d, validateStoredHashFormat JSON_parse s = Ok d)
  \/ exists e, validateStoredHashFormat JSON_parse s = Throw e.
Proof.
  unfold validateStoredHashFormat.
  destruct (length (split colon s) <? 2)%nat; cbn [throwIf bind]; [eauto|].
  destruct (_ || _)%bool; cbn [throwIf bind]; [eauto|].
  destruct (validateSalt_cases (nth 0 (split colon s) []) 8 128) as [H | [e H]];
    rewrite H; cbn [bind]; [|eauto].
  destruct (validateHash_cases (nth 1 (split colon s) [])) as [H' | [e H']];
    rewrite H'; cbn [bind]; eauto.
Qed.

Lemma decode_two_bad_hash salt hash :
  noColon salt -> noColon hash -> hexRegexTest hash = false ->
  exists e, validateStoredHashFormat JSON_parse (salt ++ [colon] ++ hash) = Throw e.
Proof.
  intros Hs Hh Hx. unfold validateStoredHashFormat.
  cbn [app]. rewrite (split_app_sep salt) by exact Hs.
  rewrite (split_noColon hash) by exact Hh.
  cbn [length nth skipn Nat.ltb Nat.leb throwIf bind].
  destruct ((length salt =? 0)%nat || (length hash =? 0)%nat); cbn [throwIf bind]; [eauto|].
  destruct (validateSalt_cases salt 8 128) as [H | [e H]]; rewrite H; cbn [bind]; [|eauto].
  destruct (validateHash_throw hash Hx) as [e ->]. cbn [bind]. eauto.
Qed.

Lemma decode_long_salt salt rest :
  noColon salt -> 128 < Z.of_nat (length salt) ->
  exists e, validateStoredHashFormat JSON_parse (salt ++ colon :: rest) = Throw e.
Proof.
  intros Hs Hl. unfold validateStoredHashFormat.
  rewrite (split_app_sep salt) by exact Hs.
  pose proof (split_nonempty colon rest) as Hne.
  destruct (split colon rest) as [|p ps]; [contradiction|].
  cbn [length nth skipn Nat.ltb Nat.leb throwIf bind].
  destruct ((length salt =? 0)%nat || (length p =? 0)%nat); cbn [throwIf bind]; [eauto|].
  rewrite (validateSalt_long salt Hl). cbn [bind]. eauto.
Qed.

End Decode.

(** ** Numbers *)

Lemma less_Int a b : less (Int a) (Int b) = (a <? b).
Proof.
  unfold less, dyadic. cbn [fst snd]. rewrite Z.pow_0_r, !Z.mul_1_r. reflexivity.
Qed.

Lemma integerIn_Int lo hi n :
  integerIn lo hi n <-> exists z, n = Int z /\ lo <= z <= hi.
Proof.
  split.
  - destruct n as [z| | | |]; cbn [integerIn]; intros H; try contradiction. eauto.
  - intros [z [-> H]]. exact H.
Qed.

Lemma integerIn_weaken lo hi lo' hi' n :
  lo' <= lo -> hi <= hi' -> integerIn lo hi n -> integerIn lo' hi' n.
Proof.
  destruct n as [z| | | |]; cbn [integerIn]; intros; try contradiction. lia.
Qed.

Lemma integerIn_value lo hi n : integerIn lo hi n -> n = Int (integerValue n).
Proof. destruct n; cbn [integerIn]; intros H; try contradiction. reflexivity. Qed.

(** Between two integers, a fraction [(2h+1)/2^k] is below its ceiling
    and not below the integer before it. *)
Lemma frac_bounds h k :
  let c := (2 * h + 1) / 2 ^ Z.pos k + 1 in
  (c - 1) * 2 ^ Z.pos k < 2 * h + 1 < c * 2 ^ Z.pos k.
Proof.
  cbv zeta.
  assert (Hp : 0 < 2 ^ Z.pos k) by (apply Z.pow_pos_nonneg; lia).
  assert (Hk : 2 ^ Z.pos k = 2 * 2 ^ (Z.pos k - 1)).
  { rewrite <- Z.pow_succ_r by lia. f_equal. lia. }
  pose proof (Z.div_mod (2 * h + 1) (2 ^ Z.pos k) ltac:(lia)) as Hd.
  pose proof (Z.mod_pos_bound (2 * h + 1) (2 ^ Z.pos k) Hp) as Hm.
  assert (Hnz : (2 * h + 1) mod 2 ^ Z.pos k <> 0).
  { intros Hz. rewrite Hz, Z.add_0_r in Hd. rewrite Hk in Hd at 1. lia. }
  nia.
Qed.

(** [i < bound] for an integer counter is [i < ceiling bound] when the
    bound is finite. *)
Lemma less_ceiling i bound :
  bound <> Infinity -> bound <> NegInfinity -> bound <> NaN ->
  less (Int i) bound = (i <? ceiling bound).
Proof.
  destruct bound as [z|h k| | |]; intros H1 H2 H3; try congruence.
  - apply less_Int.
  - unfold less, dyadic, ceiling. cbn [fst snd].
    rewrite Z.pow_0_r, Z.mul_1_r.
    pose proof (frac_bounds h k) as Hb. cbv zeta in Hb.
    assert (Hp : 0 < 2 ^ Z.pos k) by (apply Z.pow_pos_nonneg; lia).
    destruct (i <? (2 * h + 1) / 2 ^ Z.pos k + 1) eqn:E.
    + apply Z.ltb_lt in E. apply Z.ltb_lt. nia.
    + apply Z.ltb_ge in E. apply Z.ltb_ge. nia.
Qed.

(** ** Hashing, then verifying *)


Lemma validateKeyLength_ok n : validateKeyLength n = Ok tt <-> integerIn 8 512 n.
Proof.
  unfold validateKeyLength.
  destruct n as [z| | | |]; cbn [isInteger negb throwIf bind integerIn];
    try (split; [discriminate | contradiction]).
  rewrite !less_Int.
  destruct (z <? 8) eqn:E1; cbn [throwIf bind].
  - apply Z.ltb_lt in E1. split; [discriminate | lia].
  - apply Z.ltb_ge in E1. destruct (512 <? z) eqn:E2; cbn [throwIf bind].
    + apply Z.ltb_lt in E2. split; [discriminate | lia].
    + apply Z.ltb_ge in E2. split; [lia | reflexivity].
Qed.

Lemma validateKeyLength_cases n :
  validateKeyLength n = Ok tt \/ exists e, validateKeyLength n = Throw e.
Proof.
  unfold validateKeyLength.
  destruct (negb (isInteger n)); cbn [throwIf bind]; [eauto|].
  destruct (less n (Int 8)); cbn [throwIf bind]; [eauto|].
  destruct (less (Int 512) n); cbn [throwIf bind]; eauto.
Qed.

Lemma generateSecureSalt_ok entropy n :
  integerIn 8 512 n ->
  generateSecureSalt entropy n = Ok (toHex (randomBytes entropy (integerValue n))).
Proof.
  intros H. unfold generateSecureSalt, generateCryptoSalt.
  apply validateKeyLength_ok in H. rewrite H. reflexivity.
Qed.

Lemma generateSecureSalt_throws entropy n :
  ~ integerIn 8 512 n -> exists e, generateSecureSalt entropy n = Throw e.
Proof.
  intros H. unfold generateSecureSalt.
  destruct (validateKeyLength_cases n) as [E | [e E]]; rewrite E; cbn [bind]; [|eauto].
  apply validateKeyLength_ok in E. contradiction.
Qed.

Lemma generateSecureSalt_inv entropy n salt :
  generateSecureSalt entropy n = Ok salt ->
  integerIn 8 512 n /\ salt = toHex (randomBytes entropy (integerValue n)).
Proof.
  unfold generateSecureSalt, generateCryptoSalt.
  destruct (validateKeyLength_cases n) as [H | [e H]]; rewrite H; cbn [bind]; [|discriminate].
  intros E. injection E as <-. apply validateKeyLength_ok in H. auto.
Qed.

Lemma validatePassword_cases p :
  validatePassword p = Ok tt \/ exists e, validatePassword p = Throw e.
Proof.
  unfold validatePassword.
  destruct (length p =? 0)%nat; cbn [throwIf bind]; [eauto|].
  destruct (1024 <? length p)%nat; cbn [throwIf bind]; [eauto|].
  destruct (existsb _ p); cbn [throwIf bind]; eauto.
Qed.

Lemma hashLoop_digest fuel : forall i n m, exists m', hashLoop fuel i n (sha256 m) = sha256 m'.
Proof.
  induction fuel as [|fuel IH]; intros i n m; cbn [hashLoop]; [eauto|].
  destruct (i <? n); [apply IH | eauto].
Qed.

Lemma iterate_digest n m : exists m', iterate n (sha256 m) = sha256 m'.
Proof. apply hashLoop_digest. Qed.

Lemma sha256_hexRegexTest m : hexRegexTest (sha256 m) = true.
Proof.
  unfold hexRegexTest. apply andb_true_iff. split.
  - rewrite sha256_length. reflexivity.
  - apply lowerHex_isHex, sha256_lower.
Qed.

(** ** The loop on a counter that is a double *)

Lemma hashLoop_iter fuel : forall i n x,
  (Z.to_nat (n - i) <= fuel)%nat ->
  hashLoop fuel i n x = Nat.iter (Z.to_nat (n - i)) sha256 x.
Proof.
  induction fuel as [|fuel IH]; intros i n x Hf.
  - cbn [hashLoop]. replace (Z.to_nat (n - i)) with 0%nat by lia. reflexivity.
  - cbn [hashLoop]. destruct (i <? n) eqn:E.
    + apply Z.ltb_lt in E. rewrite IH by lia.
      replace (Z.to_nat (n - i)) with (S (Z.to_nat (n - (i + 1)))) by lia.
      rewrite Nat.iter_succ_r. reflexivity.
    + apply Z.ltb_ge in E. replace (Z.to_nat (n - i)) with 0%nat by lia. reflexivity.
Qed.

Lemma iterate_rounds n h : iterate n h = Nat.iter (Z.to_nat (n - 1)) sha256 h.
Proof. unfold iterate. apply hashLoop_iter. lia. Qed.

(** The loop of the source, for a bound its counter can reach: once the
    fuel exceeds the number of rounds, it has ended with as many digests
    as the exact counter makes. *)
Lemma hashLoopDouble_ends bound fuel : forall i h,
  bound <> Infinity -> bound <> NegInfinity -> bound <> NaN ->
  ceiling bound <= 2 ^ 53 ->
  (Z.to_nat (ceiling bound - i) < fuel)%nat ->
  hashLoopDouble fuel i bound h = Some (Nat.iter (Z.to_nat (ceiling bound - i)) sha256 h).
Proof.
  induction fuel as [|fuel IH]; intros i h H1 H2 H3 Hc Hf; [lia|].
  cbn [hashLoopDouble]. rewrite (less_ceiling i bound H1 H2 H3).
  destruct (i <? ceiling bound) eqn:E.
  - apply Z.ltb_lt in E. unfold increment.
    replace (i <? 2 ^ 53) with true by (symmetry; apply Z.ltb_lt; lia).
    rewrite IH by (auto; lia).
    replace (Z.to_nat (ceiling bound - i)) with (S (Z.to_nat (ceiling bound - (i + 1)))) by lia.
    rewrite Nat.iter_succ_r. reflexivity.
  - apply Z.ltb_ge in E. replace (Z.to_nat (ceiling bound - i)) with O by lia. reflexivity.
Qed.

(** Below a bound that is past 2^53, the counter never reaches it. *)
Lemma hashLoopDouble_goes_on bound fuel : forall i h,
  i <= 2 ^ 53 -> less (Int (2 ^ 53)) bound = true ->
  (forall j, j <= 2 ^ 53 -> less (Int j) bound = true) ->
  hashLoopDouble fuel i bound h = None.
Proof.
  induction fuel as [|fuel IH]; intros i h Hi Hb Hall; [reflexivity|].
  cbn [hashLoopDouble]. rewrite (Hall i Hi). apply IH; auto.
  unfold increment. destruct (i <? 2 ^ 53) eqn:E; [apply Z.ltb_lt in E; lia | exact Hi].
Qed.

Lemma less_below_unbounded bound :
  loopEnds bound = false -> forall j, j <= 2 ^ 53 -> less (Int j) bound = true.
Proof.
  intros H j Hj. destruct bound as [z|h k| | |]; cbn [loopEnds] in H; try discriminate.
  - apply Z.leb_gt in H. cbn [ceiling] in H. rewrite less_Int. apply Z.ltb_lt. lia.
  - apply Z.leb_gt in H. rewrite less_ceiling by discriminate. apply Z.ltb_lt. lia.
  - reflexivity.
Qed.

(** [hashIterations] is the loop of the source: it gives a digest exactly
    when the loop, given enough steps, ends with that digest, and gives
    nothing exactly when no number of steps ends the loop. *)
Lemma hashIterations_returns bound h r :
  hashIterations bound h = Ok r <-> exists fuel, hashLoopDouble fuel 1 bound h = Some r.
Proof.
  unfold hashIterations. destruct (loopEnds bound) eqn:E.
  - assert (Hrun : exists fuel, hashLoopDouble fuel 1 bound h
                                = Some (iterate (ceiling bound) h)).
    { rewrite iterate_rounds.
      destruct bound as [z|hh k| | |]; cbn [loopEnds] in E; try discriminate.
      - apply Z.leb_le in E. exists (S (Z.to_nat (ceiling (Int z) - 1))).
        apply hashLoopDouble_ends; try discriminate; [exact E | lia].
      - apply Z.leb_le in E. exists (S (Z.to_nat (ceiling (Frac hh k) - 1))).
        apply hashLoopDouble_ends; try discriminate; [exact E | lia].
      - exists 1%nat. reflexivity.
      - exists 1%nat. reflexivity. }
    split.
    + intros H. injection H as <-. exact Hrun.
    + intros [fuel Hf]. destruct Hrun as [fuel' Hf']. f_equal.
      assert (Hmono : forall f1 f2 i x y,
                 hashLoopDouble f1 i bound x = Some y ->
                 forall z, hashLoopDouble f2 i bound x = Some z -> y = z).
      { induction f1 as [|f1 IH]; intros f2 i x y Hy z Hz; [discriminate|].
        destruct f2 as [|f2]; [discriminate|].
        cbn [hashLoopDouble] in Hy, Hz.
        destruct (less (Int i) bound); [eapply IH; eassumption | congruence]. }
      symmetry. eapply Hmono; eassumption.
  - split; [discriminate|].
    intros [fuel Hf].
    rewrite (hashLoopDouble_goes_on bound fuel 1 h) in Hf;
      [discriminate | lia | | ]; try (apply less_below_unbounded; [exact E | lia]).
    apply less_below_unbounded; exact E.
Qed.

Lemma hashIterations_loops bound h :
  hashIterations bound h = Loops <-> forall fuel, hashLoopDouble fuel 1 bound h = None.
Proof.
  split.
  - intros H fuel. destruct (hashLoopDouble fuel 1 bound h) as [r|] eqn:E; [|reflexivity].
    assert (Hr : hashIterations bound h = Ok r) by (apply hashIterations_returns; eauto).
    congruence.
  - intros H. unfold hashIterations. destruct (loopEnds bound) eqn:E; [|reflexivity].
    assert (Hr : hashIterations bound h = Ok (iterate (ceiling bound) h))
      by (unfold hashIterations; rewrite E; reflexivity).
    apply hashIterations_returns in Hr. destruct Hr as [fuel Hf].
    rewrite H in Hf. discriminate.
Qed.

Lemma hashIterations_cases bound h :
  (loopEnds bound = true /\ hashIterations bound h = Ok (iterate (ceiling bound) h))
  \/ (loopEnds bound = false /\ hashIterations bound h = Loops).
Proof. unfold hashIterations. destruct (loopEnds bound); auto. Qed.

Section Agreement.

Variable entropy : nat -> Byte.byte.
Variable JSON_stringify : json -> jsstring.
Variable JSON_parse : jsstring -> option json.
Variable ToNumber_object : json -> number + error.

Lemma hashPassword_unfold now p o :
  hashPassword entropy JSON_stringify now p o
  = (validatePassword p ;;;
     salt <- generateSecureSalt entropy (saltLengthOf o) ;;
     hash <- hashIterations (iterationsOf o) (sha256 (p ++ salt)) ;;
     Ok (salt ++ [colon] ++ hash ++ [colon] ++ JSON_stringify (metadataFor now o))).
Proof.
  unfold hashPassword, metadataFor, algorithmOf, saltLengthOf, iterationsOf, keyLengthOf.
  destruct (algorithm o) as [[| |]|]; reflexivity.
Qed.

Lemma hashPassword_inv now p o stored :
  hashPassword entropy JSON_stringify now p o = Ok stored ->
  validatePassword p = Ok tt /\ integerIn 8 512 (saltLengthOf o) /\
  loopEnds (iterationsOf o) = true /\
  stored = credentialOf entropy JSON_stringify now p o.
Proof.
  rewrite hashPassword_unfold.
  destruct (validatePassword_cases p) as [Hp | [e Hp]]; rewrite Hp; cbn [bind]; [|discriminate].
  destruct (generateSecureSalt entropy (saltLengthOf o)) as [salt|e|] eqn:Es;
    cbn [bind]; [|discriminate|discriminate].
  apply generateSecureSalt_inv in Es. destruct Es as [Hn ->].
  destruct (hashIterations_cases (iterationsOf o)
              (sha256 (p ++ toHex (randomBytes entropy (integerValue (saltLengthOf o))))))
    as [[Hl Hh] | [Hl Hh]]; rewrite Hh; cbn [bind]; [|discriminate].
  intros E. injection E as <-. auto.
Qed.

Lemma hashPassword_ok now p o :
  validatePassword p = Ok tt -> integerIn 8 512 (saltLengthOf o) ->
  loopEnds (iterationsOf o) = true ->
  hashPassword entropy JSON_stringify now p o = Ok (credentialOf entropy JSON_stringify now p o).
Proof.
  intros Hp Hn Hl. rewrite hashPassword_unfold. rewrite Hp. cbn [bind].
  rewrite (generateSecureSalt_ok entropy _ Hn). cbn [bind].
  unfold hashIterations. rewrite Hl. reflexivity.
Qed.

Lemma hashPassword_loops now p o :
  validatePassword p = Ok tt -> integerIn 8 512 (saltLengthOf o) ->
  loopEnds (iterationsOf o) = false ->
  hashPassword entropy JSON_stringify now p o = Loops.
Proof.
  intros Hp Hn Hl. rewrite hashPassword_unfold. rewrite Hp. cbn [bind].
  rewrite (generateSecureSalt_ok entropy _ Hn). cbn [bind].
  unfold hashIterations. rewrite Hl. reflexivity.
Qed.

Lemma ToNumber_ends v : ToNumber ToNumber_object v <> Loops.
Proof.
  destruct v; cbn [ToNumber]; try discriminate; destruct (ToNumber_object _); discriminate.
Qed.

Lemma iterateStored_cases v h :
  (exists r, iterateStored ToNumber_object v h = Ok r)
  \/ (exists e, iterateStored ToNumber_object v h = Throw e)
  \/ iterateStored ToNumber_object v h = Loops.
Proof. destruct (iterateStored ToNumber_object v h); eauto. Qed.

(** [verifyPassword] answers or goes on for ever; it never throws. *)
Lemma verifyPassword_cases p s :
  (exists b, verifyPassword JSON_parse ToNumber_object p s = Ok b)
  \/ verifyPassword JSON_parse ToNumber_object p s = Loops.
Proof.
  unfold verifyPassword.
  match goal with |- context [tryCatch ?body _] => destruct body as [b|e|] end;
    cbn [tryCatch]; eauto.
Qed.

Lemma num_or_truthy n d : isFalsy d = false -> isFalsy (num_or n d) = false.
Proof.
  intros Hd. unfold num_or. destruct n as [x|]; [|exact Hd].
  destruct (isFalsy x) eqn:E; [exact Hd | exact E].
Qed.

Lemma iterationsOf_truthy o : isFalsy (iterationsOf o) = false.
Proof. apply num_or_truthy. reflexivity. Qed.

Lemma stored_iterations alg it kl now :
  isFalsy it = false ->
  or_else (prop (Some (metadataOf alg it kl now)) (lit "iterations")) (JNum (Int 1)) = JNum it.
Proof.
  intros H. unfold metadataOf, prop.
  change (lookup (lit "iterations") _) with (Some (JNum it)).
  cbn [or_else truthy]. rewrite H. reflexivity.
Qed.

(** What verification computes on a credential of [hashPassword] whose
    salt has at most 64 bytes and whose metadata [JSON.parse] reads back:
    the SHA-256 chain of the candidate password and the stored salt, as
    long as the stored count says, compared with the stored digest. *)
Lemma verify_credentialOf_recomputes now p q o :
  validatePassword q = Ok tt ->
  integerIn 8 64 (saltLengthOf o) ->
  loopEnds (iterationsOf o) = true ->
  JSON_parse (JSON_stringify (metadataFor now o)) = Some (metadataFor now o) ->
  let salt := toHex (randomBytes entropy (integerValue (saltLengthOf o))) in
  verifyPassword JSON_parse ToNumber_object q (credentialOf entropy JSON_stringify now p o)
  = Ok (timeSafeCompare (iterate (ceiling (iterationsOf o)) (sha256 (q ++ salt)))
                        (iterate (ceiling (iterationsOf o)) (sha256 (p ++ salt)))).
Proof.
  intros Hp Hn Hl Hj. cbv zeta. unfold verifyPassword, credentialOf.
  rewrite Hp. cbn [bind].
  destruct (toHex_props entropy (integerValue (saltLengthOf o))) as [Hlen Hlow].
  destruct (iterate_digest (ceiling (iterationsOf o))
              (p ++ toHex (randomBytes entropy (integerValue (saltLengthOf o))))) as [m' Hm].
  assert (Hv : 8 <= integerValue (saltLengthOf o) <= 64).
  { destruct (saltLengthOf o); cbn [integerIn] in Hn; try contradiction. exact Hn. }
  rewrite decode_three.
  - cbn [bind metadata Validation.salt hash]. rewrite Hj.
    unfold metadataFor. rewrite stored_iterations by apply iterationsOf_truthy.
    cbn [iterateStored ToNumber bind]. unfold hashIterations. rewrite Hl.
    reflexivity.
  - apply lowerHex_noColon, Hlow.
  - rewrite Hlen. lia.
  - rewrite Hm. apply lowerHex_noColon, sha256_lower.
  - rewrite Hm. apply sha256_hexRegexTest.
Qed.

(** Hash/verify agreement, for a salt of at most 64 bytes and a metadata
    object that [JSON.parse] reads back. *)
Lemma verify_credentialOf now p o :
  validatePassword p = Ok tt ->
  integerIn 8 64 (saltLengthOf o) ->
  loopEnds (iterationsOf o) = true ->
  JSON_parse (JSON_stringify (metadataFor now o)) = Some (metadataFor now o) ->
  verifyPassword JSON_parse ToNumber_object p (credentialOf entropy JSON_stringify now p o) = Ok true.
Proof.
  intros Hp Hn Hl Hj.
  rewrite (verify_credentialOf_recomputes now p p o Hp Hn Hl Hj).
  rewrite timeSafeCompare_refl. reflexivity.
Qed.

(** A salt of more than 64 bytes is printed with more than 128
    characters, and the credential is refused. *)
Lemma verify_credentialOf_long_salt now p q o :
  64 < integerValue (saltLengthOf o) ->
  verifyPassword JSON_parse ToNumber_object q (credentialOf entropy JSON_stringify now p o) = Ok false.
Proof.
  intros Hn. unfold verifyPassword, credentialOf.
  destruct (validatePassword_cases q) as [Hp | [e Hp]]; rewrite Hp; cbn [bind tryCatch];
    [|reflexivity].
  destruct (toHex_props entropy (integerValue (saltLengthOf o))) as [Hlen Hlow].
  cbn [app].
  destruct (decode_long_salt JSON_parse
              (toHex (randomBytes entropy (integerValue (saltLengthOf o))))
              (iterate (ceiling (iterationsOf o))
                 (sha256 (p ++ toHex (randomBytes entropy (integerValue (saltLengthOf o)))))
               ++ colon :: JSON_stringify (metadataFor now o)))
    as [e He].
  - apply lowerHex_noColon, Hlow.
  - rewrite Hlen. lia.
  - rewrite He. reflexivity.
Qed.

End Agreement.

(* ================================================================== *)
(** * The digest engine *)
(* ================================================================== *)

(** ** Padding *)

Lemma ToInt32_mod x : ToInt32 x mod 2 ^ 32 = x mod 2 ^ 32.
Proof.
  unfold ToInt32. change (2 ^ 32) with 4294967296. change (2 ^ 31) with 2147483648.
  Z.div_mod_to_equations. lia.
Qed.

Lemma shl8_mod x : shl x 8 mod 2 ^ 32 = (x * 256) mod 2 ^ 32.
Proof.
  unfold shl. change (8 mod 32) with 8. rewrite ToInt32_mod, Z.shiftl_mul_pow2 by lia.
  change (2 ^ 8) with 256.
  rewrite <- (Z.mul_mod_idemp_l (ToInt32 x)), ToInt32_mod, Z.mul_mod_idemp_l by lia.
  reflexivity.
Qed.

Lemma shr0 x : shr x 0 = x mod 2 ^ 32.
Proof. unfold shr, ToUint32. change (0 mod 32) with 0. apply Z.shiftr_0_r. Qed.

Lemma push_byte_mod word byte :
  (shl word 8 + byte) mod 2 ^ 32 = ((word mod 2 ^ 32) * 256 + byte) mod 2 ^ 32.
Proof.
  rewrite <- Z.add_mod_idemp_l, shl8_mod by lia.
  rewrite Z.add_mod_idemp_l by lia.
  rewrite <- (Z.add_mod_idemp_l (word mod 2 ^ 32 * 256)) by lia.
  rewrite Z.mul_mod_idemp_l by lia.
  rewrite Z.add_mod_idemp_l by lia. reflexivity.
Qed.

(** Four bytes are packed big-endian. *)
Lemma packWord_4 a b c d :
  isByte a -> isByte b -> isByte c -> isByte d ->
  packWord [a; b; c; d] = a * 2 ^ 24 + b * 2 ^ 16 + c * 2 ^ 8 + d.
Proof.
  unfold isByte. intros Ha Hb Hc Hd. unfold packWord. cbn [fold_left].
  rewrite shr0. rewrite !push_byte_mod.
  change (shl 0 8) with 0. cbn [Z.add].
  change (2 ^ 32) with 4294967296. change (2 ^ 24) with 16777216.
  change (2 ^ 16) with 65536. change (2 ^ 8) with 256.
  rewrite (Z.mod_small a) by lia.
  rewrite (Z.mod_small (a * 256 + b)) by lia.
  rewrite (Z.mod_small ((a * 256 + b) * 256 + c)) by lia.
  rewrite Z.mod_small by lia. lia.
Qed.

Lemma bytesOfWord_packed a b c d :
  isByte a -> isByte b -> isByte c -> isByte d ->
  bytesOfWord (a * 2 ^ 24 + b * 2 ^ 16 + c * 2 ^ 8 + d) = [a; b; c; d].
Proof.
  unfold isByte. intros Ha Hb Hc Hd. unfold bytesOfWord.
  change (2 ^ 24) with 16777216. change (2 ^ 16) with 65536. change (2 ^ 8) with 256.
  repeat (apply (f_equal2 (@cons Z))); try reflexivity; Z.div_mod_to_equations; lia.
Qed.

(** Induction over a list four elements at a time. *)
Lemma list_ind4 {A} (P : list A -> Prop) :
  P [] ->
  (forall a b c d l, P l -> P (a :: b :: c :: d :: l)) ->
  forall l, (length l mod 4 = 0)%nat -> P l.
Proof.
  intros Hnil Hstep l.
  remember (length l) as n eqn:Hn. revert l Hn.
  induction n as [n IH] using lt_wf_ind. intros l Hn Hm.
  destruct l as [|a [|b [|c [|d l]]]]; cbn [length] in Hn; subst n;
    try (cbn in Hm; discriminate Hm).
  - exact Hnil.
  - apply Hstep. apply (IH (length l)); [lia | reflexivity|].
    replace (S (S (S (S (length l))))) with (length l + 1 * 4)%nat in Hm by lia.
    rewrite Nat.Div0.mod_add in Hm. exact Hm.
Qed.

Lemma bytesOfWords_wordsOfBytes bytes :
  Forall isByte bytes -> (length bytes mod 4 = 0)%nat ->
  bytesOfWords (wordsOfBytes bytes) = bytes.
Proof.
  intros Hb Hm. revert Hb. pattern bytes. apply list_ind4; [reflexivity | | exact Hm].
  intros a b c d l IH Hb.
  inversion Hb as [|? ? Ha Hb1]; subst. inversion Hb1 as [|? ? Hb' Hb2]; subst.
  inversion Hb2 as [|? ? Hc Hb3]; subst. inversion Hb3 as [|? ? Hd Hl]; subst.
  cbn [wordsOfBytes]. unfold bytesOfWords in *. cbn [flat_map].
  rewrite IH by exact Hl.
  rewrite packWord_4, bytesOfWord_packed by assumption. reflexivity.
Qed.

Lemma wordsOfBytes_length bytes :
  (length bytes mod 4 = 0)%nat -> (4 * length (wordsOfBytes bytes) = length bytes)%nat.
Proof.
  intros Hm. pattern bytes. apply list_ind4; [reflexivity | | exact Hm].
  intros a b c d l IH. cbn [wordsOfBytes length]. lia.
Qed.

Lemma repeat_snoc {A} (x : A) n : repeat x n ++ [x] = x :: repeat x n.
Proof. induction n as [|n IH]; [reflexivity|]. cbn. rewrite IH. reflexivity. Qed.

(** The [while] loop of the engine pushes [(14 - length) mod 16] zero
    words. *)
Lemma padTo14_repeat fuel : forall ws,
  (14 - Z.of_nat (length ws)) mod 16 <= Z.of_nat fuel ->
  padTo14 fuel ws = ws ++ repeat 0 (Z.to_nat ((14 - Z.of_nat (length ws)) mod 16)).
Proof.
  induction fuel as [|fuel IH]; intros ws Hf; cbn [padTo14].
  - assert (E : (14 - Z.of_nat (length ws)) mod 16 = 0)
      by (pose proof (Z.mod_pos_bound (14 - Z.of_nat (length ws)) 16); lia).
    rewrite E. cbn. rewrite app_nil_r. reflexivity.
  - destruct (Z.of_nat (length ws) mod 16 =? 14) eqn:E.
    + apply Z.eqb_eq in E.
      replace ((14 - Z.of_nat (length ws)) mod 16) with 0
        by (Z.div_mod_to_equations; lia).
      cbn. rewrite app_nil_r. reflexivity.
    + apply Z.eqb_neq in E.
      assert (Hstep : (14 - Z.of_nat (length (ws ++ [0]))) mod 16
                      = (14 - Z.of_nat (length ws)) mod 16 - 1).
      { rewrite length_app. cbn [length]. Z.div_mod_to_equations. lia. }
      rewrite IH by lia. rewrite Hstep, <- app_assoc. f_equal.
      replace (Z.to_nat ((14 - Z.of_nat (length ws)) mod 16))
        with (S (Z.to_nat ((14 - Z.of_nat (length ws)) mod 16 - 1)))
        by (Z.div_mod_to_equations; lia).
      reflexivity.
Qed.

(** The zero fill of the standard appends [(56 - length) mod 64] bytes. *)
Lemma zeroFill_repeat fuel : forall bs,
  (56 - Z.of_nat (length bs)) mod 64 <= Z.of_nat fuel ->
  zeroFill fuel bs = bs ++ repeat 0 (Z.to_nat ((56 - Z.of_nat (length bs)) mod 64)).
Proof.
  induction fuel as [|fuel IH]; intros bs Hf; cbn [zeroFill].
  - assert (E : (56 - Z.of_nat (length bs)) mod 64 = 0)
      by (pose proof (Z.mod_pos_bound (56 - Z.of_nat (length bs)) 64); lia).
    rewrite E. cbn. rewrite app_nil_r. reflexivity.
  - destruct ((8 * Z.of_nat (length bs)) mod 512 =? 448) eqn:E.
    + apply Z.eqb_eq in E.
      replace ((56 - Z.of_nat (length bs)) mod 64) with 0
        by (Z.div_mod_to_equations; lia).
      cbn. rewrite app_nil_r. reflexivity.
    + apply Z.eqb_neq in E.
      assert (Hstep : (56 - Z.of_nat (length (bs ++ [0]))) mod 64
                      = (56 - Z.of_nat (length bs)) mod 64 - 1).
      { rewrite length_app. cbn [length]. Z.div_mod_to_equations. lia. }
      rewrite IH by lia. rewrite Hstep, <- app_assoc. f_equal.
      replace (Z.to_nat ((56 - Z.of_nat (length bs)) mod 64))
        with (S (Z.to_nat ((56 - Z.of_nat (length bs)) mod 64 - 1)))
        by (Z.div_mod_to_equations; lia).
      reflexivity.
Qed.

Lemma bytesOfWords_app l1 l2 : bytesOfWords (l1 ++ l2) = bytesOfWords l1 ++ bytesOfWords l2.
Proof. apply flat_map_app. Qed.

Lemma bytesOfWords_zeros n : bytesOfWords (repeat 0 n) = repeat 0 (4 * n).
Proof.
  induction n as [|n IH]; [reflexivity|].
  replace (4 * S n)%nat with (4 + 4 * n)%nat by lia.
  unfold bytesOfWords in *. cbn [repeat flat_map]. rewrite IH. reflexivity.
Qed.

Lemma bytesOfWords_length L :
  0 <= L < 2 ^ 64 ->
  bytesOfWord (L / 0x100000000) ++ bytesOfWord (shr L 0) = bigEndian64 L.
Proof.
  intros HL. rewrite shr0. unfold bytesOfWord, bigEndian64. cbn [map app].
  change (2 ^ 64) with 18446744073709551616 in HL.
  change (2 ^ 32) with 4294967296.
  change (2 ^ (8 * 7)) with 72057594037927936. change (2 ^ (8 * 6)) with 281474976710656.
  change (2 ^ (8 * 5)) with 1099511627776. change (2 ^ (8 * 4)) with 4294967296.
  change (2 ^ (8 * 3)) with 16777216. change (2 ^ (8 * 2)) with 65536.
  change (2 ^ (8 * 1)) with 256. change (2 ^ (8 * 0)) with 1.
  change (2 ^ 24) with 16777216. change (2 ^ 16) with 65536. change (2 ^ 8) with 256.
  repeat (apply (f_equal2 (@cons Z))); try reflexivity; Z.div_mod_to_equations; lia.
Qed.

Lemma stringToBytes_ascii m :
  forallb isAscii m = true -> stringToBytes m = map charCode m.
Proof.
  unfold stringToBytes. induction m as [|c m IH]; [reflexivity|].
  cbn [forallb]. intros H. apply andb_true_iff in H. destruct H as [Hc Hm].
  cbn [stringToBytes_push]. unfold isAscii in Hc. rewrite Hc. cbn [map].
  rewrite IH by exact Hm. f_equal.
  apply Z.ltb_lt in Hc. pose proof (charCode_range c).
  unfold ToUint8. apply Z.mod_small. lia.
Qed.

Lemma ascii_isByte m : forallb isAscii m = true -> Forall isByte (map charCode m).
Proof.
  intros H. rewrite forallb_forall in H. apply Forall_map, Forall_forall. intros c Hc.
  specialize (H c Hc). unfold isAscii in H. apply Z.ltb_lt in H.
  pose proof (charCode_range c). unfold isByte. lia.
Qed.

(** On a message of ASCII characters whose length is a multiple of four,
    the padded words of the engine are the padding of the standard. *)
Lemma paddedWords_standard_aligned_ascii m :
  forallb isAscii m = true -> (length m mod 4 = 0)%nat ->
  Z.of_nat (length m) * 8 < 2 ^ 64 ->
  bytesOfWords (paddedWords m) = standardPadding (stringToBytes m).
Proof.
  intros Ha Hm HL.
  assert (Hb : stringToBytes m = map charCode m) by (apply stringToBytes_ascii, Ha).
  assert (Hlen : length (stringToBytes m) = length m) by (rewrite Hb; apply length_map).
  assert (Hby : Forall isByte (stringToBytes m)) by (rewrite Hb; apply ascii_isByte, Ha).
  assert (Hw : (4 * length (stringToWords m) = length m)%nat).
  { unfold stringToWords. rewrite wordsOfBytes_length; rewrite Hlen; [reflexivity | exact Hm]. }
  unfold paddedWords, standardPadding.
  rewrite padTo14_repeat
    by (pose proof (Z.mod_pos_bound (14 - Z.of_nat (length (stringToWords m ++ [2147483648]))) 16);
        cbn [Z.of_nat]; lia).
  rewrite zeroFill_repeat
    by (pose proof (Z.mod_pos_bound (56 - Z.of_nat (length (stringToBytes m ++ [128]))) 64);
        cbn [Z.of_nat]; lia).
  rewrite !bytesOfWords_app, bytesOfWords_zeros.
  unfold stringToWords at 1. rewrite bytesOfWords_wordsOfBytes by (rewrite ?Hlen; assumption).
  rewrite <- !app_assoc. f_equal.
  change (bytesOfWords [2147483648]) with ([128; 0; 0; 0]).
  change (bytesOfWords [Z.of_nat (length m) * 8 / 4294967296])
    with (bytesOfWord (Z.of_nat (length m) * 8 / 0x100000000)).
  change (bytesOfWords [shr (Z.of_nat (length m) * 8) 0])
    with (bytesOfWord (shr (Z.of_nat (length m) * 8) 0) ++ []).
  rewrite app_nil_r.
  rewrite bytesOfWords_length by lia.
  rewrite Hlen, (Z.mul_comm 8).
  rewrite !length_app, Hlen. cbn [length].
  set (n := length (stringToWords m)) in *.
  replace (Z.to_nat ((56 - Z.of_nat (length m + 1)) mod 64))
    with (3 + 4 * Z.to_nat ((14 - Z.of_nat (n + 1)) mod 16))%nat.
  - reflexivity.
  - rewrite <- Hw. Z.div_mod_to_equations. lia.
Qed.

(** The padded message is a whole number of 16-word blocks, so that every
    [slice] of the chunk loop holds 16 words. *)
Lemma paddedWords_blocks m : Z.of_nat (length (paddedWords m)) mod 16 = 0.
Proof.
  unfold paddedWords.
  rewrite padTo14_repeat
    by (pose proof (Z.mod_pos_bound (14 - Z.of_nat (length (stringToWords m ++ [2147483648]))) 16);
        cbn [Z.of_nat]; lia).
  rewrite !length_app, repeat_length. cbn [length].
  set (n := length (stringToWords m)).
  pose proof (Z.mod_pos_bound (14 - Z.of_nat (n + 1)) 16).
  rewrite !Nat2Z.inj_add, Z2Nat.id by lia.
  cbn [Z.of_nat]. Z.div_mod_to_equations. lia.
Qed.

(** ** Test vectors *)

Lemma sha256_empty_vector :
  sha256 (lit EmptyString)
  = lit "e3b0c44298fc1c149afbf4c8996fb92427ae41e4649b934ca495991b7852b855".
Proof. vm_compute. reflexivity. Qed.

(** A message whose length is a multiple of four bytes is digested as the
    standard says. *)
Lemma sha256_abcd_vector :
  sha256 (lit "abcd")
  = lit "88d4266fd4e6338d13b845fcf289579d209c897823b9217da3e161936f031589".
Proof. vm_compute. reflexivity. Qed.

(** C1.  Of the two published vectors, the digest of the empty message
    is reproduced and the digest of the message abc is not: its three
    bytes are packed into the word 0x00616263 and the 0x80 marker goes
    into a word of its own, so the digest is 949ecadf... instead of
    ba7816bf.... *)
Theorem sha256_abc_vector_mismatch :
  sha256 (lit EmptyString)
  = lit "e3b0c44298fc1c149afbf4c8996fb92427ae41e4649b934ca495991b7852b855"
  /\ sha256 (lit "abc")
     = lit "949ecadfb23604ff452cb848352e8ccd81971b989624825831dcf503aef343a0"
  /\ sha256 (lit "abc")
     <> lit "ba7816bf8f01cfea414140de5dae2223b00361a396177a9cb410ff61f20015ad".
Proof.
  split; [vm_compute; reflexivity|].
  split; [vm_compute; reflexivity|].
  vm_compute. intros H. discriminate H.
Qed.

(** C3.  For the message abc the padded words of the engine are
    0x00616263, 0x80000000, thirteen zero words and the bit length 24:
    read as bytes, 00 61 62 63 80 ..., which is not the padding of the
    standard, 61 62 63 80 00 .... *)
Theorem padding_abc_not_standard :
  paddedWords (lit "abc")
  = [0x00616263; 0x80000000; 0; 0; 0; 0; 0; 0; 0; 0; 0; 0; 0; 0; 0; 24]
  /\ firstn 5 (bytesOfWords (paddedWords (lit "abc"))) = [0x00; 0x61; 0x62; 0x63; 0x80]
  /\ firstn 5 (standardPadding (stringToBytes (lit "abc"))) = [0x61; 0x62; 0x63; 0x80; 0x00]
  /\ bytesOfWords (paddedWords (lit "abc")) <> standardPadding (stringToBytes (lit "abc")).
Proof.
  split; [vm_compute; reflexivity|].
  split; [vm_compute; reflexivity|].
  split; [vm_compute; reflexivity|].
  vm_compute. intros H. discriminate H.
Qed.

(** The recorded bit length counts UTF-16 code units, not UTF-8 bytes:
    for the message of two code units U+00E9, four bytes long, it is
    16. *)
Lemma padding_length_counts_code_units :
  stringToBytes [fromCharCode 0xe9; fromCharCode 0xe9] = [0xc3; 0xa9; 0xc3; 0xa9]
  /\ paddedWords [fromCharCode 0xe9; fromCharCode 0xe9]
     = [0xc3a9c3a9; 0x80000000; 0; 0; 0; 0; 0; 0; 0; 0; 0; 0; 0; 0; 0; 16].
Proof. split; vm_compute; reflexivity. Qed.

(** C8.  Every digest is 64 characters long, each of them one of
    [0-9a-f]; and [sha256] is a function of the message alone, so that two
    evaluations on the same message give the same digest. *)
Theorem sha256_is_64_lower_hex (m : jsstring) :
  length (sha256 m) = 64%nat
  /\ forallb isLowerHexChar (sha256 m) = true
  /\ sha256 m = sha256 m.
Proof.
  split; [apply sha256_length|].
  split; [apply sha256_lower | reflexivity].
Qed.

(* ================================================================== *)
(** * The comparators *)
(* ================================================================== *)

Lemma timeSafeCompare_bytes a b :
  timeSafeCompare a b = compareBytes (Buffer_from_utf8 a) (Buffer_from_utf8 b).
Proof. reflexivity. Qed.

Lemma timeSafeCompare_true_iff a b :
  Z.of_nat (length (Buffer_from_utf8 a)) < 2 ^ 32 ->
  Z.of_nat (length (Buffer_from_utf8 b)) < 2 ^ 32 ->
  timeSafeCompare a b = true <-> Buffer_from_utf8 a = Buffer_from_utf8 b.
Proof.
  intros Ha Hb. rewrite timeSafeCompare_bytes.
  apply compareBytes_eq_small; try assumption; apply Buffer_from_utf8_isByte.
Qed.

Lemma bool_eq_iff (x y : bool) (P : Prop) :
  (x = true <-> P) -> (y = true <-> P) -> x = y.
Proof.
  intros Hx Hy. destruct x, y; try reflexivity.
  - symmetry. apply Hy, Hx. reflexivity.
  - apply Hx, Hy. reflexivity.
Qed.

(** C4.  On two strings whose encodings are shorter than 2^32 bytes (every
    string a JavaScript engine can hold), [timeSafeCompare] returns what
    the algorithm of the specification returns on the two byte sequences,
    and it returns [true] exactly when the byte sequences are equal. *)
Theorem timeSafeCompare_decides_byte_equality (a b : jsstring) :
  Z.of_nat (length (Buffer_from_utf8 a)) < 2 ^ 32 ->
  Z.of_nat (length (Buffer_from_utf8 b)) < 2 ^ 32 ->
  timeSafeCompare a b = compare_spec (Buffer_from_utf8 a) (Buffer_from_utf8 b)
  /\ (timeSafeCompare a b = true <-> Buffer_from_utf8 a = Buffer_from_utf8 b).
Proof.
  intros Ha Hb.
  pose proof (timeSafeCompare_true_iff a b Ha Hb) as H.
  split; [|exact H].
  apply (bool_eq_iff _ _ _ H). apply compare_spec_true_iff.
Qed.

Lemma timeSafeCompare_decides_byte_equality_witness :
  Z.of_nat (length (Buffer_from_utf8 (lit "s3cret"))) < 2 ^ 32
  /\ Z.of_nat (length (Buffer_from_utf8 (lit "s3cret!"))) < 2 ^ 32
  /\ timeSafeCompare (lit "s3cret") (lit "s3cret!")
     = compare_spec (Buffer_from_utf8 (lit "s3cret")) (Buffer_from_utf8 (lit "s3cret!"))
  /\ (timeSafeCompare (lit "s3cret") (lit "s3cret!") = true
      <-> Buffer_from_utf8 (lit "s3cret") = Buffer_from_utf8 (lit "s3cret!")).
Proof.
  split; [vm_compute; reflexivity|].
  split; [vm_compute; reflexivity|].
  apply (timeSafeCompare_decides_byte_equality (lit "s3cret") (lit "s3cret!"));
    vm_compute; reflexivity.
Defined.

(** C10.  The length test of [constantTimeCompare] never changes the
    answer: two strings with different numbers of code units have
    different encodings, so [timeSafeCompare] rejects them too. *)
Theorem constantTimeCompare_agrees (a b : jsstring) :
  Z.of_nat (length (Buffer_from_utf8 a)) < 2 ^ 32 ->
  Z.of_nat (length (Buffer_from_utf8 b)) < 2 ^ 32 ->
  constantTimeCompare a b = timeSafeCompare a b.
Proof.
  intros Ha Hb. unfold constantTimeCompare.
  destruct (length a =? length b)%nat eqn:E; cbn [negb]; [reflexivity|].
  apply Nat.eqb_neq in E.
  destruct (timeSafeCompare a b) eqn:T; [|reflexivity].
  exfalso. apply E, utf8_eq_length.
  apply (timeSafeCompare_true_iff a b Ha Hb). exact T.
Qed.

Lemma constantTimeCompare_agrees_witness :
  Z.of_nat (length (Buffer_from_utf8 (lit "abc"))) < 2 ^ 32
  /\ Z.of_nat (length (Buffer_from_utf8 [fromCharCode 0xD83D; fromCharCode 0xDE00])) < 2 ^ 32
  /\ constantTimeCompare (lit "abc") [fromCharCode 0xD83D; fromCharCode 0xDE00]
     = timeSafeCompare (lit "abc") [fromCharCode 0xD83D; fromCharCode 0xDE00].
Proof.
  split; [vm_compute; reflexivity|].
  split; [vm_compute; reflexivity|].
  apply (constantTimeCompare_agrees (lit "abc") [fromCharCode 0xD83D; fromCharCode 0xDE00]);
    vm_compute; reflexivity.
Defined.

(* ================================================================== *)
(** * Hashing and verifying passwords *)
(* ================================================================== *)

Section Services.

Variable entropy : nat -> Byte.byte.
Variable JSON_stringify : json -> jsstring.
Variable JSON_parse : jsstring -> option json.
Variable ToNumber_object : json -> number + error.

Local Abbreviation hashPassword := (hashPassword entropy JSON_stringify).
Local Abbreviation hashPasswordWithOptions := (hashPasswordWithOptions entropy).
Local Abbreviation verifyPassword := (verifyPassword JSON_parse ToNumber_object).
Local Abbreviation verifyPasswordSecure := (verifyPasswordSecure JSON_parse ToNumber_object).
Local Abbreviation upgradePasswordHash :=
  (upgradePasswordHash entropy JSON_stringify JSON_parse ToNumber_object).
Local Abbreviation recompute := (recompute ToNumber_object).

Lemma verifyPassword_decoded p s d :
  validatePassword p = Ok tt ->
  validateStoredHashFormat JSON_parse s = Ok d ->
  verifyPassword p s = tryCatch (recompute p d) (fun _ => Ok false).
Proof.
  intros Hp Hd. unfold Password.verifyPassword. rewrite Hp, Hd. reflexivity.
Qed.

Lemma verifyPassword_bad_password p s e :
  validatePassword p = Throw e -> verifyPassword p s = Ok false.
Proof. intros Hp. unfold Password.verifyPassword. rewrite Hp. reflexivity. Qed.

Lemma verifyPassword_bad_credential p s e :
  validateStoredHashFormat JSON_parse s = Throw e -> verifyPassword p s = Ok false.
Proof.
  intros Hd. unfold Password.verifyPassword. rewrite Hd.
  destruct (validatePassword_cases p) as [Hp | [e' Hp]]; rewrite Hp; reflexivity.
Qed.

(** [verifyPasswordSecure] never throws; when it returns, its [isValid]
    is the answer of [verifyPassword]; and it goes on for ever exactly
    when [verifyPassword] does. *)
Lemma verifyPasswordSecure_isValid startTime endTime p s :
  (exists r, verifyPasswordSecure startTime endTime p s = Ok r
             /\ verifyPassword p s = Ok (isValid r))
  \/ (verifyPasswordSecure startTime endTime p s = Loops
      /\ verifyPassword p s = Loops).
Proof.
  unfold Password.verifyPasswordSecure, Password.verifyPassword.
  destruct (validatePassword_cases p) as [Hp | [e Hp]]; rewrite Hp;
    cbn [bind tryCatch]; [|eauto].
  destruct (validateStoredHashFormat_cases JSON_parse s) as [[d Hd] | [e Hd]]; rewrite Hd;
    cbn [bind tryCatch]; [|eauto].
  destruct (is_string _ _);
    destruct (iterateStored _ _ _) as [h|e|]; cbn [bind tryCatch]; eauto.
Qed.

(** The two verification functions on a credential that decodes, for a
    password that is accepted: the digest chain of [password + salt], as
    long as the stored count says, is compared with the stored digest. *)
Lemma verify_decoded_number startTime endTime p s d n :
  validatePassword p = Ok tt ->
  validateStoredHashFormat JSON_parse s = Ok d ->
  or_else (prop (metadata d) (lit "iterations")) (JNum (Int 1)) = JNum n ->
  (loopEnds n = true ->
     verifyPassword p s
     = Ok (timeSafeCompare (iterate (ceiling n) (sha256 (p ++ salt d))) (hash d))
     /\ exists r, verifyPasswordSecure startTime endTime p s = Ok r
                  /\ isValid r
                     = timeSafeCompare (iterate (ceiling n) (sha256 (p ++ salt d))) (hash d)
                  /\ vr_algorithm r
                     = or_else (prop (metadata d) (lit "algorithm")) (JStr (lit "sha256")))
  /\ (loopEnds n = false ->
        verifyPassword p s = Loops
        /\ verifyPasswordSecure startTime endTime p s = Loops).
Proof.
  intros Hp Hd Hn.
  unfold Password.verifyPasswordSecure, Password.verifyPassword.
  rewrite Hp, Hd. cbn [bind]. rewrite Hn.
  cbn [iterateStored ToNumber bind]. unfold hashIterations.
  split; intros Hl; rewrite Hl; cbn [bind tryCatch].
  - split; [reflexivity|].
    destruct (is_string _ _); cbn [bind tryCatch]; eexists; (split; [reflexivity|]);
      cbn [isValid vr_algorithm]; auto.
  - destruct (is_string _ _); cbn [bind tryCatch]; auto.
Qed.

Lemma loopEnds_truthy n : loopEnds n = false -> isFalsy n = false.
Proof.
  destruct n as [z| | | |]; cbn [loopEnds isFalsy ceiling]; intros H;
    try reflexivity; try discriminate.
  apply Z.leb_gt in H. apply Z.eqb_neq. intros ->. revert H. vm_compute. discriminate.
Qed.

Lemma hashPasswordWithOptions_inv now p o r :
  hashPasswordWithOptions now p o = Ok r ->
  phr_algorithm r = algorithmOf o
  /\ phr_hash r
     = iterate (ceiling (num_or (iterations o) (Int 100000)))
               (sha256 (pepperedInput p (phr_salt r) o)).
Proof.
  unfold Password.hashPasswordWithOptions.
  destruct (validatePassword p) as [[]|e|]; cbn [bind]; [|discriminate|discriminate].
  destruct (generateSecureSalt entropy _) as [salt|e|]; cbn [bind]; [|discriminate|discriminate].
  assert (Hsame : forall x,
            match algorithmOf o with
            | sha256_alg => hashIterations (num_or (iterations o) (Int 100000)) x
            | _ => hashIterations (num_or (iterations o) (Int 100000)) x
            end = hashIterations (num_or (iterations o) (Int 100000)) x)
    by (intros x; destruct (algorithmOf o); reflexivity).
  fold (algorithmOf o). rewrite Hsame.
  match goal with |- context [hashIterations ?n ?x] =>
    destruct (hashIterations_cases n x) as [[Hl Hh] | [Hl Hh]]; rewrite Hh
  end; cbn [bind]; [|discriminate].
  intros E. injection E as <-. cbn [phr_algorithm phr_hash phr_salt].
  unfold pepperedInput. split; reflexivity.
Qed.

(** Hash/verify agreement where it holds: the salt is at most 64 bytes
    long and [JSON.parse] reads the metadata back. *)
Lemma hashPassword_then_verify now p o stored :
  hashPassword now p o = Ok stored ->
  integerIn 8 64 (saltLengthOf o) ->
  JSON_parse (JSON_stringify (metadataFor now o)) = Some (metadataFor now o) ->
  verifyPassword p stored = Ok true.
Proof.
  intros Hh Hn Hj. apply hashPassword_inv in Hh. destruct Hh as (Hp & Hr & Hl & ->).
  apply verify_credentialOf; assumption.
Qed.

(** And where it fails: with a salt of more than 64 bytes (up to the 512
    that [hashPassword] accepts) the fresh credential never verifies. *)
Lemma hashPassword_long_salt_never_verifies now p o stored :
  hashPassword now p o = Ok stored ->
  64 < integerValue (saltLengthOf o) ->
  verifyPassword p stored = Ok false.
Proof.
  intros Hh Hn. apply hashPassword_inv in Hh. destruct Hh as (_ & _ & _ & ->).
  apply verify_credentialOf_long_salt. exact Hn.
Qed.

(** C2.  The password password123 hashed with [saltLength: 65]: the
    salt is printed as 130 hexadecimal characters, [validateSalt] refuses
    more than 128, and the fresh credential does not verify, whatever the
    random bytes, the clock and the JSON functions are. *)
Theorem hash_then_verify_rejects_65_byte_salt (now : Z) :
  exists stored,
    hashPassword now (lit "password123") (MkHashOptions None (Some (Int 65)) None None None None)
    = Ok stored
    /\ length (nth 0 (split colon stored) []) = 130%nat
    /\ verifyPassword (lit "password123") stored = Ok false.
Proof.
  set (o := MkHashOptions None (Some (Int 65)) None None None None).
  exists (credentialOf entropy JSON_stringify now (lit "password123") o).
  split; [|split].
  - apply hashPassword_ok; [vm_compute; reflexivity | cbn; lia | vm_compute; reflexivity].
  - unfold credentialOf.
    destruct (toHex_props entropy (integerValue (saltLengthOf o))) as [Hlen Hlow].
    cbn [app]. rewrite split_app_sep by (apply lowerHex_noColon, Hlow).
    cbn [nth]. rewrite Hlen. reflexivity.
  - apply verify_credentialOf_long_salt. cbn. lia.
Qed.

(** What holds of the verification functions on every input: they never
    throw; each answers or goes on for ever, and the two do the same; the
    [isValid] of the second is the boolean of the first; and when the
    credential does not decode, or the password is refused, the answer
    is [false]. *)
Lemma verify_answers_or_loops (startTime endTime : Z) (password storedHash : jsstring) :
  ((exists r, verifyPasswordSecure startTime endTime password storedHash = Ok r
              /\ verifyPassword password storedHash = Ok (isValid r))
   \/ (verifyPasswordSecure startTime endTime password storedHash = Loops
       /\ verifyPassword password storedHash = Loops))
  /\ (forall e, validateStoredHashFormat JSON_parse storedHash = Throw e ->
        verifyPassword password storedHash = Ok false
        /\ exists r, verifyPasswordSecure startTime endTime password storedHash = Ok r
                     /\ isValid r = false)
  /\ (forall e, validatePassword password = Throw e ->
        verifyPassword password storedHash = Ok false
        /\ exists r, verifyPasswordSecure startTime endTime password storedHash = Ok r
                     /\ isValid r = false)
  /\ verifyPassword password (lit "not-a-valid-credential") = Ok false.
Proof.
  pose proof (verifyPasswordSecure_isValid startTime endTime password storedHash) as Hs.
  assert (Hfalse : verifyPassword password storedHash = Ok false ->
                   verifyPassword password storedHash = Ok false
                   /\ exists r, verifyPasswordSecure startTime endTime password storedHash = Ok r
                                /\ isValid r = false).
  { intros H. split; [exact H|].
    destruct Hs as [(r & Hr & Hv) | [_ Hv]]; [|congruence].
    exists r. split; [exact Hr|]. congruence. }
  split; [exact Hs|].
  split; [intros e He; apply Hfalse; eapply verifyPassword_bad_credential; exact He|].
  split; [intros e He; apply Hfalse; eapply verifyPassword_bad_password; exact He|].
  eapply verifyPassword_bad_credential. vm_compute. reflexivity.
Qed.

(** C5.  A stored credential that decodes and whose metadata give an
    iteration count the loop counter cannot reach: a number above 2^53,
    or Infinity, which [JSON.parse] reads from [1e999].  For a password
    that [validatePassword] accepts, the loop [for (let i = 1; i <
    iterations; i++)] has not ended after any number of steps, and
    neither [verifyPassword] nor [verifyPasswordSecure] returns: no
    boolean and no [isValid] come out, and nothing is thrown that the
    [catch] could turn into [false]. *)
Theorem verify_loops_on_unbounded_iterations (startTime endTime : Z)
    (password storedHash : jsstring) (d : StoredHash) (n : number) :
  validatePassword password = Ok tt ->
  validateStoredHashFormat JSON_parse storedHash = Ok d ->
  prop (metadata d) (lit "iterations") = Some (JNum n) ->
  loopEnds n = false ->
  (forall fuel, hashLoopDouble fuel 1 n (sha256 (password ++ salt d)) = None)
  /\ verifyPassword password storedHash = Loops
  /\ verifyPasswordSecure startTime endTime password storedHash = Loops
  /\ (forall b, verifyPassword password storedHash <> Ok b)
  /\ (forall r, verifyPasswordSecure startTime endTime password storedHash <> Ok r).
Proof.
  intros Hp Hd Hi Hl.
  assert (Hn : or_else (prop (metadata d) (lit "iterations")) (JNum (Int 1)) = JNum n).
  { rewrite Hi. cbn [or_else truthy]. rewrite (loopEnds_truthy n Hl). reflexivity. }
  destruct (verify_decoded_number startTime endTime password storedHash d n Hp Hd Hn)
    as [_ H]. destruct (H Hl) as [Hv Hs].
  split.
  - apply hashIterations_loops. unfold hashIterations. rewrite Hl. reflexivity.
  - split; [exact Hv|]. split; [exact Hs|].
    split; [intros b; rewrite Hv | intros r; rewrite Hs]; discriminate.
Qed.


(** C6, as amended.  For a password that [validatePassword] accepts, a
    salt of 8 to 128 code units and a digest field, neither holding a
    colon: the credential [salt:digest] decodes to that salt and digest
    without metadata when the digest is hexadecimal, and [verifyPassword]
    answers [true] exactly when the digest of [password + salt], computed
    once, is the stored digest. *)
Theorem legacy_two_field_verifies (password salt digest : jsstring) :
  validatePassword password = Ok tt ->
  noColon salt -> 8 <= Z.of_nat (length salt) <= 128 ->
  noColon digest ->
  (hexRegexTest digest = true ->
     validateStoredHashFormat JSON_parse (salt ++ [colon] ++ digest)
     = Ok (MkStoredHash salt digest None))
  /\ (verifyPassword password (salt ++ [colon] ++ digest) = Ok true
      <-> sha256 (password ++ salt) = digest).
Proof.
  intros Hp Hs Hl Hd. split; [intros Hx; apply decode_two; assumption|].
  destruct (hexRegexTest digest) eqn:Hx.
  - rewrite (verifyPassword_decoded _ _ _ Hp (decode_two JSON_parse _ _ Hs Hl Hd Hx)).
    unfold Password.recompute. cbn [metadata Validation.salt hash prop or_else].
    cbn [Password.iterateStored ToNumber bind tryCatch].
    change (hashIterations (Int 1) (sha256 (password ++ salt)))
      with (Ok (A := jsstring) (sha256 (password ++ salt))).
    cbn [bind tryCatch].
    rewrite <- (timeSafeCompare_hex (sha256 (password ++ salt)) digest).
    + split; intros H; congruence.
    + apply lowerHex_isHex, sha256_lower.
    + unfold hexRegexTest in Hx. apply andb_true_iff in Hx. apply Hx.
  - destruct (decode_two_bad_hash JSON_parse salt digest Hs Hd Hx) as [e He].
    rewrite (verifyPassword_bad_credential _ _ _ He). split; [discriminate|].
    intros H. rewrite <- H, sha256_hexRegexTest in Hx. discriminate.
Qed.

(** What holds of the algorithm option, whatever algorithm [a] the
    options name: [hashPassword] stores the iterated SHA-256 digest of
    [password + salt] and records the name in the metadata;
    [hashPasswordWithOptions] returns the iterated SHA-256 digest of its
    input and the name; two credentials with the same salt, digest and
    [iterations] property get the same answer from [verifyPassword] and
    from [verifyPasswordSecure], whatever else their metadata hold; and
    for a salt of at most 64 bytes and metadata that [JSON.parse] reads
    back, both verification functions compare the stored digest with the
    iterated SHA-256 digest of the candidate password and the stored
    salt, so that the password itself is accepted. *)
Lemma algorithm_is_recorded_not_used (now startTime endTime : Z)
    (p q : jsstring) (o : HashOptions) (a : HashAlgorithm) :
  let saltText := toHex (randomBytes entropy (integerValue (saltLengthOf o))) in
  let digest x := iterate (ceiling (iterationsOf o)) (sha256 (x ++ saltText)) in
  let meta := metadataOf a (iterationsOf o) (keyLengthOf o) now in
  (forall stored,
     hashPassword now p (withAlgorithm o a) = Ok stored ->
     stored = saltText ++ [colon] ++ digest p ++ [colon] ++ JSON_stringify meta)
  /\ (forall r,
        hashPasswordWithOptions now p (withAlgorithm o a) = Ok r ->
        phr_algorithm r = a
        /\ phr_hash r = iterate (ceiling (num_or (iterations o) (Int 100000)))
                                (sha256 (pepperedInput p (phr_salt r) o)))
  /\ (forall s1 s2 d1 d2,
        validateStoredHashFormat JSON_parse s1 = Ok d1 ->
        validateStoredHashFormat JSON_parse s2 = Ok d2 ->
        salt d1 = salt d2 -> hash d1 = hash d2 ->
        prop (metadata d1) (lit "iterations") = prop (metadata d2) (lit "iterations") ->
        verifyPassword q s1 = verifyPassword q s2)
  /\ (forall stored,
        hashPassword now p (withAlgorithm o a) = Ok stored ->
        integerIn 8 64 (saltLengthOf o) ->
        JSON_parse (JSON_stringify meta) = Some meta ->
        validatePassword q = Ok tt ->
        verifyPassword q stored = Ok (timeSafeCompare (digest q) (digest p))
        /\ exists r, verifyPasswordSecure startTime endTime q stored = Ok r
                     /\ isValid r = timeSafeCompare (digest q) (digest p))
  /\ (forall stored,
        hashPassword now p (withAlgorithm o a) = Ok stored ->
        integerIn 8 64 (saltLengthOf o) ->
        JSON_parse (JSON_stringify meta) = Some meta ->
        verifyPassword p stored = Ok true
        /\ exists r, verifyPasswordSecure startTime endTime p stored = Ok r
                     /\ isValid r = true).
Proof.
  cbv zeta.
  assert (Hrec : forall q' stored,
            hashPassword now p (withAlgorithm o a) = Ok stored ->
            integerIn 8 64 (saltLengthOf o) ->
            JSON_parse (JSON_stringify (metadataOf a (iterationsOf o) (keyLengthOf o) now))
            = Some (metadataOf a (iterationsOf o) (keyLengthOf o) now) ->
            validatePassword q' = Ok tt ->
            verifyPassword q' stored
            = Ok (timeSafeCompare
                    (iterate (ceiling (iterationsOf o))
                       (sha256 (q' ++ toHex (randomBytes entropy (integerValue (saltLengthOf o))))))
                    (iterate (ceiling (iterationsOf o))
                       (sha256 (p ++ toHex (randomBytes entropy (integerValue (saltLengthOf o)))))))).
  { intros q' stored H Hn Hj Hq.
    apply hashPassword_inv in H. destruct H as (_ & _ & Hl & ->).
    apply (verify_credentialOf_recomputes entropy JSON_stringify JSON_parse ToNumber_object
             now p q' (withAlgorithm o a) Hq Hn Hl Hj). }
  assert (Hsec : forall q' stored b,
            verifyPassword q' stored = Ok b ->
            exists r, verifyPasswordSecure startTime endTime q' stored = Ok r /\ isValid r = b).
  { intros q' stored b Hv.
    destruct (verifyPasswordSecure_isValid startTime endTime q' stored)
      as [(r & Hr & Hv') | [_ Hv']]; [|congruence].
    exists r. split; [exact Hr | congruence]. }
  split; [|split; [|split; [|split]]].
  - intros stored H. apply hashPassword_inv in H. destruct H as (_ & _ & _ & ->). reflexivity.
  - intros r H. apply hashPasswordWithOptions_inv in H. exact H.
  - intros s1 s2 d1 d2 H1 H2 Hs Hh Hi.
    destruct (validatePassword_cases q) as [Hp | [e Hp]].
    + rewrite (verifyPassword_decoded _ _ _ Hp H1), (verifyPassword_decoded _ _ _ Hp H2).
      unfold Password.recompute. rewrite Hs, Hh, Hi. reflexivity.
    + rewrite !(verifyPassword_bad_password _ _ _ Hp). reflexivity.
  - intros stored H Hn Hj Hq.
    pose proof (Hrec q stored H Hn Hj Hq) as Hv. split; [exact Hv|].
    apply Hsec. exact Hv.
  - intros stored H Hn Hj.
    assert (Hp : validatePassword p = Ok tt) by (apply hashPassword_inv in H; apply H).
    pose proof (Hrec p stored H Hn Hj Hp) as Hv.
    rewrite timeSafeCompare_refl in Hv. split; [exact Hv|].
    apply Hsec. exact Hv.
Qed.

(** C9.  The password password123 hashed with [algorithm: 'sha512'] and
    [saltLength: 65]: [hashPassword] returns a credential whose digest is
    the SHA-256 digest of [password + salt] and whose metadata name
    sha512; its salt is printed as 130 hexadecimal characters,
    [validateSalt] refuses more than 128, and the credential does not
    verify against its password, with [verifyPassword] or with
    [verifyPasswordSecure], whatever the random bytes, the clock and the
    JSON functions are. *)
Theorem sha512_credential_with_65_byte_salt_is_refused (now startTime endTime : Z) :
  let o := MkHashOptions (Some sha512_alg) (Some (Int 65)) None None None None in
  let saltText := toHex (randomBytes entropy 65) in
  exists stored,
    hashPassword now (lit "password123") o = Ok stored
    /\ stored = saltText ++ [colon] ++ sha256 (lit "password123" ++ saltText) ++ [colon]
                ++ JSON_stringify (metadataOf sha512_alg (Int 1) (Int 64) now)
    /\ length saltText = 130%nat
    /\ verifyPassword (lit "password123") stored = Ok false
    /\ exists r, verifyPasswordSecure startTime endTime (lit "password123") stored = Ok r
                 /\ isValid r = false.
Proof.
  cbv zeta.
  set (o := MkHashOptions (Some sha512_alg) (Some (Int 65)) None None None None).
  exists (credentialOf entropy JSON_stringify now (lit "password123") o).
  assert (Hv : verifyPassword (lit "password123")
                 (credentialOf entropy JSON_stringify now (lit "password123") o) = Ok false)
    by (apply verify_credentialOf_long_salt; cbn; lia).
  split; [|split; [|split; [|split]]].
  - apply hashPassword_ok; [vm_compute; reflexivity | cbn; lia | vm_compute; reflexivity].
  - reflexivity.
  - destruct (toHex_props entropy 65) as [Hlen _]. rewrite Hlen. reflexivity.
  - exact Hv.
  - destruct (verifyPasswordSecure_isValid startTime endTime (lit "password123")
                (credentialOf entropy JSON_stringify now (lit "password123") o))
      as [(r & Hr & Hv') | [_ Hv']]; [|congruence].
    exists r. split; [exact Hr | congruence].
Qed.

End Services.

(* ================================================================== *)
(** * The theorems on a concrete platform *)
(* ================================================================== *)

(** [verifyPassword('hunter2', 'saltsalt:ab:{"iterations":1e999}')]:
    the credential decodes, [JSON.parse] reads the count as Infinity, and
    the call does not return. *)
Lemma verify_loops_on_unbounded_iterations_witness :
  let d := MkStoredHash (lit "saltsalt") (lit "ab")
             (Some (JObj [(lit "iterations", JNum Infinity)])) in
  validatePassword Example.password = Ok tt
  /\ validateStoredHashFormat JsonModel.parse Example.unboundedCredential = Ok d
  /\ prop (metadata d) (lit "iterations") = Some (JNum Infinity)
  /\ loopEnds Infinity = false
  /\ verifyPassword JsonModel.parse JsonModel.toNumberObject
       Example.password Example.unboundedCredential = Loops
  /\ verifyPasswordSecure JsonModel.parse JsonModel.toNumberObject 0 5
       Example.password Example.unboundedCredential = Loops.
Proof.
  cbv zeta.
  assert (Hp : validatePassword Example.password = Ok tt) by (vm_compute; reflexivity).
  assert (Hd : validateStoredHashFormat JsonModel.parse Example.unboundedCredential
               = Ok (MkStoredHash (lit "saltsalt") (lit "ab")
                       (Some (JObj [(lit "iterations", JNum Infinity)]))))
    by (vm_compute; reflexivity).
  assert (Hi : prop (metadata (MkStoredHash (lit "saltsalt") (lit "ab")
                                 (Some (JObj [(lit "iterations", JNum Infinity)]))))
                    (lit "iterations") = Some (JNum Infinity))
    by (vm_compute; reflexivity).
  assert (Hl : loopEnds Infinity = false) by reflexivity.
  split; [exact Hp|]. split; [exact Hd|]. split; [exact Hi|]. split; [exact Hl|].
  pose proof (verify_loops_on_unbounded_iterations JsonModel.parse JsonModel.toNumberObject
                0 5 Example.password Example.unboundedCredential _ Infinity Hp Hd Hi Hl)
    as (_ & Hv & Hs & _).
  exact (conj Hv Hs).
Defined.


(** C6, as first stated, fails on the empty password: the digest of
    [password + salt] is the stored digest, and [verifyPassword] answers
    [false] because [validatePassword] refuses the password. *)
Lemma legacy_empty_password_counterexample :
  ~ (forall password salt digest : jsstring,
       noColon salt -> 8 <= Z.of_nat (length salt) <= 128 -> noColon digest ->
       (verifyPassword JsonModel.parse JsonModel.toNumberObject
          password (salt ++ [colon] ++ digest) = Ok true
        <-> sha256 (password ++ salt) = digest)).
Proof.
  intros H.
  specialize (H [] Example.legacySalt (sha256 Example.legacySalt)).
  assert (E : verifyPassword JsonModel.parse JsonModel.toNumberObject
                [] (Example.legacySalt ++ [colon] ++ sha256 Example.legacySalt) = Ok true).
  { apply H; [vm_compute; reflexivity | vm_compute; split; discriminate
             | vm_compute; reflexivity | reflexivity]. }
  vm_compute in E. discriminate E.
Qed.

Lemma legacy_two_field_verifies_witness :
  validatePassword Example.password = Ok tt
  /\ noColon Example.legacySalt
  /\ 8 <= Z.of_nat (length Example.legacySalt) <= 128
  /\ noColon (sha256 (Example.password ++ Example.legacySalt))
  /\ validateStoredHashFormat JsonModel.parse
       (Example.legacySalt ++ [colon] ++ sha256 (Example.password ++ Example.legacySalt))
     = Ok (MkStoredHash Example.legacySalt
             (sha256 (Example.password ++ Example.legacySalt)) None)
  /\ verifyPassword JsonModel.parse JsonModel.toNumberObject Example.password
       (Example.legacySalt ++ [colon] ++ sha256 (Example.password ++ Example.legacySalt))
     = Ok true.
Proof.
  assert (Hp : validatePassword Example.password = Ok tt) by (vm_compute; reflexivity).
  assert (Hs : noColon Example.legacySalt) by (vm_compute; reflexivity).
  assert (Hl : 8 <= Z.of_nat (length Example.legacySalt) <= 128)
    by (vm_compute; split; discriminate).
  assert (Hd : noColon (sha256 (Example.password ++ Example.legacySalt)))
    by (vm_compute; reflexivity).
  destruct (legacy_two_field_verifies JsonModel.parse JsonModel.toNumberObject
              Example.password Example.legacySalt
              (sha256 (Example.password ++ Example.legacySalt)) Hp Hs Hl Hd) as [Hdec Hver].
  repeat (split; [assumption|]).
  split; [apply Hdec; vm_compute; reflexivity | apply Hver; reflexivity].
Defined.

(* ================================================================== *)
(** * Further properties of the sources *)
(* ================================================================== *)


(** ** Bit operations as arithmetic *)

Lemma land_high_low c k x :
  0 <= k -> 0 <= x < 2 ^ k -> Z.land (c * 2 ^ k) x = 0.
Proof.
  intros Hk Hx. apply Z.bits_inj'. intros n Hn.
  rewrite Z.land_spec, Z.bits_0.
  destruct (Z.lt_ge_cases n k) as [Hlt | Hge].
  - rewrite Z.mul_pow2_bits_low by lia. reflexivity.
  - destruct (Z.eq_dec x 0) as [-> | Hx0]; [rewrite Z.bits_0; apply andb_false_r|].
    assert (Z.log2 x < k) by (apply Z.log2_lt_pow2; lia).
    rewrite (Z.bits_above_log2 x n) by lia. apply andb_false_r.
Qed.

Lemma lor_high_low c k x :
  0 <= k -> 0 <= x < 2 ^ k -> Z.lor (c * 2 ^ k) x = c * 2 ^ k + x.
Proof.
  intros Hk Hx. pose proof (land_high_low c k x Hk Hx) as H.
  rewrite <- Z.lxor_lor by exact H. symmetry. apply Z.add_nocarry_lxor. exact H.
Qed.

Lemma bor_high_low c k x :
  0 <= k -> 0 <= x < 2 ^ k -> 0 <= c -> c * 2 ^ k + x < 2 ^ 31 ->
  bor (c * 2 ^ k) x = c * 2 ^ k + x.
Proof.
  intros Hk Hx Hc Hb. unfold bor.
  assert (0 <= c * 2 ^ k) by (apply Z.mul_nonneg_nonneg; lia).
  rewrite !ToInt32_small by (unfold int32; lia).
  apply lor_high_low; assumption.
Qed.

Lemma sar_div x n : 0 <= x < 2 ^ 31 -> 0 <= n < 32 -> sar x n = x / 2 ^ n.
Proof.
  intros Hx Hn. unfold sar. rewrite ToInt32_small by (unfold int32; lia).
  rewrite Z.mod_small by lia. apply Z.shiftr_div_pow2. lia.
Qed.

Lemma band_ones x k :
  0 <= x < 2 ^ 31 -> 0 <= k < 31 -> band x (2 ^ k - 1) = x mod 2 ^ k.
Proof.
  intros Hx Hk. unfold band.
  assert (0 < 2 ^ k) by (apply Z.pow_pos_nonneg; lia).
  assert (2 ^ k <= 2 ^ 30) by (apply Z.pow_le_mono_r; lia).
  rewrite !ToInt32_small by (unfold int32; lia).
  replace (2 ^ k - 1) with (Z.ones k) by (rewrite Z.ones_equiv; lia).
  apply Z.land_ones. lia.
Qed.

Lemma band_3f x : 0 <= x < 2 ^ 31 -> band x 0x3f = x mod 64.
Proof. intros H. apply (band_ones x 6); lia. Qed.

Lemma band_3ff x : 0 <= x < 2 ^ 31 -> band x 0x3ff = x mod 1024.
Proof. intros H. apply (band_ones x 10); lia. Qed.

Lemma shl_mul x n :
  0 <= x -> 0 <= n < 32 -> x * 2 ^ n < 2 ^ 31 -> shl x n = x * 2 ^ n.
Proof.
  intros Hx Hn Hb. unfold shl.
  assert (0 < 2 ^ n) by (apply Z.pow_pos_nonneg; lia).
  assert (x < 2 ^ 31) by nia.
  rewrite (ToInt32_small x) by (unfold int32; lia).
  rewrite Z.mod_small by lia. rewrite Z.shiftl_mul_pow2 by lia.
  apply ToInt32_small. unfold int32. nia.
Qed.

(** ** The encoder of the digest engine *)

Lemma push2_utf8 u :
  0x80 <= u < 0x800 ->
  [bor 0xc0 (sar u 6); bor 0x80 (band u 0x3f)] = utf8_2 u.
Proof.
  intros Hu. unfold utf8_2.
  rewrite sar_div by lia. rewrite band_3f by lia.
  change (2 ^ 6) with 64.
  assert (0 <= u / 64 < 32) by (Z.div_mod_to_equations; lia).
  assert (0 <= u mod 64 < 64) by (apply Z.mod_pos_bound; lia).
  rewrite (bor_high_low 3 6) by (change (2 ^ 6) with 64; lia).
  rewrite (bor_high_low 2 6) by (change (2 ^ 6) with 64; lia).
  reflexivity.
Qed.

Lemma push3_utf8 u :
  0x800 <= u < 0x10000 ->
  [bor 0xe0 (sar u 12); bor 0x80 (band (sar u 6) 0x3f); bor 0x80 (band u 0x3f)] = utf8_3 u.
Proof.
  intros Hu. unfold utf8_3.
  rewrite !sar_div by lia. change (2 ^ 12) with 4096. change (2 ^ 6) with 64.
  assert (0 <= u / 4096 < 16) by (Z.div_mod_to_equations; lia).
  assert (0 <= u / 64 < 1024) by (Z.div_mod_to_equations; lia).
  rewrite !band_3f by lia.
  assert (0 <= (u / 64) mod 64 < 64) by (apply Z.mod_pos_bound; lia).
  assert (0 <= u mod 64 < 64) by (apply Z.mod_pos_bound; lia).
  rewrite (bor_high_low 7 5) by (change (2 ^ 5) with 32; lia).
  rewrite !(bor_high_low 2 6) by (change (2 ^ 6) with 64; lia).
  reflexivity.
Qed.

(** The code point the engine computes from a surrogate [u] and the unit
    [u2] that follows it, whatever [u2] is. *)
Lemma codePoint_arith u u2 :
  0 <= u < 0x10000 -> 0 <= u2 < 0x10000 ->
  0x10000 + bor (shl (band u 0x3ff) 10) (band u2 0x3ff)
  = 0x10000 + (u mod 1024) * 1024 + u2 mod 1024.
Proof.
  intros Hu Hu2.
  rewrite !band_3ff by lia.
  assert (0 <= u mod 1024 < 1024) by (apply Z.mod_pos_bound; lia).
  assert (0 <= u2 mod 1024 < 1024) by (apply Z.mod_pos_bound; lia).
  rewrite shl_mul by (change (2 ^ 10) with 1024; lia).
  rewrite (bor_high_low (u mod 1024) 10) by (change (2 ^ 10) with 1024; lia).
  change (2 ^ 10) with 1024. lia.
Qed.

Lemma push4_utf8 cp :
  0x10000 <= cp < 0x110000 ->
  [bor 0xf0 (sar cp 18); bor 0x80 (band (sar cp 12) 0x3f);
   bor 0x80 (band (sar cp 6) 0x3f); bor 0x80 (band cp 0x3f)] = utf8_4 cp.
Proof.
  intros Hc. unfold utf8_4.
  rewrite !sar_div by lia.
  change (2 ^ 18) with 262144. change (2 ^ 12) with 4096. change (2 ^ 6) with 64.
  assert (0 <= cp / 262144 < 8) by (Z.div_mod_to_equations; lia).
  assert (0 <= cp / 4096 < 1024) by (Z.div_mod_to_equations; lia).
  assert (0 <= cp / 64 < 65536) by (Z.div_mod_to_equations; lia).
  rewrite !band_3f by lia.
  assert (0 <= (cp / 4096) mod 64 < 64) by (apply Z.mod_pos_bound; lia).
  assert (0 <= (cp / 64) mod 64 < 64) by (apply Z.mod_pos_bound; lia).
  assert (0 <= cp mod 64 < 64) by (apply Z.mod_pos_bound; lia).
  rewrite (bor_high_low 15 4) by (change (2 ^ 4) with 16; lia).
  rewrite !(bor_high_low 2 6) by (change (2 ^ 6) with 64; lia).
  reflexivity.
Qed.

Lemma stringToBytes_push_cons c rest :
  stringToBytes_push (c :: rest) =
  let char := charCode c in
  if char <? 0x80 then char :: stringToBytes_push rest
  else if char <? 0x800 then
    bor 0xc0 (sar char 6) :: bor 0x80 (band char 0x3f) :: stringToBytes_push rest
  else if (char <? 0xd800) || (0xe000 <=? char) then
    bor 0xe0 (sar char 12) :: bor 0x80 (band (sar char 6) 0x3f)
    :: bor 0x80 (band char 0x3f) :: stringToBytes_push rest
  else
    let quad (low10 : Z) :=
      let codePoint := 0x10000 + bor (shl (band char 0x3ff) 10) low10 in
      [ bor 0xf0 (sar codePoint 18);
        bor 0x80 (band (sar codePoint 12) 0x3f);
        bor 0x80 (band (sar codePoint 6) 0x3f);
        bor 0x80 (band codePoint 0x3f) ] in
    match rest with
    | [] => quad 0
    | c2 :: rest' => quad (band (charCode c2) 0x3ff) ++ stringToBytes_push rest'
    end.
Proof. reflexivity. Qed.

Lemma Buffer_from_utf8_cons c rest :
  Buffer_from_utf8 (c :: rest) =
  let u := charCode c in
  if u <? 0x80 then utf8_1 u ++ Buffer_from_utf8 rest
  else if u <? 0x800 then utf8_2 u ++ Buffer_from_utf8 rest
  else if isHighSurrogate u then
    match rest with
    | c2 :: rest' =>
        if isLowSurrogate (charCode c2) then
          utf8_4 (0x10000 + (u - 0xD800) * 1024 + (charCode c2 - 0xDC00))
          ++ Buffer_from_utf8 rest'
        else utf8_3 0xFFFD ++ Buffer_from_utf8 rest
    | [] => utf8_3 0xFFFD
    end
  else if isLowSurrogate u then utf8_3 0xFFFD ++ Buffer_from_utf8 rest
  else utf8_3 u ++ Buffer_from_utf8 rest.
Proof. reflexivity. Qed.

Lemma wellFormed_cons c rest :
  wellFormed (c :: rest) =
  if isHighSurrogate (charCode c) then
    match rest with
    | c2 :: rest' => isLowSurrogate (charCode c2) && wellFormed rest'
    | [] => false
    end
  else negb (isLowSurrogate (charCode c)) && wellFormed rest.
Proof. reflexivity. Qed.

Lemma push_utf8_wellFormed : forall n s,
  (length s <= n)%nat -> wellFormed s = true ->
  stringToBytes_push s = Buffer_from_utf8 s.
Proof.
  induction n as [|n IH]; intros s Hn Hw.
  - destruct s; [reflexivity | cbn in Hn; lia].
  - destruct s as [|c rest]; [reflexivity|].
    cbn [length] in Hn.
    rewrite stringToBytes_push_cons, Buffer_from_utf8_cons.
    rewrite wellFormed_cons in Hw. cbv zeta.
    pose proof (charCode_range c) as Hc.
    unfold isHighSurrogate, isLowSurrogate in *.
    destruct (charCode c <? 128) eqn:E1.
    { destruct ((55296 <=? charCode c) && (charCode c <? 56320)) eqn:E2;
        revert Hw; range_cases; intros Hw; try lia;
        apply andb_true_iff in Hw; destruct Hw as [_ Hw];
        unfold utf8_1; cbn [app]; rewrite IH by (assumption || lia); reflexivity. }
    destruct (charCode c <? 2048) eqn:E2.
    { destruct ((55296 <=? charCode c) && (charCode c <? 56320)) eqn:E3;
        revert Hw; range_cases; intros Hw; try lia;
        apply andb_true_iff in Hw; destruct Hw as [_ Hw];
        rewrite <- push2_utf8 by lia; cbn [app]; rewrite IH by (assumption || lia);
        reflexivity. }
    destruct ((55296 <=? charCode c) && (charCode c <? 56320)) eqn:E3.
    { revert Hw; range_cases; intros Hw.
      replace ((charCode c <? 55296) || (57344 <=? charCode c)) with false
        by (symmetry; apply orb_false_iff; split; [apply Z.ltb_ge | apply Z.leb_gt]; lia).
      destruct rest as [|c2 rest']; [discriminate Hw|].
      apply andb_true_iff in Hw. destruct Hw as [Hl Hw]. rewrite Hl.
      pose proof (charCode_range c2) as Hc2.
      apply andb_true_iff in Hl. destruct Hl as [Hl1 Hl2].
      apply Z.leb_le in Hl1. apply Z.ltb_lt in Hl2.
      rewrite codePoint_arith by lia.
      replace (65536 + charCode c mod 1024 * 1024 + charCode c2 mod 1024)
        with (65536 + (charCode c - 55296) * 1024 + (charCode c2 - 56320))
        by (Z.div_mod_to_equations; lia).
      rewrite push4_utf8 by lia.
      cbn [length] in Hn. rewrite IH by (assumption || lia). reflexivity. }
    apply andb_true_iff in Hw. destruct Hw as [Hl Hw].
    apply negb_true_iff in Hl. rewrite Hl.
    assert (Hns : charCode c < 55296 \/ 57344 <= charCode c).
    { apply andb_false_iff in Hl. apply andb_false_iff in E3.
      apply Z.ltb_ge in E1, E2.
      destruct Hl as [Hl | Hl]; destruct E3 as [E3 | E3];
        try apply Z.leb_gt in Hl; try apply Z.ltb_ge in Hl;
        try apply Z.leb_gt in E3; try apply Z.ltb_ge in E3; lia. }
    replace ((charCode c <? 55296) || (57344 <=? charCode c)) with true
      by (symmetry; apply orb_true_iff;
          destruct Hns; [left; apply Z.ltb_lt | right; apply Z.leb_le]; lia).
    apply Z.ltb_ge in E2.
    rewrite <- push3_utf8 by lia.
    cbn [app]. rewrite IH by (assumption || lia). reflexivity.
Qed.

Lemma ToUint8_isByte l : Forall isByte l -> map ToUint8 l = l.
Proof.
  induction 1 as [|x l Hx Hl IH]; [reflexivity|].
  cbn [map]. rewrite IH. f_equal. unfold ToUint8. apply Z.mod_small. exact Hx.
Qed.

(** X1.  On a string in which every surrogate is half of a pair, the
    bytes that [stringToBytes] hands to the digest are the UTF-8 encoding
    of the string, the bytes of [Buffer.from(s, 'utf8')]. *)
Theorem stringToBytes_is_utf8 (s : jsstring) :
  wellFormed s = true -> stringToBytes s = Buffer_from_utf8 s.
Proof.
  intros Hw. unfold stringToBytes.
  rewrite (push_utf8_wellFormed (length s) s (Nat.le_refl _) Hw).
  apply ToUint8_isByte, Buffer_from_utf8_isByte.
Qed.


(** ** Collisions through the surrogate branch *)

Lemma stringToBytes_surrogate_low10 c c2 c2' rest :
  0xD800 <= charCode c < 0xE000 ->
  (charCode c2) mod 1024 = (charCode c2') mod 1024 ->
  stringToBytes (c :: c2 :: rest) = stringToBytes (c :: c2' :: rest).
Proof.
  intros Hc Hm. unfold stringToBytes. apply (f_equal (map ToUint8)).
  rewrite (stringToBytes_push_cons c (c2 :: rest)), (stringToBytes_push_cons c (c2' :: rest)).
  cbv beta iota zeta.
  replace (charCode c <? 128) with false by (symmetry; apply Z.ltb_ge; lia).
  replace (charCode c <? 2048) with false by (symmetry; apply Z.ltb_ge; lia).
  replace ((charCode c <? 55296) || (57344 <=? charCode c)) with false
    by (symmetry; apply orb_false_iff; split; [apply Z.ltb_ge | apply Z.leb_gt]; lia).
  pose proof (charCode_range c2). pose proof (charCode_range c2').
  rewrite !(band_3ff (charCode c2)), !(band_3ff (charCode c2')) by lia.
  rewrite Hm. reflexivity.
Qed.

(** X2.  The surrogate branch of [stringToBytes] does not look at what
    follows: after any code unit from 0xD800 to 0xDFFF only the low ten
    bits of the next code unit are read.  Two strings that differ there in
    the upper six bits alone have the same digest. *)
Theorem sha256_surrogate_collision (c c2 c2' : char16) (rest : jsstring) :
  0xD800 <= charCode c < 0xE000 ->
  (charCode c2) mod 1024 = (charCode c2') mod 1024 ->
  sha256 (c :: c2 :: rest) = sha256 (c :: c2' :: rest).
Proof.
  intros Hc Hm. unfold sha256, hashWords, paddedWords, stringToWords.
  rewrite (stringToBytes_surrogate_low10 c c2 c2' rest Hc Hm). reflexivity.
Qed.

Lemma sha256_surrogate_collision_witness :
  0xD800 <= charCode (fromCharCode 0xD800) < 0xE000
  /\ (charCode (fromCharCode 0x41)) mod 1024 = (charCode (fromCharCode 0xDC41)) mod 1024
  /\ fromCharCode 0x41 <> fromCharCode 0xDC41
  /\ sha256 (fromCharCode 0xD800 :: fromCharCode 0x41 :: lit "bc")
     = sha256 (fromCharCode 0xD800 :: fromCharCode 0xDC41 :: lit "bc").
Proof.
  split; [vm_compute; split; [discriminate | reflexivity]|].
  split; [vm_compute; reflexivity|].
  split; [vm_compute; intros E; discriminate E|].
  apply (sha256_surrogate_collision (fromCharCode 0xD800) (fromCharCode 0x41)
           (fromCharCode 0xDC41) (lit "bc")).
  - vm_compute. split; [discriminate | reflexivity].
  - vm_compute. reflexivity.
Defined.

(** ** Printing a word and reading it back *)

Lemma hexDigits_zero k : hexDigits k 0 = repeat (fromCharCode 48) k.
Proof.
  induction k as [|k IH]; [reflexivity|].
  cbn [hexDigits]. change (0 / 16) with 0. change (0 mod 16) with 0.
  rewrite IH. change [hexDigit 0] with [fromCharCode 48].
  rewrite repeat_snoc. reflexivity.
Qed.

Lemma toString16_aux_pad k : forall f x,
  0 <= x < 16 ^ Z.of_nat (S k) -> x < 16 ^ Z.of_nat (S f) ->
  padStart (toString16_aux f x) (S k) (fromCharCode 48) = hexDigits (S k) x.
Proof.
  induction k as [|k IH]; intros f x Hx Hf.
  - change (16 ^ Z.of_nat 1) with 16 in Hx.
    assert (E : toString16_aux f x = [hexDigit x]).
    { destruct f; cbn [toString16_aux].
      - rewrite Z.mod_small by lia. reflexivity.
      - replace (x <? 16) with true by (symmetry; apply Z.ltb_lt; lia). reflexivity. }
    rewrite E. cbn [hexDigits]. unfold padStart. cbn.
    rewrite Z.mod_small by lia. reflexivity.
  - assert (Hsmall : x < 16 ->
              padStart [hexDigit x] (S (S k)) (fromCharCode 48) = hexDigits (S (S k)) x).
    { intros Hlt. change (hexDigits (S (S k)) x)
        with (hexDigits (S k) (x / 16) ++ [hexDigit (x mod 16)]).
      rewrite Z.div_small, Z.mod_small by lia. rewrite hexDigits_zero.
      unfold padStart. cbn [length Nat.sub]. reflexivity. }
    destruct f as [|f].
    + change (16 ^ Z.of_nat 1) with 16 in Hf. cbn [toString16_aux].
      rewrite Z.mod_small by lia. apply Hsmall. lia.
    + cbn [toString16_aux]. destruct (x <? 16) eqn:E.
      * apply Z.ltb_lt in E. apply Hsmall. exact E.
      * apply Z.ltb_ge in E.
        replace (Z.of_nat (S (S k))) with (Z.succ (Z.of_nat (S k))) in Hx by lia.
        replace (Z.of_nat (S (S f))) with (Z.succ (Z.of_nat (S f))) in Hf by lia.
        rewrite Z.pow_succ_r in Hx, Hf by lia.
        assert (H1 : 0 <= x / 16 < 16 ^ Z.of_nat (S k))
          by (split; [apply Z.div_pos; lia | apply Z.div_lt_upper_bound; lia]).
        assert (H2 : x / 16 < 16 ^ Z.of_nat (S f))
          by (apply Z.div_lt_upper_bound; lia).
        specialize (IH f (x / 16) H1 H2).
        change (hexDigits (S (S k)) x)
          with (hexDigits (S k) (x / 16) ++ [hexDigit (x mod 16)]).
        rewrite <- IH. unfold padStart. rewrite length_app. cbn [length].
        rewrite <- app_assoc. f_equal. f_equal. lia.
Qed.

Lemma toString16_fuel x : 0 <= x -> x < 16 ^ Z.of_nat (S (Z.to_nat (Z.log2 x))).
Proof.
  intros Hx. destruct (Z.eq_dec x 0) as [-> | Hn]; [reflexivity|].
  pose proof (Z.log2_nonneg x) as Hl.
  destruct (Z.log2_spec x) as [_ Hu]; [lia|].
  eapply Z.lt_le_trans; [exact Hu|].
  replace 16 with (2 ^ 4) by reflexivity. rewrite <- Z.pow_mul_r by lia.
  apply Z.pow_le_mono_r; lia.
Qed.

Lemma padStart_toString16 k x :
  0 <= x < 16 ^ Z.of_nat (S k) ->
  padStart (toString16 x) (S k) (fromCharCode 48) = hexDigits (S k) x.
Proof.
  intros Hx. unfold toString16. apply toString16_aux_pad; [exact Hx|].
  apply toString16_fuel. lia.
Qed.

Lemma hexWord_digits x : word32 x -> hexWord x = hexDigits 8 x.
Proof. intros Hx. apply (padStart_toString16 7). exact Hx. Qed.

Lemma in_range16 d : 0 <= d < 16 -> In (Z.to_nat d) (seq 0 16).
Proof. intros H. apply in_seq. lia. Qed.

Lemma parseInt16_pair a b :
  0 <= a < 16 -> 0 <= b < 16 ->
  parseInt16 [hexDigit a; hexDigit b] = Some (16 * a + b).
Proof.
  intros Ha Hb.
  assert (H : forallb (fun i => forallb (fun j =>
              match parseInt16 [hexDigit (Z.of_nat i); hexDigit (Z.of_nat j)] with
              | Some v => v =? 16 * Z.of_nat i + Z.of_nat j
              | None => false
              end) (seq 0 16)) (seq 0 16) = true) by (vm_compute; reflexivity).
  rewrite forallb_forall in H. specialize (H _ (in_range16 a Ha)).
  rewrite forallb_forall in H. specialize (H _ (in_range16 b Hb)).
  rewrite !Z2Nat.id in H by lia.
  destruct (parseInt16 [hexDigit a; hexDigit b]); [|discriminate H].
  apply Z.eqb_eq in H. rewrite H. reflexivity.
Qed.

Lemma join_nil_cons (p : jsstring) tl : join [] (p :: tl) = p ++ join [] tl.
Proof. destruct tl; cbn [join app]; [rewrite app_nil_r|]; reflexivity. Qed.


Lemma hexPairs_word x tail :
  word32 x ->
  map byteOfPair (hexPairs (hexDigits 8 x ++ tail))
  = bytesOfWord x ++ map byteOfPair (hexPairs tail).
Proof.
  intros Hx. unfold word32 in Hx. change (2 ^ 32) with 4294967296 in Hx.
  cbn [hexDigits app hexPairs map]. unfold byteOfPair.
  rewrite !parseInt16_pair by (apply Z.mod_pos_bound; lia).
  cbn [nanTo0]. unfold bytesOfWord, ToUint8.
  change (2 ^ 24) with 16777216. change (2 ^ 16) with 65536. change (2 ^ 8) with 256.
  cbn [app].
  repeat (apply (f_equal2 (@cons Z))); try reflexivity; Z.div_mod_to_equations; lia.
Qed.

Lemma hexPairs_words ws :
  Forall word32 ws ->
  map byteOfPair (hexPairs (join [] (map hexWord ws))) = bytesOfWords ws.
Proof.
  induction 1 as [|x ws Hx Hws IH]; [reflexivity|].
  cbn [map]. rewrite join_nil_cons, hexWord_digits by exact Hx.
  rewrite hexPairs_word by exact Hx. rewrite IH. reflexivity.
Qed.

Lemma bytesOfWords_len ws : length (bytesOfWords ws) = (4 * length ws)%nat.
Proof.
  induction ws as [|x ws IH]; [reflexivity|].
  unfold bytesOfWords in *. cbn [flat_map]. rewrite length_app, IH. cbn [bytesOfWord length]. lia.
Qed.

(** X5.  [sha256Bytes] returns the 32 bytes of the eight state words,
    each word big-endian: printing the words in hexadecimal and reading
    the pairs of digits back with [parseInt] loses nothing. *)
Theorem sha256Bytes_state_words (m : jsstring) :
  sha256Bytes m = bytesOfWords (hashWords m)
  /\ length (sha256Bytes m) = 32%nat
  /\ Forall isByte (sha256Bytes m).
Proof.
  destruct (hashWords_word32 m) as [Hl Hw].
  assert (E : sha256Bytes m = bytesOfWords (hashWords m)).
  { unfold sha256Bytes, bytesFromHex. rewrite sha256_length.
    unfold sha256. rewrite hexPairs_words by exact Hw.
    apply firstn_all2. rewrite bytesOfWords_len, Hl. reflexivity. }
  split; [exact E|]. split.
  - rewrite E, bytesOfWords_len, Hl. reflexivity.
  - rewrite E. unfold bytesOfWords. apply Forall_flat_map.
    apply Forall_forall. intros x _. unfold bytesOfWord, isByte.
    repeat constructor; apply Z.mod_pos_bound; lia.
Qed.


(** ** Where the padding is the standard's *)

Lemma packWord_1 a : isByte a -> packWord [a] = a.
Proof.
  unfold isByte. intros Ha. unfold packWord. cbn [fold_left].
  rewrite shr0. change (shl 0 8) with 0. cbn [Z.add].
  change (2 ^ 32) with 4294967296. apply Z.mod_small. lia.
Qed.

Lemma packWord_2 a b : isByte a -> isByte b -> packWord [a; b] = a * 2 ^ 8 + b.
Proof.
  unfold isByte. intros Ha Hb. unfold packWord. cbn [fold_left].
  rewrite shr0. rewrite !push_byte_mod. change (shl 0 8) with 0. cbn [Z.add].
  change (2 ^ 32) with 4294967296. change (2 ^ 8) with 256.
  rewrite (Z.mod_small a) by lia. apply Z.mod_small. lia.
Qed.

Lemma packWord_3 a b c :
  isByte a -> isByte b -> isByte c -> packWord [a; b; c] = a * 2 ^ 16 + b * 2 ^ 8 + c.
Proof.
  unfold isByte. intros Ha Hb Hc. unfold packWord. cbn [fold_left].
  rewrite shr0. rewrite !push_byte_mod. change (shl 0 8) with 0. cbn [Z.add].
  change (2 ^ 32) with 4294967296. change (2 ^ 16) with 65536. change (2 ^ 8) with 256.
  rewrite (Z.mod_small a) by lia.
  rewrite (Z.mod_small (a * 256 + b)) by lia.
  rewrite Z.mod_small by lia. lia.
Qed.

(** The last, incomplete group of bytes is packed to the right of its
    word: the byte that follows the message in the word array is not the
    marker 0x80. *)
Lemma unaligned_marker : forall n bytes W,
  length bytes = n -> Forall (fun b => 0 <= b < 128) bytes ->
  (n mod 4 <> 0)%nat ->
  nth n (bytesOfWords (wordsOfBytes bytes ++ W)) 0 <> 128.
Proof.
  induction n as [n IH] using lt_wf_ind. intros bytes W Hn Hb Hm.
  destruct bytes as [|a [|b [|c [|d l]]]]; cbn [length] in Hn; subst n.
  - exfalso. apply Hm. reflexivity.
  - inversion Hb as [|? ? Ha _]; subst.
    cbn [wordsOfBytes app]. unfold bytesOfWords. cbn [flat_map].
    rewrite packWord_1 by (unfold isByte; lia).
    unfold bytesOfWord. cbn [app nth].
    change (2 ^ 16) with 65536. Z.div_mod_to_equations. lia.
  - inversion Hb as [|? ? Ha Hb1]; subst. inversion Hb1 as [|? ? Hb' _]; subst.
    cbn [wordsOfBytes app]. unfold bytesOfWords. cbn [flat_map].
    rewrite packWord_2 by (unfold isByte; lia).
    unfold bytesOfWord. cbn [app nth].
    change (2 ^ 8) with 256. Z.div_mod_to_equations. lia.
  - inversion Hb as [|? ? Ha Hb1]; subst. inversion Hb1 as [|? ? Hb' Hb2]; subst.
    inversion Hb2 as [|? ? Hc _]; subst.
    cbn [wordsOfBytes app]. unfold bytesOfWords. cbn [flat_map].
    rewrite packWord_3 by (unfold isByte; lia).
    unfold bytesOfWord. cbn [app nth].
    change (2 ^ 16) with 65536. change (2 ^ 8) with 256. Z.div_mod_to_equations. lia.
  - inversion Hb as [|? ? Ha Hb1]; subst. inversion Hb1 as [|? ? Hb' Hb2]; subst.
    inversion Hb2 as [|? ? Hc Hb3]; subst. inversion Hb3 as [|? ? Hd Hl]; subst.
    cbn [wordsOfBytes app]. unfold bytesOfWords. cbn [flat_map].
    unfold bytesOfWord at 1. cbn [app nth].
    apply (IH (length l)); [lia | reflexivity | exact Hl|].
    intros E. apply Hm.
    replace (S (S (S (S (length l))))) with (length l + 1 * 4)%nat by lia.
    rewrite Nat.Div0.mod_add. exact E.
Qed.

Lemma ascii_bytes m :
  forallb isAscii m = true -> Forall (fun b => 0 <= b < 128) (map charCode m).
Proof.
  intros H. apply Forall_map, Forall_forall. intros c Hc.
  rewrite forallb_forall in H. specialize (H c Hc). unfold isAscii in H.
  apply Z.ltb_lt in H. pose proof (charCode_range c). lia.
Qed.

Lemma paddedWords_body m :
  paddedWords m
  = stringToWords m
    ++ [0x80000000]
    ++ repeat 0 (Z.to_nat ((14 - Z.of_nat (length (stringToWords m) + 1)) mod 16))
    ++ [Z.of_nat (length m) * 8 / 2 ^ 32; (Z.of_nat (length m) * 8) mod 2 ^ 32].
Proof.
  unfold paddedWords.
  rewrite padTo14_repeat
    by (pose proof (Z.mod_pos_bound (14 - Z.of_nat (length (stringToWords m ++ [2147483648]))) 16);
        cbn [Z.of_nat]; lia).
  rewrite shr0, length_app. cbn [length]. rewrite <- !app_assoc. reflexivity.
Qed.

(** X3.  For a message of ASCII characters (shorter than 2^61
    characters) the padded message of the engine is the padding of the
    standard exactly when the length is a multiple of four; on every other
    ASCII message the byte after the message is not the marker 0x80. *)
Theorem padding_is_standard_iff_aligned (message : jsstring) :
  forallb isAscii message = true ->
  Z.of_nat (length message) * 8 < 2 ^ 64 ->
  (bytesOfWords (paddedWords message) = standardPadding (stringToBytes message)
   <-> (length message mod 4 = 0)%nat).
Proof.
  intros Ha HL. split.
  - intros E. destruct (Nat.eq_dec (length message mod 4) 0) as [H | H]; [exact H|].
    exfalso.
    assert (Hb : stringToBytes message = map charCode message)
      by (apply stringToBytes_ascii, Ha).
    assert (HR : nth (length (map charCode message))
                     (standardPadding (map charCode message)) 0 = 128).
    { unfold standardPadding.
      rewrite zeroFill_repeat
        by (pose proof (Z.mod_pos_bound
                          (56 - Z.of_nat (length (map charCode message ++ [128]))) 64);
            cbn [Z.of_nat]; lia).
      rewrite <- !app_assoc. cbn [app]. apply nth_middle. }
    assert (HN : nth (length (map charCode message))
                     (bytesOfWords (paddedWords message)) 0 <> 128).
    { rewrite paddedWords_body. unfold stringToWords at 1. rewrite Hb.
      apply unaligned_marker;
        [reflexivity | apply ascii_bytes, Ha | rewrite length_map; exact H]. }
    apply HN. rewrite E, Hb. exact HR.
  - intros H. apply paddedWords_standard_aligned_ascii; assumption.
Qed.

Lemma padding_is_standard_iff_aligned_witness :
  forallb isAscii (lit "abc") = true
  /\ Z.of_nat (length (lit "abc")) * 8 < 2 ^ 64
  /\ (bytesOfWords (paddedWords (lit "abc")) = standardPadding (stringToBytes (lit "abc"))
      <-> (length (lit "abc") mod 4 = 0)%nat).
Proof.
  split; [vm_compute; reflexivity|]. split; [vm_compute; reflexivity|].
  apply (padding_is_standard_iff_aligned (lit "abc")); vm_compute; reflexivity.
Defined.

(** X4.  The padded message is always a whole number of 16-word blocks:
    the message words, the word 0x80000000, fewer than 16 zero words, and
    the two words of the 64-bit number 8 * message.length, which counts
    UTF-16 code units. *)
Theorem padded_message_shape (message : jsstring) :
  Z.of_nat (length (paddedWords message)) mod 16 = 0
  /\ exists zeros,
       (zeros < 16)%nat
       /\ paddedWords message
          = stringToWords message ++ [0x80000000] ++ repeat 0 zeros
            ++ [Z.of_nat (length message) * 8 / 2 ^ 32;
                (Z.of_nat (length message) * 8) mod 2 ^ 32].
Proof.
  split; [apply paddedWords_blocks|].
  exists (Z.to_nat ((14 - Z.of_nat (length (stringToWords message) + 1)) mod 16)).
  split; [|apply paddedWords_body].
  pose proof (Z.mod_pos_bound (14 - Z.of_nat (length (stringToWords message) + 1)) 16).
  lia.
Qed.


(** ** The comparator as a relation *)

Lemma compareBytes_sym a b :
  Forall isByte a -> Forall isByte b -> compareBytes a b = compareBytes b a.
Proof.
  intros Ha Hb.
  apply (bool_eq_iff _ _ _ (compareBytes_true_iff a b Ha Hb)).
  rewrite (compareBytes_true_iff b a Hb Ha). rewrite (Nat.max_comm (length b)).
  split; intros [Hl Hn]; (split; [symmetry; exact Hl | intros j Hj; symmetry; apply Hn; exact Hj]).
Qed.

(** X6.  [timeSafeCompare] and [constantTimeCompare] answer [true] on
    two equal arguments, and their answer does not depend on the order of
    the arguments. *)
Theorem timeSafeCompare_reflexive_symmetric (a b : jsstring) :
  timeSafeCompare a a = true
  /\ timeSafeCompare a b = timeSafeCompare b a
  /\ constantTimeCompare a a = true
  /\ constantTimeCompare a b = constantTimeCompare b a.
Proof.
  assert (Hs : timeSafeCompare a b = timeSafeCompare b a)
    by (rewrite !timeSafeCompare_bytes; apply compareBytes_sym; apply Buffer_from_utf8_isByte).
  split; [apply timeSafeCompare_refl|]. split; [exact Hs|].
  unfold constantTimeCompare. rewrite Nat.eqb_refl. cbn [negb].
  split; [apply timeSafeCompare_refl|].
  rewrite (Nat.eqb_sym (length b)), Hs. reflexivity.
Qed.

(** ** Decoding what the encoder produces *)

Lemma fromCharCode_charCode c : fromCharCode (charCode c) = c.
Proof.
  apply charCode_inj. rewrite charCode_fromCharCode.
  apply Z.mod_small. apply charCode_range.
Qed.

Ltac decide_ltb :=
  repeat match goal with
  | |- context [?a <? ?b] =>
      first [ replace (a <? b) with true by (symmetry; apply Z.ltb_lt; Z.div_mod_to_equations; lia)
            | replace (a <? b) with false by (symmetry; apply Z.ltb_ge; Z.div_mod_to_equations; lia) ]
  end.

Lemma decode_1 u tail :
  0 <= u < 0x80 -> decodeUtf8 (utf8_1 u ++ tail) = fromCharCode u :: decodeUtf8 tail.
Proof.
  intros Hu. unfold utf8_1. cbn [app decodeUtf8]. decide_ltb. reflexivity.
Qed.

Lemma decode_2 u tail :
  0x80 <= u < 0x800 -> decodeUtf8 (utf8_2 u ++ tail) = fromCharCode u :: decodeUtf8 tail.
Proof.
  intros Hu. unfold utf8_2. cbn [app decodeUtf8]. decide_ltb.
  do 2 f_equal. Z.div_mod_to_equations. lia.
Qed.

Lemma decode_3 u tail :
  0x800 <= u < 0x10000 -> decodeUtf8 (utf8_3 u ++ tail) = fromCharCode u :: decodeUtf8 tail.
Proof.
  intros Hu. unfold utf8_3. cbn [app decodeUtf8]. decide_ltb.
  do 2 f_equal. Z.div_mod_to_equations. lia.
Qed.

Lemma decode_4 u u2 tail :
  0xD800 <= u < 0xDC00 -> 0xDC00 <= u2 < 0xE000 ->
  decodeUtf8 (utf8_4 (0x10000 + (u - 0xD800) * 1024 + (u2 - 0xDC00)) ++ tail)
  = fromCharCode u :: fromCharCode u2 :: decodeUtf8 tail.
Proof.
  intros Hu Hu2. unfold utf8_4. cbn [app decodeUtf8]. decide_ltb.
  set (cp := 65536 + (u - 55296) * 1024 + (u2 - 56320)).
  assert (Hcp : 65536 <= cp < 1114112) by (unfold cp; lia).
  replace ((240 + cp / 262144 - 240) * 262144 + (128 + (cp / 4096) mod 64 - 128) * 4096
           + (128 + (cp / 64) mod 64 - 128) * 64 + (128 + cp mod 64 - 128))
    with cp by (Z.div_mod_to_equations; lia).
  replace (55296 + (cp - 65536) / 1024) with u by (unfold cp; Z.div_mod_to_equations; lia).
  replace (56320 + (cp - 65536) mod 1024) with u2 by (unfold cp; Z.div_mod_to_equations; lia).
  reflexivity.
Qed.

Lemma decode_encode : forall n s,
  (length s <= n)%nat -> wellFormed s = true -> decodeUtf8 (Buffer_from_utf8 s) = s.
Proof.
  induction n as [|n IH]; intros s Hn Hw.
  - destruct s; [reflexivity | cbn in Hn; lia].
  - destruct s as [|c rest]; [reflexivity|].
    cbn [length] in Hn.
    rewrite Buffer_from_utf8_cons. rewrite wellFormed_cons in Hw. cbv zeta.
    pose proof (charCode_range c) as Hc.
    unfold isHighSurrogate, isLowSurrogate in *.
    destruct (charCode c <? 128) eqn:E1.
    { apply Z.ltb_lt in E1.
      replace ((55296 <=? charCode c) && (charCode c <? 56320)) with false in Hw
        by (symmetry; apply andb_false_iff; left; apply Z.leb_gt; lia).
      apply andb_true_iff in Hw. destruct Hw as [_ Hw].
      rewrite decode_1 by lia. rewrite IH by (assumption || lia).
      rewrite fromCharCode_charCode. reflexivity. }
    destruct (charCode c <? 2048) eqn:E2.
    { apply Z.ltb_ge in E1. apply Z.ltb_lt in E2.
      replace ((55296 <=? charCode c) && (charCode c <? 56320)) with false in Hw
        by (symmetry; apply andb_false_iff; left; apply Z.leb_gt; lia).
      apply andb_true_iff in Hw. destruct Hw as [_ Hw].
      rewrite decode_2 by lia. rewrite IH by (assumption || lia).
      rewrite fromCharCode_charCode. reflexivity. }
    apply Z.ltb_ge in E1, E2.
    destruct ((55296 <=? charCode c) && (charCode c <? 56320)) eqn:E3.
    { apply andb_true_iff in E3. destruct E3 as [E3 E4].
      apply Z.leb_le in E3. apply Z.ltb_lt in E4.
      destruct rest as [|c2 rest']; [discriminate Hw|].
      apply andb_true_iff in Hw. destruct Hw as [Hl Hw]. rewrite Hl.
      apply andb_true_iff in Hl. destruct Hl as [Hl1 Hl2].
      apply Z.leb_le in Hl1. apply Z.ltb_lt in Hl2.
      rewrite decode_4 by lia. cbn [length] in Hn.
      rewrite IH by (assumption || lia).
      rewrite !fromCharCode_charCode. reflexivity. }
    apply andb_true_iff in Hw. destruct Hw as [Hl Hw].
    apply negb_true_iff in Hl. rewrite Hl.
    rewrite decode_3 by lia. rewrite IH by (assumption || lia).
    rewrite fromCharCode_charCode. reflexivity.
Qed.

Lemma utf8_injective a b :
  wellFormed a = true -> wellFormed b = true ->
  Buffer_from_utf8 a = Buffer_from_utf8 b -> a = b.
Proof.
  intros Ha Hb E.
  rewrite <- (decode_encode (length a) a (Nat.le_refl _) Ha).
  rewrite <- (decode_encode (length b) b (Nat.le_refl _) Hb).
  rewrite E. reflexivity.
Qed.

(** X7.  On strings in which every surrogate is half of a pair (and
    whose encodings are shorter than 2^32 bytes) both comparators decide
    equality of the strings themselves: the UTF-8 encoding is injective
    there. *)
Theorem timeSafeCompare_wellFormed_equality (a b : jsstring) :
  wellFormed a = true -> wellFormed b = true ->
  Z.of_nat (length (Buffer_from_utf8 a)) < 2 ^ 32 ->
  Z.of_nat (length (Buffer_from_utf8 b)) < 2 ^ 32 ->
  (timeSafeCompare a b = true <-> a = b)
  /\ (constantTimeCompare a b = true <-> a = b).
Proof.
  intros Ha Hb La Lb.
  assert (H : timeSafeCompare a b = true <-> a = b).
  { rewrite (timeSafeCompare_true_iff a b La Lb). split.
    - apply utf8_injective; assumption.
    - intros ->. reflexivity. }
  split; [exact H|].
  unfold constantTimeCompare.
  destruct (length a =? length b)%nat eqn:E; cbn [negb]; [exact H|].
  apply Nat.eqb_neq in E. split; [discriminate | intros ->; contradiction].
Qed.


(** ** The grammar of stored credentials *)

Lemma split_parts_noColon s : Forall noColon (split colon s).
Proof.
  induction s as [|c s IH]; [repeat constructor|].
  cbn [split]. destruct (char16_eqb c colon) eqn:E.
  - constructor; [reflexivity | exact IH].
  - destruct (split colon s) as [|p ps]; [repeat constructor; unfold noColon; cbn; rewrite E; reflexivity|].
    inversion IH as [|? ? Hp Hps]; subst. constructor; [|exact Hps].
    unfold noColon in *. cbn [forallb]. rewrite E, Hp. reflexivity.
Qed.

Lemma validateSalt_inv salt :
  validateSalt salt 8 128 = Ok tt -> 8 <= Z.of_nat (length salt) <= 128.
Proof.
  unfold validateSalt.
  destruct (Z.of_nat (length salt) <? 8) eqn:E1; cbn [throwIf bind]; [discriminate|].
  destruct (128 <? Z.of_nat (length salt)) eqn:E2; cbn [throwIf bind]; [discriminate|].
  intros _. apply Z.ltb_ge in E1, E2. lia.
Qed.

Lemma validateHash_inv hash : validateHash hash = Ok tt -> hexRegexTest hash = true.
Proof.
  unfold validateHash.
  destruct (length hash =? 0)%nat; cbn [throwIf bind]; [discriminate|].
  destruct (hexRegexTest hash); cbn [negb throwIf bind]; [reflexivity | discriminate].
Qed.

Section Grammar.

Variable JSON_parse : jsstring -> option json.

(** What a successful decoding tells about the text. *)
Lemma decode_inv s d :
  validateStoredHashFormat JSON_parse s = Ok d ->
  noColon (salt d) /\ 8 <= Z.of_nat (length (salt d)) <= 128
  /\ hexRegexTest (hash d) = true
  /\ ((s = salt d ++ [colon] ++ hash d /\ metadata d = None)
      \/ exists rest, s = salt d ++ [colon] ++ hash d ++ [colon] ++ rest
                      /\ metadata d = JSON_parse rest).
Proof.
  unfold validateStoredHashFormat.
  pose proof (join_split s) as Hj. pose proof (split_parts_noColon s) as Hn.
  destruct (split colon s) as [|p0 [|p1 ps]]; cbn [length Nat.ltb Nat.leb throwIf bind];
    [discriminate | discriminate |].
  cbn [nth skipn].
  destruct ((length p0 =? 0)%nat || (length p1 =? 0)%nat); cbn [throwIf bind]; [discriminate|].
  destruct (validateSalt p0 8 128) as [[]|e|] eqn:Es; cbn [bind]; [|discriminate|discriminate].
  destruct (validateHash p1) as [[]|e|] eqn:Eh; cbn [bind]; [|discriminate|discriminate].
  intros E. injection E as <-. cbn [salt hash metadata].
  pose proof (Forall_inv Hn) as Hp0.
  split; [exact Hp0|]. split; [apply validateSalt_inv, Es|].
  split; [apply validateHash_inv, Eh|].
  destruct ps as [|p2 ps].
  - left. split; [symmetry; exact Hj | reflexivity].
  - right. exists (join [colon] (p2 :: ps)). split; [|reflexivity].
    symmetry. exact Hj.
Qed.

(** X8.  The grammar of stored credentials.  [validateStoredHashFormat]
    returns the record [d] exactly when the text is [salt:hash] or
    [salt:hash:rest], the salt has no colon and 8 to 128 characters, the
    hash is a non-empty string of hexadecimal digits, and the metadata is
    absent in the first case and [JSON.parse(rest)] ([undefined] when it
    throws) in the second; [rest] may itself contain colons. *)
Theorem stored_hash_grammar (storedHash : jsstring) (d : StoredHash) :
  validateStoredHashFormat JSON_parse storedHash = Ok d
  <-> noColon (salt d) /\ 8 <= Z.of_nat (length (salt d)) <= 128
      /\ hexRegexTest (hash d) = true
      /\ ((storedHash = salt d ++ [colon] ++ hash d /\ metadata d = None)
          \/ exists rest, storedHash = salt d ++ [colon] ++ hash d ++ [colon] ++ rest
                          /\ metadata d = JSON_parse rest).
Proof.
  split; [apply decode_inv|].
  intros (Hs & Hl & Hx & H).
  assert (Hh : noColon (hash d)).
  { apply hex_noColon. unfold hexRegexTest in Hx. apply andb_true_iff in Hx. apply Hx. }
  destruct d as [a b m]. cbn [salt hash metadata] in *.
  destruct H as [[-> ->] | (rest & -> & ->)].
  - apply decode_two; assumption.
  - apply decode_three; assumption.
Qed.

(** The first two fields are checked in the same way whatever follows
    them. *)
Lemma decode_fields a b rest :
  noColon a -> noColon b ->
  validateStoredHashFormat JSON_parse (a ++ [colon] ++ b ++ [colon] ++ rest)
  = (d <- validateStoredHashFormat JSON_parse (a ++ [colon] ++ b) ;;
     Ok (MkStoredHash (salt d) (hash d) (JSON_parse rest))).
Proof.
  intros Ha Hb. unfold validateStoredHashFormat.
  cbn [app]. rewrite !(split_app_sep a) by exact Ha.
  rewrite (split_app_sep b) by exact Hb. rewrite (split_noColon b) by exact Hb.
  pose proof (split_nonempty colon rest) as Hne.
  pose proof (join_split rest) as Hj.
  destruct (split colon rest) as [|p ps]; [contradiction|].
  cbn [length nth skipn Nat.ltb Nat.leb throwIf bind].
  destruct ((length a =? 0)%nat || (length b =? 0)%nat); cbn [throwIf bind]; [reflexivity|].
  destruct (validateSalt a 8 128) as [[]|e|]; cbn [bind]; [|reflexivity|reflexivity].
  destruct (validateHash b) as [[]|e|]; cbn [bind]; [|reflexivity|reflexivity].
  cbn [salt hash]. rewrite Hj. reflexivity.
Qed.

Lemma decode_two_metadata a b d :
  noColon a -> noColon b ->
  validateStoredHashFormat JSON_parse (a ++ [colon] ++ b) = Ok d -> metadata d = None.
Proof.
  intros Ha Hb. unfold validateStoredHashFormat.
  cbn [app]. rewrite (split_app_sep a) by exact Ha. rewrite (split_noColon b) by exact Hb.
  cbn [length nth skipn Nat.ltb Nat.leb throwIf bind].
  destruct ((length a =? 0)%nat || (length b =? 0)%nat); cbn [throwIf bind]; [discriminate|].
  destruct (validateSalt a 8 128) as [[]|e|]; cbn [bind]; [|discriminate|discriminate].
  destruct (validateHash b) as [[]|e|]; cbn [bind]; [|discriminate|discriminate].
  intros E. injection E as <-. reflexivity.
Qed.

Variable ToNumber_object : json -> number + error.

Lemma prop_not_object v name :
  (forall fields, v <> Some (JObj fields)) -> prop v name = None.
Proof.
  intros H. destruct v as [[| | | | |fields]|]; try reflexivity.
  exfalso. apply (H fields). reflexivity.
Qed.

(** X9.  Metadata that does not parse to an object is ignored without
    notice: whatever follows the second colon, if [JSON.parse] throws on it
    or returns anything but an object, [verifyPassword] and
    [verifyPasswordSecure] answer as on the two-field credential, that is
    with one iteration. *)
Theorem unreadable_metadata_is_ignored
    (startTime endTime : Z) (password a b rest : jsstring) :
  noColon a -> noColon b ->
  (forall fields, JSON_parse rest <> Some (JObj fields)) ->
  verifyPassword JSON_parse ToNumber_object password (a ++ [colon] ++ b ++ [colon] ++ rest)
  = verifyPassword JSON_parse ToNumber_object password (a ++ [colon] ++ b)
  /\ verifyPasswordSecure JSON_parse ToNumber_object startTime endTime password
       (a ++ [colon] ++ b ++ [colon] ++ rest)
     = verifyPasswordSecure JSON_parse ToNumber_object startTime endTime password
         (a ++ [colon] ++ b).
Proof.
  intros Ha Hb Hr.
  unfold verifyPassword, verifyPasswordSecure.
  rewrite (decode_fields a b rest Ha Hb).
  pose proof (decode_two_metadata a b) as Hm.
  destruct (validateStoredHashFormat JSON_parse (a ++ [colon] ++ b)) as [d|e|];
    [|split; reflexivity|split; reflexivity].
  specialize (Hm d Ha Hb eq_refl).
  destruct (validatePassword password) as [[]|e|]; cbn [bind tryCatch];
    [|split; reflexivity|split; reflexivity].
  cbn [metadata salt hash]. rewrite Hm.
  rewrite !(prop_not_object (JSON_parse rest)) by exact Hr.
  split; reflexivity.
Qed.


End Grammar.

Lemma unreadable_metadata_is_ignored_witness :
  noColon Example.legacySalt
  /\ noColon (sha256 (Example.password ++ Example.legacySalt))
  /\ JsonModel.parse (lit "{broken") = None
  /\ verifyPassword JsonModel.parse JsonModel.toNumberObject Example.password
       (Example.legacySalt ++ [colon] ++ sha256 (Example.password ++ Example.legacySalt)
        ++ [colon] ++ lit "{broken")
     = verifyPassword JsonModel.parse JsonModel.toNumberObject Example.password
         (Example.legacySalt ++ [colon] ++ sha256 (Example.password ++ Example.legacySalt)).
Proof.
  assert (Ha : noColon Example.legacySalt) by (vm_compute; reflexivity).
  assert (Hb : noColon (sha256 (Example.password ++ Example.legacySalt)))
    by (vm_compute; reflexivity).
  assert (Hr : JsonModel.parse (lit "{broken") = None) by (vm_compute; reflexivity).
  assert (Hn : forall fields, JsonModel.parse (lit "{broken") <> Some (JObj fields))
    by (intros fields; rewrite Hr; discriminate).
  split; [exact Ha|]. split; [exact Hb|]. split; [exact Hr|].
  exact (proj1 (unreadable_metadata_is_ignored JsonModel.parse JsonModel.toNumberObject 0 5
                  Example.password Example.legacySalt
                  (sha256 (Example.password ++ Example.legacySalt)) (lit "{broken")
                  Ha Hb Hn)).
Defined.


(** ** Sanitizing *)

Lemma isRemoved_nul c : charCode c = 0 -> isRemoved c = true.
Proof. intros H. unfold isRemoved. rewrite H. reflexivity. Qed.

Lemma sanitizeInput_clean s : existsb isRemoved (sanitizeInput s) = false.
Proof.
  unfold sanitizeInput. induction s as [|c s IH]; [reflexivity|].
  cbn [filter]. destruct (isRemoved c) eqn:E; cbn [negb]; [exact IH|].
  cbn [existsb]. rewrite E, IH. reflexivity.
Qed.

Lemma sanitizeInput_fixed s : existsb isRemoved s = false -> sanitizeInput s = s.
Proof.
  unfold sanitizeInput. induction s as [|c s IH]; [reflexivity|].
  cbn [existsb filter]. intros H. apply orb_false_iff in H. destruct H as [Hc Hs].
  rewrite Hc. cbn [negb]. rewrite IH by exact Hs. reflexivity.
Qed.

Lemma sanitizeInput_length s : (length (sanitizeInput s) <= length s)%nat.
Proof. apply filter_length_le. Qed.

(** X11.  [sanitizeInput] removes every occurrence of the ten characters
    of its class and nothing else: its result holds none of them, a second
    pass changes nothing, the input is returned as it is exactly when it
    holds none, [validatePassword] refuses a sanitized password only for
    its length, and two inputs that differ by one removed character have
    the same result. *)
Theorem sanitizeInput_properties (input : jsstring) :
  existsb isRemoved (sanitizeInput input) = false
  /\ sanitizeInput (sanitizeInput input) = sanitizeInput input
  /\ (sanitizeInput input = input <-> existsb isRemoved input = false)
  /\ (validatePassword (sanitizeInput input) = Ok tt
      <-> (1 <= length (sanitizeInput input) <= 1024)%nat)
  /\ (forall before after c, isRemoved c = true ->
        sanitizeInput (before ++ c :: after) = sanitizeInput (before ++ after)).
Proof.
  pose proof (sanitizeInput_clean input) as Hc.
  split; [exact Hc|]. split; [apply sanitizeInput_fixed, Hc|].
  split; [split; [intros <-; exact Hc | apply sanitizeInput_fixed]|].
  split.
  - unfold validatePassword.
    assert (Hn : existsb (fun c => charCode c =? 0) (sanitizeInput input) = false).
    { destruct (existsb (fun c => charCode c =? 0) (sanitizeInput input)) eqn:E; [|reflexivity].
      apply existsb_exists in E. destruct E as (c & Hin & Hz). apply Z.eqb_eq in Hz.
      assert (Ht : existsb isRemoved (sanitizeInput input) = true)
        by (apply existsb_exists; exists c; split; [exact Hin | apply isRemoved_nul, Hz]).
      congruence. }
    rewrite Hn.
    destruct (length (sanitizeInput input) =? 0)%nat eqn:E1; cbn [throwIf bind].
    + apply Nat.eqb_eq in E1. split; [discriminate | lia].
    + apply Nat.eqb_neq in E1.
      destruct (1024 <? length (sanitizeInput input))%nat eqn:E2; cbn [throwIf bind].
      * apply Nat.ltb_lt in E2. split; [discriminate | lia].
      * apply Nat.ltb_ge in E2. split; [lia | reflexivity].
  - intros before after c Hr. unfold sanitizeInput.
    rewrite !filter_app. cbn [filter]. rewrite Hr. reflexivity.
Qed.


(** ** When hashing throws *)

Lemma validatePassword_iff p :
  validatePassword p = Ok tt
  <-> (1 <= length p <= 1024)%nat /\ existsb (fun c => charCode c =? 0) p = false.
Proof.
  unfold validatePassword.
  destruct (length p =? 0)%nat eqn:E1; cbn [throwIf bind].
  { apply Nat.eqb_eq in E1. split; [discriminate | lia]. }
  apply Nat.eqb_neq in E1.
  destruct (1024 <? length p)%nat eqn:E2; cbn [throwIf bind].
  { apply Nat.ltb_lt in E2. split; [discriminate | lia]. }
  apply Nat.ltb_ge in E2.
  destruct (existsb (fun c => charCode c =? 0) p); cbn [throwIf bind].
  - split; [discriminate | intros [_ H]; discriminate H].
  - split; [intros _; split; [lia | reflexivity] | reflexivity].
Qed.

Section Acceptance.

Variable entropy : nat -> Byte.byte.
Variable JSON_stringify : json -> jsstring.

Lemma hashPassword_outcome now p o :
  let accepted := validatePassword p = Ok tt /\ integerIn 8 512 (saltLengthOf o) in
  (accepted /\ loopEnds (iterationsOf o) = true
   /\ exists stored, hashPassword entropy JSON_stringify now p o = Ok stored)
  \/ (accepted /\ loopEnds (iterationsOf o) = false
      /\ hashPassword entropy JSON_stringify now p o = Loops)
  \/ (~ accepted /\ exists e, hashPassword entropy JSON_stringify now p o = Throw e).
Proof.
  cbv zeta.
  destruct (validatePassword_cases p) as [Hp | [e Hp]].
  - destruct (validateKeyLength_cases (saltLengthOf o)) as [Hs | [e Hs]].
    + apply validateKeyLength_ok in Hs.
      destruct (loopEnds (iterationsOf o)) eqn:Hl.
      * left. split; [auto|]. split; [reflexivity|].
        eexists. apply hashPassword_ok; assumption.
      * right. left. split; [auto|]. split; [reflexivity|].
        apply hashPassword_loops; assumption.
    + right. right. split.
      * intros [_ H]. apply validateKeyLength_ok in H. congruence.
      * rewrite hashPassword_unfold, Hp. cbn [bind]. unfold generateSecureSalt.
        rewrite Hs. cbn [bind]. eauto.
  - right. right. split; [intros [H _]; congruence|].
    rewrite hashPassword_unfold, Hp. cbn [bind]. eauto.
Qed.

Lemma hashPasswordWithOptions_outcome now p o :
  let accepted := validatePassword p = Ok tt /\ integerIn 8 512 (saltLengthOf o) in
  let count := num_or (iterations o) (Int 100000) in
  (accepted /\ loopEnds count = true
   /\ exists r, hashPasswordWithOptions entropy now p o = Ok r)
  \/ (accepted /\ loopEnds count = false
      /\ hashPasswordWithOptions entropy now p o = Loops)
  \/ (~ accepted /\ exists e, hashPasswordWithOptions entropy now p o = Throw e).
Proof.
  cbv zeta. unfold hashPasswordWithOptions. fold (saltLengthOf o).
  assert (Hsame : forall x,
            match (match algorithm o with Some a => a | None => sha256_alg end) with
            | sha256_alg => hashIterations (num_or (iterations o) (Int 100000)) x
            | _ => hashIterations (num_or (iterations o) (Int 100000)) x
            end = hashIterations (num_or (iterations o) (Int 100000)) x)
    by (intros x; destruct (algorithm o) as [[| |]|]; reflexivity).
  destruct (validatePassword_cases p) as [Hp | [e Hp]]; rewrite Hp; cbn [bind].
  - destruct (validateKeyLength_cases (saltLengthOf o)) as [Hs | [e Hs]].
    + apply validateKeyLength_ok in Hs.
      rewrite (generateSecureSalt_ok entropy _ Hs). cbn [bind]. rewrite Hsame.
      unfold hashIterations.
      destruct (loopEnds (num_or (iterations o) (Int 100000))) eqn:Hl; cbn [bind].
      * left. split; [auto|]. split; [reflexivity|]. eauto.
      * right. left. split; [auto|]. split; reflexivity.
    + right. right. split.
      * intros [_ H]. apply validateKeyLength_ok in H. congruence.
      * unfold generateSecureSalt. rewrite Hs. cbn [bind]. eauto.
  - right. right. split; [intros [H _]; congruence | eauto].
Qed.

(** X12.  When hashing returns.  [hashPassword] and
    [hashPasswordWithOptions] run two checks: they throw exactly when the
    password has not 1 to 1024 code units, none of them NUL, or the salt
    length (32 when absent, 0 or NaN) is not an integer from 8 to 512.
    Past the checks they return a result exactly when the loop on the
    iteration count ends, that is when the count (1, respectively 100000,
    when absent, 0 or NaN) is at most 2^53; with a greater count, or
    Infinity, they do not return.  The key length and the algorithm are
    not checked. *)
Theorem hashPassword_succeeds_iff (now : Z) (password : jsstring) (options : HashOptions) :
  let accepted :=
    (1 <= length password <= 1024)%nat
    /\ existsb (fun c => charCode c =? 0) password = false
    /\ integerIn 8 512 (saltLengthOf options) in
  let count := iterationsOf options in
  let countWithOptions := num_or (iterations options) (Int 100000) in
  ((exists stored, hashPassword entropy JSON_stringify now password options = Ok stored)
   <-> accepted /\ loopEnds count = true)
  /\ ((exists e, hashPassword entropy JSON_stringify now password options = Throw e)
      <-> ~ accepted)
  /\ (hashPassword entropy JSON_stringify now password options = Loops
      <-> accepted /\ loopEnds count = false)
  /\ ((exists r, hashPasswordWithOptions entropy now password options = Ok r)
      <-> accepted /\ loopEnds countWithOptions = true)
  /\ ((exists e, hashPasswordWithOptions entropy now password options = Throw e)
      <-> ~ accepted)
  /\ (hashPasswordWithOptions entropy now password options = Loops
      <-> accepted /\ loopEnds countWithOptions = false).
Proof.
  cbv zeta.
  pose proof (validatePassword_iff password) as Hiff.
  assert (Hthree : forall (A : Type) (c : result A) (acc : Prop) (ends : bool),
            (acc /\ ends = true /\ exists a, c = Ok a)
            \/ (acc /\ ends = false /\ c = Loops)
            \/ (~ acc /\ exists e, c = Throw e) ->
            ((exists a, c = Ok a) <-> acc /\ ends = true)
            /\ ((exists e, c = Throw e) <-> ~ acc)
            /\ (c = Loops <-> acc /\ ends = false)).
  { intros A c acc ends [(Ha & He & a & Hc) | [(Ha & He & Hc) | (Ha & e & Hc)]];
      rewrite Hc, ?He.
    - split; [split; [auto | eauto]|].
      split; (split; [intros H | intros H]).
      + destruct H as [e H]. discriminate H.
      + contradiction.
      + discriminate H.
      + destruct H as [_ H]. discriminate H.
    - split; [split; [intros [x H]; discriminate H | intros [_ H]; discriminate H]|].
      split; [split; [intros [e H]; discriminate H | contradiction] | split; auto].
    - split; [split; [intros [x H]; discriminate H | intros [H _]; contradiction]|].
      split; [split; [auto | eauto]|].
      split; [discriminate | intros [H _]; contradiction]. }
  assert (Hacc : validatePassword password = Ok tt /\ integerIn 8 512 (saltLengthOf options)
                 <-> (1 <= length password <= 1024)%nat
                     /\ existsb (fun c => charCode c =? 0) password = false
                     /\ integerIn 8 512 (saltLengthOf options)) by tauto.
  pose proof (Hthree _ _ _ _ (hashPassword_outcome now password options)) as (H1 & H2 & H3).
  pose proof (Hthree _ _ _ _ (hashPasswordWithOptions_outcome now password options))
    as (H4 & H5 & H6).
  rewrite Hacc in H1, H2, H3, H4, H5, H6.
  exact (conj H1 (conj H2 (conj H3 (conj H4 (conj H5 H6))))).
Qed.

End Acceptance.


(** ** The simple functions, rehashing and the security levels *)

Lemma iterate_one x : iterate 1 x = x.
Proof. reflexivity. Qed.

Lemma hashIterations_one x : hashIterations (Int 1) x = Ok x.
Proof. reflexivity. Qed.

Lemma integerIn_upto lo hi hi' n :
  integerIn lo hi n -> integerValue n <= hi' -> integerIn lo hi' n.
Proof.
  destruct n as [z| | | |]; cbn [integerIn integerValue]; intros; try contradiction. lia.
Qed.

Lemma integerIn_bounds lo hi n : integerIn lo hi n -> lo <= integerValue n <= hi.
Proof.
  destruct n as [z| | | |]; cbn [integerIn integerValue]; intros; try contradiction. lia.
Qed.

Lemma sha256_compare m m' : timeSafeCompare (sha256 m) (sha256 m') = true <-> sha256 m = sha256 m'.
Proof. apply timeSafeCompare_hex; apply lowerHex_isHex, sha256_lower. Qed.

Lemma algorithmName_inj a b :
  jsstring_eqb (algorithmName a) (algorithmName b) = true <-> a = b.
Proof.
  destruct a, b; split; intros H; try reflexivity; try discriminate H;
    vm_compute in H; discriminate H.
Qed.

Section Interop.

Variable entropy : nat -> Byte.byte.
Variable JSON_stringify : json -> jsstring.
Variable JSON_parse : jsstring -> option json.
Variable ToNumber_object : json -> number + error.
Variable subtractFraction : Z -> number -> number.

Local Abbreviation needsRehashing :=
  (needsRehashing JSON_parse ToNumber_object subtractFraction).
Local Abbreviation simpleSalt := (toHex (randomBytes entropy 16)).

Lemma simpleSalt_props : length simpleSalt = 32%nat /\ noColon simpleSalt.
Proof.
  destruct (toHex_props entropy 16) as [Hl Hlow].
  split; [exact Hl | apply lowerHex_noColon, Hlow].
Qed.

Lemma simpleHashPassword_ok p :
  simpleHashPassword entropy p = Ok (simpleSalt ++ [colon] ++ sha256 (p ++ simpleSalt)).
Proof.
  unfold simpleHashPassword. rewrite generateSecureSalt_ok by (cbn; lia). reflexivity.
Qed.

Lemma simpleVerifyPassword_two p salt digest :
  noColon salt -> salt <> [] ->
  simpleVerifyPassword p (salt ++ [colon] ++ sha256 digest)
  = timeSafeCompare (sha256 (p ++ salt)) (sha256 digest).
Proof.
  intros Hs Hne. unfold simpleVerifyPassword. cbn [app].
  rewrite (split_app_sep salt) by exact Hs.
  rewrite split_noColon by (apply lowerHex_noColon, sha256_lower).
  cbn [length Nat.eqb negb nth].
  replace (length salt =? 0)%nat with false by (symmetry; apply length_eqb_0; exact Hne).
  rewrite sha256_length. reflexivity.
Qed.

(** X13.  [simpleHashPassword] never throws, not even on the empty
    password, and its credential is accepted by [simpleVerifyPassword]
    for the same password; another password is accepted exactly when it
    has the same digest with the salt.  [verifyPassword] accepts the
    credential too, exactly when [validatePassword] accepts the
    password. *)
Theorem simple_hash_then_verify (password : jsstring) :
  exists stored,
    simpleHashPassword entropy password = Ok stored
    /\ simpleVerifyPassword password stored = true
    /\ (forall other,
          simpleVerifyPassword other stored = true
          <-> sha256 (other ++ simpleSalt) = sha256 (password ++ simpleSalt))
    /\ (verifyPassword JSON_parse ToNumber_object password stored = Ok true
        <-> validatePassword password = Ok tt).
Proof.
  destruct simpleSalt_props as [Hl Hn].
  assert (Hne : simpleSalt <> []) by (intros E; rewrite E in Hl; discriminate Hl).
  eexists. split; [apply simpleHashPassword_ok|].
  split; [|split].
  - rewrite simpleVerifyPassword_two by assumption. apply timeSafeCompare_refl.
  - intros other. rewrite simpleVerifyPassword_two by assumption. apply sha256_compare.
  - unfold verifyPassword.
    destruct (validatePassword_cases password) as [Hp | [e Hp]]; rewrite Hp;
      cbn [bind tryCatch]; [|split; discriminate].
    rewrite decode_two;
      [ | exact Hn | rewrite Hl; lia | apply lowerHex_noColon, sha256_lower
        | apply sha256_hexRegexTest ].
    cbn [bind metadata salt hash prop or_else iterateStored ToNumber tryCatch].
    rewrite hashIterations_one. cbn [bind tryCatch].
    rewrite timeSafeCompare_refl. split; reflexivity.
Qed.

(** X14.  [simpleVerifyPassword] requires exactly two fields: it
    rejects every credential that [hashPassword] produces, for every
    password, the right one included. *)
Theorem simpleVerifyPassword_rejects_full_credentials
    (now : Z) (password other : jsstring) (options : HashOptions) (stored : jsstring) :
  hashPassword entropy JSON_stringify now password options = Ok stored ->
  simpleVerifyPassword other stored = false.
Proof.
  intros Hh. apply hashPassword_inv in Hh. destruct Hh as (_ & _ & _ & ->).
  unfold credentialOf, simpleVerifyPassword. cbv zeta.
  destruct (toHex_props entropy (integerValue (saltLengthOf options))) as [_ Hlow].
  destruct (iterate_digest (ceiling (iterationsOf options))
              (password ++ toHex (randomBytes entropy (integerValue (saltLengthOf options)))))
    as [m' Hm].
  cbn [app]. rewrite (split_app_sep (toHex _)) by (apply lowerHex_noColon, Hlow).
  rewrite (split_app_sep (iterate _ _)) by (rewrite Hm; apply lowerHex_noColon, sha256_lower).
  pose proof (split_nonempty colon (JSON_stringify (metadataFor now options))) as Hne.
  destruct (split colon _) as [|q qs]; [contradiction|]. reflexivity.
Qed.

(** ** [needsRehashing] *)

Lemma needsRehashing_undecodable now s cur e :
  validateStoredHashFormat JSON_parse s = Throw e ->
  needsRehashing now s cur = Ok true.
Proof. intros H. unfold PasswordRest.needsRehashing. rewrite H. reflexivity. Qed.

Lemma needsRehashing_total now s cur :
  exists b, needsRehashing now s cur = Ok b.
Proof.
  unfold PasswordRest.needsRehashing.
  destruct (validateStoredHashFormat_cases JSON_parse s) as [[d Hd] | [e Hd]]; rewrite Hd;
    cbn [bind tryCatch]; [|eauto].
  destruct (ToNumber ToNumber_object _) as [n|e|] eqn:En; cbn [bind tryCatch];
    [|eauto|exfalso; apply (ToNumber_ends ToNumber_object _ En)].
  destruct (less n _); cbn [tryCatch]; [eauto|].
  destruct (negb (is_string _ _)); cbn [tryCatch]; [eauto|].
  destruct (prop (metadata d) (lit "timestamp")) as [t|]; cbn [tryCatch]; [|eauto].
  destruct (negb (truthy t)); cbn [tryCatch]; [eauto|].
  destruct (ToNumber ToNumber_object t) as [x|e|] eqn:Et; cbn [bind tryCatch];
    [eauto|eauto|exfalso; apply (ToNumber_ends ToNumber_object _ Et)].
Qed.

(** X15.  [needsRehashing] recommends rehashing for every text that
    does not decode and for every credential whose metadata is absent or
    not an object, whatever the current options and the clock are. *)
Theorem needsRehashing_without_metadata
    (now : Z) (storedHash : jsstring) (currentOptions : HashOptions) :
  (forall d fields, validateStoredHashFormat JSON_parse storedHash = Ok d ->
                    metadata d <> Some (JObj fields)) ->
  needsRehashing now storedHash currentOptions = Ok true.
Proof.
  intros H. unfold PasswordRest.needsRehashing.
  destruct (validateStoredHashFormat_cases JSON_parse storedHash) as [[d Hd] | [e Hd]];
    rewrite Hd; [|reflexivity].
  cbn [bind].
  assert (Hp : forall name, prop (metadata d) name = None)
    by (intros name; apply prop_not_object; intros fields; apply (H d fields Hd)).
  rewrite !Hp. cbn [or_else ToNumber bind].
  destruct (less (Int 1) (num_or (iterations currentOptions) (Int 100000))); [reflexivity|].
  destruct (negb _); reflexivity.
Qed.

Lemma metadata_props alg it kl now :
  prop (Some (metadataOf alg it kl now)) (lit "algorithm") = Some (JStr (algorithmName alg))
  /\ prop (Some (metadataOf alg it kl now)) (lit "timestamp") = Some (JNum (Int now)).
Proof. split; reflexivity. Qed.

Lemma algorithmName_truthy alg d : or_else (Some (JStr (algorithmName alg))) d = JStr (algorithmName alg).
Proof. destruct alg; reflexivity. Qed.

(** The answer on a fresh credential, as the four tests of the source. *)
Lemma needsRehashing_fresh
    (created now : Z) (password : jsstring) (options currentOptions : HashOptions) :
  integerIn 8 64 (saltLengthOf options) ->
  JSON_parse (JSON_stringify (metadataFor created options))
  = Some (metadataFor created options) ->
  needsRehashing now
    (credentialOf entropy JSON_stringify created password options) currentOptions
  = Ok (less (iterationsOf options) (num_or (iterations currentOptions) (Int 100000))
        || negb (jsstring_eqb (algorithmName (algorithmOf options))
                              (algorithmName (algorithmOf currentOptions)))
        || (created =? 0)
        || (oneYear <? now - created)).
Proof.
  intros Hn Hj. unfold PasswordRest.needsRehashing, credentialOf.
  destruct (toHex_props entropy (integerValue (saltLengthOf options))) as [Hlen Hlow].
  destruct (iterate_digest (ceiling (iterationsOf options))
              (password ++ toHex (randomBytes entropy (integerValue (saltLengthOf options)))))
    as [m' Hm].
  pose proof (integerIn_bounds _ _ _ Hn) as Hv.
  rewrite decode_three;
    [ | apply lowerHex_noColon, Hlow | rewrite Hlen; lia
      | rewrite Hm; apply lowerHex_noColon, sha256_lower
      | rewrite Hm; apply sha256_hexRegexTest ].
  cbn [bind metadata]. rewrite Hj. unfold metadataFor.
  rewrite stored_iterations by apply iterationsOf_truthy.
  destruct (metadata_props (algorithmOf options) (iterationsOf options)
              (keyLengthOf options) created) as [-> ->].
  rewrite algorithmName_truthy. cbn [ToNumber bind is_string truthy isFalsy].
  destruct (less (iterationsOf options) (num_or (iterations currentOptions) (Int 100000)));
    [reflexivity|].
  destruct (jsstring_eqb (algorithmName (algorithmOf options))
                         (algorithmName (algorithmOf currentOptions)));
    cbn [negb orb]; [|reflexivity].
  destruct (created =? 0); cbn [negb orb bind minus tryCatch]; [reflexivity|].
  rewrite less_Int. reflexivity.
Qed.

(** X16.  [needsRehashing] on a fresh credential (options under which
    [hashPassword] returns, with a salt of 8 to 64 bytes, and metadata
    that [JSON.parse] reads back) answers [false] exactly when the stored
    iteration count is not below the current one (100000 when absent),
    the stored algorithm name is the current one, the time of creation is
    not 0, and the credential is at most 365 days old.  A credential made
    with the default single iteration is therefore always reported under
    the default options. *)
Theorem needsRehashing_fresh_credential
    (created now : Z) (password : jsstring) (options currentOptions : HashOptions) :
  validatePassword password = Ok tt ->
  integerIn 8 64 (saltLengthOf options) ->
  loopEnds (iterationsOf options) = true ->
  JSON_parse (JSON_stringify (metadataFor created options))
  = Some (metadataFor created options) ->
  exists stored b,
    hashPassword entropy JSON_stringify created password options = Ok stored
    /\ needsRehashing now stored currentOptions = Ok b
    /\ (b = false
        <-> less (iterationsOf options) (num_or (iterations currentOptions) (Int 100000))
            = false
            /\ algorithmOf options = algorithmOf currentOptions
            /\ created <> 0
            /\ now - created <= oneYear)
    /\ (iterations options = None -> iterations currentOptions = None -> b = true).
Proof.
  intros Hp Hn Hl Hj.
  exists (credentialOf entropy JSON_stringify created password options).
  eexists.
  split; [apply hashPassword_ok;
          [exact Hp | apply (integerIn_weaken 8 64); [lia | lia | exact Hn] | exact Hl]|].
  split; [apply needsRehashing_fresh; assumption|].
  split.
  - rewrite !orb_false_iff, negb_false_iff, algorithmName_inj.
    rewrite !Z.ltb_ge, Z.eqb_neq. tauto.
  - intros Ho Hc. unfold iterationsOf. rewrite Ho, Hc. reflexivity.
Qed.

(** X18.  Each of the four [SECURITY_LEVELS] and of the four profiles
    of [createSecurityProfile], passed to [hashPassword] as its options,
    gives a credential that [verifyPassword] accepts (the largest salt
    length among them is 64, the limit), and for which [needsRehashing]
    under the same options answers [false] during the first year. *)
Theorem security_levels_give_verifiable_credentials
    (created now : Z) (password : jsstring) (level : SecurityLevel) :
  (exists name, level = getSecurityLevel name)
  \/ (exists useCase, level = createSecurityProfile useCase) ->
  validatePassword password = Ok tt ->
  (let meta := metadataOf (sl_algorithm level) (Int (sl_iterations level))
                          (Int (sl_keyLength level)) created in
   JSON_parse (JSON_stringify meta) = Some meta) ->
  exists stored,
    hashPassword entropy JSON_stringify created password (asHashOptions level) = Ok stored
    /\ verifyPassword JSON_parse ToNumber_object password stored = Ok true
    /\ (0 < created -> now - created <= oneYear ->
        needsRehashing now stored (asHashOptions level) = Ok false).
Proof.
  intros Hl Hp Hj. cbv zeta in Hj.
  assert (Hs : 8 <= sl_saltLength level <= 64
               /\ 0 < sl_iterations level <= 2 ^ 53 /\ sl_keyLength level <> 0).
  { destruct Hl as [[name ->] | [useCase ->]]; [destruct name | destruct useCase];
      cbn; repeat split; lia. }
  destruct Hs as (Hs & Hi & Hk).
  assert (Es : saltLengthOf (asHashOptions level) = Int (sl_saltLength level)).
  { unfold saltLengthOf. cbn [asHashOptions saltLength num_or isFalsy].
    replace (sl_saltLength level =? 0) with false by (symmetry; apply Z.eqb_neq; lia).
    reflexivity. }
  assert (Ei : forall d, num_or (iterations (asHashOptions level)) d
                         = Int (sl_iterations level)).
  { intros d. cbn [asHashOptions iterations num_or isFalsy].
    replace (sl_iterations level =? 0) with false by (symmetry; apply Z.eqb_neq; lia).
    reflexivity. }
  assert (Ek : keyLengthOf (asHashOptions level) = Int (sl_keyLength level)).
  { unfold keyLengthOf. cbn [asHashOptions keyLength num_or isFalsy].
    replace (sl_keyLength level =? 0) with false by (symmetry; apply Z.eqb_neq; lia).
    reflexivity. }
  assert (Ea : algorithmOf (asHashOptions level) = sl_algorithm level) by reflexivity.
  assert (Hj' : JSON_parse (JSON_stringify (metadataFor created (asHashOptions level)))
                = Some (metadataFor created (asHashOptions level))).
  { unfold metadataFor, iterationsOf. rewrite Ea, Ei, Ek. exact Hj. }
  assert (Hn : integerIn 8 64 (saltLengthOf (asHashOptions level)))
    by (rewrite Es; exact Hs).
  assert (He : loopEnds (iterationsOf (asHashOptions level)) = true).
  { unfold iterationsOf. rewrite Ei. cbn [loopEnds ceiling]. apply Z.leb_le. lia. }
  exists (credentialOf entropy JSON_stringify created password (asHashOptions level)).
  split; [apply hashPassword_ok;
          [exact Hp | apply (integerIn_weaken 8 64); [lia | lia | exact Hn] | exact He]|].
  split.
  - apply verify_credentialOf; assumption.
  - intros Hc Hy.
    rewrite needsRehashing_fresh by assumption.
    unfold iterationsOf. rewrite !Ei, less_Int, Z.ltb_irrefl.
    replace (jsstring_eqb (algorithmName (algorithmOf (asHashOptions level)))
                          (algorithmName (algorithmOf (asHashOptions level))))
      with true by (symmetry; apply algorithmName_inj; reflexivity).
    replace (created =? 0) with false by (symmetry; apply Z.eqb_neq; lia).
    replace (oneYear <? now - created) with false by (symmetry; apply Z.ltb_ge; exact Hy).
    reflexivity.
Qed.

(** X17.  The credential a successful [upgradePasswordHash] returns
    verifies the password when the new salt length is at most 64, and
    never verifies when it is larger: the upgrade then replaces a working
    credential by one that locks the user out. *)
Theorem upgrade_result_verifies_up_to_64_byte_salts
    (startTime endTime now : Z) (password oldStoredHash : jsstring)
    (newOptions : HashOptions) (newStoredHash : jsstring) :
  upgradePasswordHash entropy JSON_stringify JSON_parse ToNumber_object
    startTime endTime now password oldStoredHash newOptions = Ok (Some newStoredHash) ->
  JSON_parse (JSON_stringify (metadataFor now newOptions))
  = Some (metadataFor now newOptions) ->
  (integerValue (saltLengthOf newOptions) <= 64 ->
   verifyPassword JSON_parse ToNumber_object password newStoredHash = Ok true)
  /\ (64 < integerValue (saltLengthOf newOptions) ->
      verifyPassword JSON_parse ToNumber_object password newStoredHash = Ok false).
Proof.
  intros Hu Hj. unfold upgradePasswordHash in Hu.
  destruct (verifyPasswordSecure JSON_parse ToNumber_object startTime endTime
              password oldStoredHash) as [v|e|]; cbn [bind] in Hu;
    [|discriminate|discriminate].
  destruct (negb (isValid v)); [discriminate|].
  destruct (hashPassword entropy JSON_stringify now password newOptions) as [s|e|] eqn:Hh;
    cbn [bind] in Hu; [|discriminate|discriminate].
  injection Hu as <-. split; intros Hs.
  - apply (hashPassword_then_verify entropy JSON_stringify JSON_parse ToNumber_object
             now password newOptions s Hh); [|exact Hj].
    apply hashPassword_inv in Hh. destruct Hh as (_ & Hn & _).
    apply (integerIn_upto 8 512); assumption.
  - apply (hashPassword_long_salt_never_verifies entropy JSON_stringify JSON_parse
             ToNumber_object now password newOptions s Hh Hs).
Qed.

End Interop.


(** ** The salt strategies *)

Lemma charAt_in_range charset i :
  0 <= i < Z.of_nat (length charset) ->
  exists c, charAt charset (Some i) = [c] /\ In c charset.
Proof.
  intros Hi. unfold charAt.
  replace (i <? 0) with false by (symmetry; apply Z.ltb_ge; lia).
  destruct (nth_error charset (Z.to_nat i)) as [c|] eqn:E.
  - exists c. split; [reflexivity | apply (nth_error_In _ _ E)].
  - apply nth_error_None in E. lia.
Qed.

(** A loop that appends one character of the charset per round. *)
Lemma draw_loop charset (index : nat -> option Z) (rounds : list nat) :
  (forall i, exists r, index i = Some r /\ 0 <= r < Z.of_nat (length charset)) ->
  let s := flat_map (fun i => charAt charset (index i)) rounds in
  length s = length rounds /\ Forall (fun c => In c charset) s.
Proof.
  intros H. induction rounds as [|i rounds [IHl IHf]]; [split; [reflexivity | constructor]|].
  cbn [flat_map]. destruct (H i) as (r & -> & Hr).
  destruct (charAt_in_range charset r Hr) as (c & -> & Hc).
  cbn [app length]. split; [f_equal; exact IHl | constructor; [exact Hc | exact IHf]].
Qed.

Lemma validateKeyLength_throws n :
  ~ integerIn 8 512 n -> exists e, validateKeyLength n = Throw e.
Proof.
  intros H. destruct (validateKeyLength_cases n) as [E | E]; [|exact E].
  apply validateKeyLength_ok in E. contradiction.
Qed.

Lemma bxor_nonneg x y : 0 <= x < 2 ^ 31 -> 0 <= y < 2 ^ 31 -> 0 <= bxor x y < 2 ^ 31.
Proof.
  intros Hx Hy. unfold bxor.
  rewrite !ToInt32_small by (unfold int32; lia).
  assert (Hi : int32 (Z.lxor x y)) by (apply int32_lxor; unfold int32; lia).
  assert (Hn : 0 <= Z.lxor x y) by (apply Z.lxor_nonneg; lia).
  unfold int32 in Hi. lia.
Qed.

Section Strategies.

Variable randomFloor : nat -> Z -> Z.
Variable dateNow : nat -> Z.
Variable perfNow : nat -> Z.
Variable entropy : nat -> Byte.byte.

(** [Math.random()] is below 1, and the clocks do not run before 1970. *)
Hypothesis randomFloor_range : forall k n, 0 < n -> 0 <= randomFloor k n < n.
Hypothesis dateNow_nonneg : forall i, 0 <= dateNow i.
Hypothesis perfNow_nonneg : forall i, 0 <= perfNow i.

Lemma generateSalt_ok length charset :
  integerIn 8 512 length -> charset <> [] ->
  exists s, generateSalt randomFloor length charset = Ok s
            /\ List.length s = Z.to_nat (integerValue length)
            /\ Forall (fun c => In c charset) s.
Proof.
  intros Hl Hc. unfold generateSalt.
  apply validateKeyLength_ok in Hl. rewrite Hl. cbn [bind].
  eexists. split; [reflexivity|].
  destruct (draw_loop charset
              (fun i => Some (randomFloor i (Z.of_nat (List.length charset))))
              (seq 0 (Z.to_nat (integerValue length)))) as [H1 H2].
  - intros i. eexists. split; [reflexivity|]. apply randomFloor_range.
    destruct charset; [contradiction | cbn [List.length]; lia].
  - split; [rewrite H1; apply length_seq | exact H2].
Qed.

Lemma combinedEntropy_range i charset :
  charset <> [] -> Z.of_nat (length charset) < 2 ^ 31 ->
  exists r, combinedEntropy randomFloor dateNow perfNow i charset = Some r
            /\ 0 <= r < Z.of_nat (length charset).
Proof.
  intros Hc Hb.
  assert (Hn : 0 < Z.of_nat (length charset))
    by (destruct charset; [contradiction | cbn [length]; lia]).
  unfold combinedEntropy, remainder.
  replace (Z.of_nat (length charset) =? 0) with false by (symmetry; apply Z.eqb_neq; lia).
  cbn [nanTo0]. eexists. split; [reflexivity|].
  pose proof (Z.rem_bound_pos (dateNow i) _ (dateNow_nonneg i) Hn) as Ht.
  pose proof (Z.rem_bound_pos (perfNow i) _ (perfNow_nonneg i) Hn) as Hp.
  pose proof (randomFloor_range i _ Hn) as Hr.
  apply Z.rem_bound_pos; [|exact Hn].
  apply bxor_nonneg; [apply bxor_nonneg|]; lia.
Qed.

Lemma generateSecureRandomSalt_ok length charset :
  charset <> [] -> Z.of_nat (List.length charset) < 2 ^ 31 ->
  let s := generateSecureRandomSalt randomFloor dateNow perfNow length charset in
  List.length s = Z.to_nat length /\ Forall (fun c => In c charset) s.
Proof.
  intros Hc Hb. unfold generateSecureRandomSalt.
  destruct (draw_loop charset
              (fun i => combinedEntropy randomFloor dateNow perfNow i charset)
              (seq 0 (Z.to_nat length))) as [H1 H2].
  - intros i. apply combinedEntropy_range; assumption.
  - split; [rewrite H1; apply length_seq | exact H2].
Qed.

(** X19.  What [length] means to [generateSecureSalt] depends on the
    strategy.  With a random source in range and clocks that do not read
    before 1970: for a length that is an integer from 8 to 512 the
    strategy 'crypto' (the default) returns 2 * length lower-case
    hexadecimal characters, the strategies 'random' and 'secure' return
    length characters of the charset; for any other length, a fraction
    such as 16.5 included, the call throws. *)
Theorem generateSecureSalt_length_unit (length : number) (options : SaltOptions) :
  Z.of_nat (List.length (effectiveCharset options)) < 2 ^ 31 ->
  (integerIn 8 512 length ->
   exists s,
     generateSecureSaltWith randomFloor dateNow perfNow entropy length options = Ok s
     /\ match strategy options with
        | None | Some strategy_crypto =>
            List.length s = (2 * Z.to_nat (integerValue length))%nat
            /\ forallb isLowerHexChar s = true
        | _ =>
            List.length s = Z.to_nat (integerValue length)
            /\ Forall (fun c => In c (effectiveCharset options)) s
        end)
  /\ (~ integerIn 8 512 length ->
      exists e,
        generateSecureSaltWith randomFloor dateNow perfNow entropy length options = Throw e).
Proof.
  intros Hb.
  assert (Hne : effectiveCharset options <> []).
  { unfold effectiveCharset. destruct (charset options) as [[|c cs]|]; discriminate. }
  split.
  - intros Hl. unfold generateSecureSaltWith. cbv zeta.
    pose proof Hl as Hv. apply validateKeyLength_ok in Hv. rewrite Hv. cbn [bind].
    destruct (strategy options) as [[| |]|].
    + destruct (generateSalt_ok length _ Hl Hne) as (s & -> & H). exists s. split; [reflexivity | exact H].
    + unfold generateCryptoSalt. rewrite Hv. cbn [bind]. eexists. split; [reflexivity|].
      apply toHex_props.
    + eexists. split; [reflexivity|]. apply generateSecureRandomSalt_ok; assumption.
    + unfold generateCryptoSalt. rewrite Hv. cbn [bind]. eexists. split; [reflexivity|].
      apply toHex_props.
  - intros Hl. unfold generateSecureSaltWith.
    destruct (validateKeyLength_throws length Hl) as [e ->]. exists e. reflexivity.
Qed.

Lemma patternCharset_nonempty pattern : patternCharset pattern <> [].
Proof. destruct pattern; discriminate. Qed.

Lemma noColon_In s : Forall (fun c => char16_eqb c colon = false) s -> noColon s.
Proof.
  intros H. unfold noColon. apply forallb_forall. intros c Hc.
  rewrite Forall_forall in H. rewrite (H c Hc). reflexivity.
Qed.

Lemma patternCharset_noColon pattern :
  pattern <> pattern_secure -> noColon (patternCharset pattern).
Proof. destruct pattern; intros H; try reflexivity. contradiction. Qed.

(** X20.  [generatePatternSalt] returns, for a length that is an
    integer from 8 to 512, that many characters of the charset of the
    pattern, and throws for any other length, a fraction included.  For
    the patterns 'number', 'alpha' and 'mixed' the salt holds no colon;
    the charset of 'secure' does hold the colon that separates the fields
    of a credential. *)
Theorem generatePatternSalt_charset (pattern : Pattern) (length : number) :
  (integerIn 8 512 length ->
   exists s,
     generatePatternSalt randomFloor pattern length = Ok s
     /\ List.length s = Z.to_nat (integerValue length)
     /\ Forall (fun c => In c (patternCharset pattern)) s
     /\ (pattern <> pattern_secure -> noColon s))
  /\ (~ integerIn 8 512 length ->
      exists e, generatePatternSalt randomFloor pattern length = Throw e)
  /\ In colon (patternCharset pattern_secure).
Proof.
  split; [|split].
  - intros Hl. unfold generatePatternSalt.
    pose proof Hl as Hv. apply validateKeyLength_ok in Hv. rewrite Hv. cbn [bind].
    destruct (generateSalt_ok length _ Hl (patternCharset_nonempty pattern))
      as (s & -> & H1 & H2).
    exists s. split; [reflexivity|]. split; [exact H1|]. split; [exact H2|].
    intros Hp. pose proof (patternCharset_noColon pattern Hp) as Hn.
    unfold noColon in *. rewrite forallb_forall in Hn. apply forallb_forall.
    intros c Hc. rewrite Forall_forall in H2. apply Hn, H2, Hc.
  - intros Hl. unfold generatePatternSalt.
    destruct (validateKeyLength_throws length Hl) as [e ->]. exists e. reflexivity.
  - vm_compute. tauto.
Qed.

Lemma combinedByte_range i : 0 <= combinedByte randomFloor dateNow i < 256.
Proof.
  unfold combinedByte.
  pose proof (randomFloor_range (3 * i) 256 ltac:(lia)).
  pose proof (randomFloor_range (3 * i + 1) 256 ltac:(lia)).
  pose proof (randomFloor_range (3 * i + 2) 256 ltac:(lia)).
  pose proof (Z.rem_bound_pos (dateNow i) 256 (dateNow_nonneg i) ltac:(lia)).
  apply Z.rem_bound_pos; [|lia].
  apply bxor_nonneg; [apply bxor_nonneg; [apply bxor_nonneg|]|]; lia.
Qed.

(** X21.  Where [require('crypto')] throws, [generateCryptoSalt] falls
    back to [generateEnhancedRandomSalt], and the salt has the same form:
    for a length that is an integer from 8 to 512, 2 * length lower-case
    hexadecimal characters (for a random source in range and a clock that
    does not read before 1970); for any other length, a fraction
    included, the call throws as it does with the module. *)
Theorem fallback_salt_is_lower_hex (length : number) :
  (integerIn 8 512 length ->
   exists s,
     generateCryptoSaltFallback randomFloor dateNow length = Ok s
     /\ List.length s = (2 * Z.to_nat (integerValue length))%nat
     /\ forallb isLowerHexChar s = true)
  /\ (~ integerIn 8 512 length ->
      exists e, generateCryptoSaltFallback randomFloor dateNow length = Throw e
                /\ generateCryptoSalt entropy length = Throw e).
Proof.
  split.
  2:{ intros Hl. unfold generateCryptoSaltFallback, generateCryptoSalt.
      destruct (validateKeyLength_throws length Hl) as [e ->]. exists e.
      split; reflexivity. }
  intros Hl. unfold generateCryptoSaltFallback.
  apply validateKeyLength_ok in Hl. rewrite Hl. cbn [bind].
  eexists. split; [reflexivity|]. unfold generateEnhancedRandomSalt.
  assert (Hs : forall i, toString16s (combinedByte randomFloor dateNow i)
                         = toString16 (combinedByte randomFloor dateNow i)).
  { intros i. unfold toString16s. pose proof (combinedByte_range i).
    replace (_ <? 0) with false by (symmetry; apply Z.ltb_ge; lia). reflexivity. }
  split.
  - rewrite (join_nil_length _ 2).
    + rewrite !length_map, length_seq. lia.
    + apply Forall_map, Forall_forall. intros i _. rewrite Hs.
      apply padStart_length. unfold toString16.
      apply (toString16_aux_length _ _ 1). pose proof (combinedByte_range i).
      change (16 ^ Z.of_nat 2) with 256. lia.
  - apply join_nil_forallb. apply Forall_map, Forall_forall. intros i _. rewrite Hs.
    unfold padStart. rewrite forallb_app. unfold toString16.
    rewrite toString16_aux_lower by apply combinedByte_range.
    rewrite andb_true_r. apply forallb_forall. intros c Hc.
    apply repeat_spec in Hc. subst c. reflexivity.
Qed.

End Strategies.

Lemma randomModel_range : forall k n, 0 < n -> 0 <= RandomModel.randomFloor k n < n.
Proof. intros k n Hn. unfold RandomModel.randomFloor. apply Z.mod_pos_bound. exact Hn. Qed.

Lemma randomModel_dateNow : forall i, 0 <= RandomModel.dateNow i.
Proof. intros i. unfold RandomModel.dateNow, Example.now. lia. Qed.

Lemma randomModel_perfNow : forall i, 0 <= RandomModel.perfNow i.
Proof. intros i. unfold RandomModel.perfNow. lia. Qed.

(** Lengths on which the salt functions are run: 8, 16, and 16.5, that
    is 33/2. *)
Lemma generateSecureSalt_length_unit_witness :
  let options := MkSaltOptions (Some strategy_secure) None in
  (forall k n, 0 < n -> 0 <= RandomModel.randomFloor k n < n)
  /\ (forall i, 0 <= RandomModel.dateNow i)
  /\ (forall i, 0 <= RandomModel.perfNow i)
  /\ Z.of_nat (List.length (effectiveCharset options)) < 2 ^ 31
  /\ integerIn 8 512 (Int 8)
  /\ ~ integerIn 8 512 (Frac 16 1)
  /\ (exists s,
       generateSecureSaltWith RandomModel.randomFloor RandomModel.dateNow RandomModel.perfNow
         JsonModel.entropy (Int 8) options = Ok s
       /\ List.length s = Z.to_nat 8
       /\ Forall (fun c => In c (effectiveCharset options)) s)
  /\ exists e,
       generateSecureSaltWith RandomModel.randomFloor RandomModel.dateNow RandomModel.perfNow
         JsonModel.entropy (Frac 16 1) options = Throw e.
Proof.
  intros options.
  assert (Hb : Z.of_nat (List.length (effectiveCharset options)) < 2 ^ 31)
    by (vm_compute; reflexivity).
  assert (H8 : integerIn 8 512 (Int 8)) by (cbn; lia).
  assert (Hf : ~ integerIn 8 512 (Frac 16 1)) by (cbn; tauto).
  split; [exact randomModel_range|]. split; [exact randomModel_dateNow|].
  split; [exact randomModel_perfNow|]. split; [exact Hb|].
  split; [exact H8|]. split; [exact Hf|].
  split.
  - exact (proj1 (generateSecureSalt_length_unit RandomModel.randomFloor RandomModel.dateNow
                    RandomModel.perfNow JsonModel.entropy randomModel_range
                    randomModel_dateNow randomModel_perfNow (Int 8) options Hb) H8).
  - exact (proj2 (generateSecureSalt_length_unit RandomModel.randomFloor RandomModel.dateNow
                    RandomModel.perfNow JsonModel.entropy randomModel_range
                    randomModel_dateNow randomModel_perfNow (Frac 16 1) options Hb) Hf).
Defined.

Lemma generatePatternSalt_charset_witness :
  (forall k n, 0 < n -> 0 <= RandomModel.randomFloor k n < n)
  /\ integerIn 8 512 (Int 16)
  /\ ~ integerIn 8 512 (Frac 16 1)
  /\ (exists s,
       generatePatternSalt RandomModel.randomFloor pattern_number (Int 16) = Ok s
       /\ List.length s = Z.to_nat 16
       /\ Forall (fun c => In c (patternCharset pattern_number)) s
       /\ (pattern_number <> pattern_secure -> noColon s))
  /\ exists e,
       generatePatternSalt RandomModel.randomFloor pattern_number (Frac 16 1) = Throw e.
Proof.
  assert (H16 : integerIn 8 512 (Int 16)) by (cbn; lia).
  assert (Hf : ~ integerIn 8 512 (Frac 16 1)) by (cbn; tauto).
  split; [exact randomModel_range|]. split; [exact H16|]. split; [exact Hf|].
  split.
  - exact (proj1 (generatePatternSalt_charset RandomModel.randomFloor randomModel_range
                    pattern_number (Int 16)) H16).
  - exact (proj1 (proj2 (generatePatternSalt_charset RandomModel.randomFloor
                           randomModel_range pattern_number (Frac 16 1))) Hf).
Defined.

Lemma fallback_salt_is_lower_hex_witness :
  (forall k n, 0 < n -> 0 <= RandomModel.randomFloor k n < n)
  /\ (forall i, 0 <= RandomModel.dateNow i)
  /\ integerIn 8 512 (Int 8)
  /\ ~ integerIn 8 512 (Frac 16 1)
  /\ (exists s,
       generateCryptoSaltFallback RandomModel.randomFloor RandomModel.dateNow (Int 8) = Ok s
       /\ List.length s = (2 * Z.to_nat 8)%nat
       /\ forallb isLowerHexChar s = true)
  /\ exists e,
       generateCryptoSaltFallback RandomModel.randomFloor RandomModel.dateNow (Frac 16 1)
       = Throw e
       /\ generateCryptoSalt JsonModel.entropy (Frac 16 1) = Throw e.
Proof.
  assert (H8 : integerIn 8 512 (Int 8)) by (cbn; lia).
  assert (Hf : ~ integerIn 8 512 (Frac 16 1)) by (cbn; tauto).
  split; [exact randomModel_range|]. split; [exact randomModel_dateNow|].
  split; [exact H8|]. split; [exact Hf|].
  split.
  - exact (proj1 (fallback_salt_is_lower_hex RandomModel.randomFloor RandomModel.dateNow
                    JsonModel.entropy randomModel_range randomModel_dateNow (Int 8)) H8).
  - exact (proj2 (fallback_salt_is_lower_hex RandomModel.randomFloor RandomModel.dateNow
                    JsonModel.entropy randomModel_range randomModel_dateNow (Frac 16 1)) Hf).
Defined.


(** ** The key-derivation loop *)

Lemma iterate_iter n x : 1 <= n -> iterate n (sha256 x) = Nat.iter (Z.to_nat n) sha256 x.
Proof.
  intros Hn. unfold iterate. rewrite hashLoop_iter by lia.
  replace (Z.to_nat n) with (S (Z.to_nat (n - 1))) by lia.
  rewrite Nat.iter_succ_r. reflexivity.
Qed.

Lemma pbkdf2_loop n x : 1 <= n ->
  hashLoop (Z.to_nat n) 0 n x = iterate n (sha256 x).
Proof.
  intros Hn. rewrite iterate_iter by exact Hn. rewrite hashLoop_iter by lia.
  rewrite Z.sub_0_r. reflexivity.
Qed.

Lemma pbkdf2_loop_none n x : n <= 0 -> hashLoop (Z.to_nat n) 0 n x = x.
Proof.
  intros Hn. rewrite hashLoop_iter by lia.
  replace (Z.to_nat (n - 0)) with 0%nat by lia. reflexivity.
Qed.

Lemma iterate_length n x : length (iterate n (sha256 x)) = 64%nat.
Proof. destruct (iterate_digest n x) as [m' ->]. apply sha256_length. Qed.

(** The three-way test at the end of [pbkdf2] fits the result to
    [keyLength * 2] characters. *)
Lemma pbkdf2_fit p s n k :
  0 <= k ->
  let result := hashLoop (Z.to_nat n) 0 n (p ++ s) in
  pbkdf2 p s n k
  = firstn (Z.to_nat (k * 2))
           (result ++ repeat (fromCharCode 48) (Z.to_nat (k * 2) - length result)).
Proof.
  intros Hk result. unfold pbkdf2. fold result.
  destruct (k * 2 <? Z.of_nat (length result)) eqn:E1.
  - apply Z.ltb_lt in E1. unfold substring0.
    rewrite firstn_app. replace (Z.to_nat (k * 2) - length result)%nat with 0%nat by lia.
    cbn [firstn]. rewrite app_nil_r. reflexivity.
  - apply Z.ltb_ge in E1.
    destruct (Z.of_nat (length result) <? k * 2) eqn:E2.
    + apply Z.ltb_lt in E2. unfold padEnd. symmetry. apply firstn_all2.
      rewrite length_app, repeat_length. lia.
    + apply Z.ltb_ge in E2.
      replace (Z.to_nat (k * 2) - length result)%nat with 0%nat by lia.
      cbn [repeat]. rewrite app_nil_r. symmetry. apply firstn_all2. lia.
Qed.

Lemma pbkdf2_32 p s n : 1 <= n -> pbkdf2 p s n 32 = iterate n (sha256 (p ++ s)).
Proof.
  intros Hn. rewrite (pbkdf2_fit p s n 32) by lia. cbv zeta.
  rewrite (pbkdf2_loop n (p ++ s) Hn).
  rewrite iterate_length. change (Z.to_nat (32 * 2) - 64)%nat with 0%nat.
  cbn [repeat]. rewrite app_nil_r. apply firstn_all2. rewrite iterate_length.
  change (Z.to_nat (32 * 2)) with 64%nat. lia.
Qed.



(** X23.  With an iteration count of 0 or less the loop of [pbkdf2]
    does not run: the derived key is the text [password + salt] itself,
    cut or filled with zeros to 2 * keyLength characters. *)
Theorem pbkdf2_without_iterations_is_plaintext
    (password salt : jsstring) (iterations keyLength : Z) :
  iterations <= 0 -> 0 <= keyLength ->
  pbkdf2 password salt iterations keyLength
  = firstn (Z.to_nat (keyLength * 2))
      ((password ++ salt)
       ++ repeat (fromCharCode 48) (Z.to_nat (keyLength * 2) - length (password ++ salt))).
Proof.
  intros Hn Hk. rewrite (pbkdf2_fit password salt iterations keyLength Hk). cbv zeta.
  rewrite (pbkdf2_loop_none iterations (password ++ salt) Hn). reflexivity.
Qed.

Lemma pbkdf2_without_iterations_is_plaintext_witness :
  0 <= 0 /\ 0 <= 8
  /\ pbkdf2 (lit "hunter2") (lit "NaCl") 0 8
     = firstn (Z.to_nat (8 * 2))
         ((lit "hunter2" ++ lit "NaCl")
          ++ repeat (fromCharCode 48) (Z.to_nat (8 * 2) - length (lit "hunter2" ++ lit "NaCl"))).
Proof.
  split; [lia|]. split; [lia|].
  apply (pbkdf2_without_iterations_is_plaintext (lit "hunter2") (lit "NaCl") 0 8); lia.
Defined.

Section DigestField.

Variable entropy : nat -> Byte.byte.
Variable JSON_stringify : json -> jsstring.

(** X24.  The digest field of a credential of [hashPassword] is
    [pbkdf2] of the password and the salt field with the same (positive)
    iteration count and a key length of 32: both functions run the same
    chain of digests. *)
Theorem hashPassword_digest_is_pbkdf2 (now : Z) (password : jsstring) (options : HashOptions)
    (stored : jsstring) (n : Z) :
  hashPassword entropy JSON_stringify now password options = Ok stored ->
  iterationsOf options = Int n ->
  1 <= n ->
  let salt := nth 0 (split colon stored) [] in
  nth 1 (split colon stored) [] = pbkdf2 password salt n 32.
Proof.
  intros Hh Hi Hn. apply hashPassword_inv in Hh. destruct Hh as (_ & Hs & _ & ->).
  unfold credentialOf. rewrite Hi. cbn [ceiling].
  destruct (toHex_props entropy (integerValue (saltLengthOf options))) as [Hlen Hlow].
  destruct (iterate_digest n
              (password ++ toHex (randomBytes entropy (integerValue (saltLengthOf options)))))
    as [m' Hm].
  cbn [app]. rewrite (split_app_sep (toHex _)) by (apply lowerHex_noColon, Hlow).
  rewrite (split_app_sep (iterate n _))
    by (rewrite Hm; apply lowerHex_noColon, sha256_lower).
  cbv zeta. cbn [nth].
  symmetry. apply pbkdf2_32. exact Hn.
Qed.

End DigestField.

Lemma hashPassword_digest_is_pbkdf2_witness :
  hashPassword JsonModel.entropy JsonModel.stringify Example.now Example.password
    (Example.options None) = Ok (Example.credential None)
  /\ iterationsOf (Example.options None) = Int 3
  /\ 1 <= 3
  /\ nth 1 (split colon (Example.credential None)) []
     = pbkdf2 Example.password (nth 0 (split colon (Example.credential None)) []) 3 32.
Proof.
  assert (Hh : hashPassword JsonModel.entropy JsonModel.stringify Example.now Example.password
                 (Example.options None) = Ok (Example.credential None))
    by (vm_compute; reflexivity).
  assert (Hi : iterationsOf (Example.options None) = Int 3) by reflexivity.
  assert (Hn : 1 <= 3) by lia.
  split; [exact Hh|]. split; [exact Hi|]. split; [exact Hn|].
  exact (hashPassword_digest_is_pbkdf2 JsonModel.entropy JsonModel.stringify Example.now
           Example.password (Example.options None) (Example.credential None) 3 Hh Hi Hn).
Defined.


(** ** The keyed digest *)

Lemma repeat_add {A} (x : A) a b : repeat x a ++ repeat x b = repeat x (a + b).
Proof. symmetry. apply repeat_app. Qed.

Lemma paddedKey_short k :
  (length k <= 64)%nat -> paddedKey k = k ++ repeat (fromCharCode 48) (128 - length k).
Proof.
  intros H. unfold paddedKey.
  replace (64 <? length k)%nat with false by (symmetry; apply Nat.ltb_ge; exact H).
  reflexivity.
Qed.

(** X25.  [hmac] fills a key of at most 64 characters with the
    character 0, so that a key and the same key followed by zeros (up to
    64 characters in all) give the same code for every message. *)
Theorem hmac_ignores_trailing_zeros (message key : jsstring) (j : nat) :
  (length key + j <= 64)%nat ->
  hmac message (key ++ repeat (fromCharCode 48) j) = hmac message key.
Proof.
  intros H. unfold hmac.
  assert (E : paddedKey (key ++ repeat (fromCharCode 48) j) = paddedKey key).
  { rewrite !paddedKey_short by (rewrite ?length_app, ?repeat_length; lia).
    rewrite length_app, repeat_length, <- app_assoc, repeat_add.
    f_equal. f_equal. lia. }
  rewrite E. reflexivity.
Qed.

Lemma hmac_ignores_trailing_zeros_witness :
  (length (lit "secret") + 2 <= 64)%nat
  /\ hmac (lit "message") (lit "secret" ++ repeat (fromCharCode 48) 2)
     = hmac (lit "message") (lit "secret").
Proof.
  split; [vm_compute; repeat constructor|].
  apply (hmac_ignores_trailing_zeros (lit "message") (lit "secret") 2).
  vm_compute. repeat constructor.
Defined.

Lemma parseInt16_unreadable c rest : unreadable c = true -> parseInt16 (c :: rest) = None.
Proof.
  unfold unreadable. intros H.
  apply andb_true_iff in H. destruct H as [H Hh].
  apply andb_true_iff in H. destruct H as [H Hp].
  apply andb_true_iff in H. destruct H as [Hw Hm].
  apply negb_true_iff in Hw, Hm, Hp.
  destruct (hexValue c) as [v|] eqn:Ev; [discriminate|].
  unfold parseInt16. cbn [trimStart]. rewrite Hw, Hm, Hp. cbn [snd fst].
  assert (H0 : (charCode c =? 48) = false).
  { destruct (charCode c =? 48) eqn:E; [|reflexivity].
    apply Z.eqb_eq in E. unfold hexValue in Ev. rewrite E in Ev. discriminate Ev. }
  destruct rest as [|c1 rest']; [cbn [readHex]; rewrite Ev; reflexivity|].
  rewrite H0. cbn [andb readHex]. rewrite Ev. reflexivity.
Qed.


Lemma keyByte_zeros :
  keyByte [fromCharCode 48; fromCharCode 48] = 0 /\ keyByte [fromCharCode 48] = 0.
Proof. split; reflexivity. Qed.

Lemma keyByte_unreadable c rest : unreadable c = true -> keyByte (c :: rest) = 0.
Proof. intros H. unfold keyByte. rewrite (parseInt16_unreadable c rest H). reflexivity. Qed.

Lemma keyBytes_zeros n :
  map keyByte (hexPairs (repeat (fromCharCode 48) n)) = repeat 0 (Nat.div2 (S n)).
Proof.
  induction n as [n IH] using (well_founded_induction lt_wf).
  destruct n as [|[|n]]; [reflexivity | reflexivity |].
  cbn [repeat hexPairs map]. rewrite (IH n) by lia.
  destruct keyByte_zeros as [-> _]. reflexivity.
Qed.

Lemma keyBytes_unreadable : forall s n,
  forallb unreadable s = true ->
  map keyByte (hexPairs (s ++ repeat (fromCharCode 48) n))
  = map keyByte (hexPairs (repeat (fromCharCode 48) (length s + n))).
Proof.
  intros s. pattern s. apply jsstring_ind2; clear s.
  - reflexivity.
  - intros c n H. cbn [forallb] in H. apply andb_true_iff in H. destruct H as [Hc _].
    destruct n as [|n].
    + cbn [app repeat length Nat.add hexPairs map].
      rewrite (keyByte_unreadable c [] Hc). reflexivity.
    + cbn [app repeat length Nat.add hexPairs map].
      rewrite (keyByte_unreadable c _ Hc).
      destruct keyByte_zeros as [-> _]. reflexivity.
  - intros c1 c2 rest IH _ n H.
    cbn [forallb] in H. apply andb_true_iff in H. destruct H as [Hc1 H].
    apply andb_true_iff in H. destruct H as [_ H].
    cbn [app length Nat.add repeat hexPairs map].
    rewrite (keyByte_unreadable c1 _ Hc1), (IH n H).
    destruct keyByte_zeros as [-> _]. reflexivity.
Qed.

Lemma xorKey_keyBytes pad padded :
  xorKey pad padded
  = join [] (map (fun b => padStart (toString16s (bxor b pad)) 2 (fromCharCode 48))
                 (map keyByte (hexPairs padded))).
Proof. unfold xorKey. rewrite map_map. reflexivity. Qed.

(** X26.  [hmac] reads the key as hexadecimal text, two characters at
    a time, and a pair that [parseInt] cannot read counts as 0.  A key of
    at most 64 characters none of which is a hexadecimal digit, a sign or
    white space therefore gives the code of the empty key. *)
Theorem hmac_unreadable_key_is_empty_key (message key : jsstring) :
  forallb unreadable key = true -> (length key <= 64)%nat ->
  hmac message key = hmac message [].
Proof.
  intros Hu Hl. unfold hmac.
  assert (E : forall pad, xorKey pad (paddedKey key) = xorKey pad (paddedKey [])).
  { intros pad. rewrite !xorKey_keyBytes.
    rewrite (paddedKey_short key Hl), (paddedKey_short [] (Nat.le_0_l 64)).
    rewrite (keyBytes_unreadable key _ Hu).
    cbn [app length]. do 5 f_equal. lia. }
  rewrite !E. reflexivity.
Qed.

Lemma hmac_unreadable_key_is_empty_key_witness :
  forallb unreadable (lit "hunting") = true
  /\ (length (lit "hunting") <= 64)%nat
  /\ hmac (lit "message") (lit "hunting") = hmac (lit "message") [].
Proof.
  split; [vm_compute; reflexivity|].
  split; [vm_compute; repeat constructor|].
  apply (hmac_unreadable_key_is_empty_key (lit "message") (lit "hunting")).
  - vm_compute. reflexivity.
  - vm_compute. repeat constructor.
Defined.


(** ** The placeholder digest *)

Lemma ToInt32_congr a b : a mod 2 ^ 32 = b mod 2 ^ 32 -> ToInt32 a = ToInt32 b.
Proof.
  intros H. unfold ToInt32. f_equal.
  rewrite <- (Z.add_mod_idemp_l a), <- (Z.add_mod_idemp_l b) by lia.
  rewrite H. reflexivity.
Qed.

Lemma sha512Step_poly h c : int32 h -> sha512Step h c = ToInt32 (31 * h + charCode c).
Proof.
  intros Hh. unfold sha512Step, band. rewrite Z.land_diag.
  apply ToInt32_congr. unfold shl. rewrite (ToInt32_small h Hh).
  change (5 mod 32) with 5. rewrite Z.shiftl_mul_pow2 by lia.
  rewrite <- Z.add_mod_idemp_l by lia. rewrite <- Zminus_mod_idemp_l.
  rewrite ToInt32_mod. rewrite Zminus_mod_idemp_l. rewrite Z.add_mod_idemp_l by lia.
  f_equal. lia.
Qed.

Lemma sha512Step_int32 h c : int32 (sha512Step h c).
Proof. unfold sha512Step, band. rewrite Z.land_diag. apply ToInt32_int32. Qed.

Lemma sha512_state_int32 m : forall h, int32 h -> int32 (fold_left sha512Step m h).
Proof.
  induction m as [|c m IH]; intros h Hh; [exact Hh|].
  cbn [fold_left]. apply IH, sha512Step_int32.
Qed.

Lemma int32_0 : int32 0.
Proof. unfold int32. lia. Qed.

Lemma sha512Step_twice h c1 c2 :
  int32 h ->
  sha512Step (sha512Step h c1) c2
  = ToInt32 (961 * h + (31 * charCode c1 + charCode c2)).
Proof.
  intros Hh. rewrite (sha512Step_poly _ c2) by apply sha512Step_int32.
  rewrite (sha512Step_poly h c1 Hh). apply ToInt32_congr.
  rewrite <- Z.add_mod_idemp_l by lia. rewrite <- Z.mul_mod_idemp_r by lia.
  rewrite ToInt32_mod. rewrite Z.mul_mod_idemp_r by lia. rewrite Z.add_mod_idemp_l by lia.
  f_equal. lia.
Qed.

Lemma fold_left_two {A B} (f : A -> B -> A) a b l h :
  fold_left f (a :: b :: l) h = fold_left f l (f (f h a) b).
Proof. reflexivity. Qed.

Lemma sha512_state_collides pre post c1 c2 d1 d2 :
  31 * charCode c1 + charCode c2 = 31 * charCode d1 + charCode d2 ->
  fold_left sha512Step (pre ++ c1 :: c2 :: post) 0
  = fold_left sha512Step (pre ++ d1 :: d2 :: post) 0.
Proof.
  intros H. rewrite !fold_left_app, !fold_left_two.
  rewrite !sha512Step_twice by (apply sha512_state_int32, int32_0).
  rewrite H. reflexivity.
Qed.

(** X28.  [sha512] folds the code units with [h * 31 + c] modulo 2^32:
    replacing two neighbouring code units by two others with the same
    weighted sum 31 * c1 + c2 does not change the result, wherever they
    stand in the message. *)
Theorem sha512_collides_on_weighted_sums (pre post : jsstring) (c1 c2 d1 d2 : char16) :
  31 * charCode c1 + charCode c2 = 31 * charCode d1 + charCode d2 ->
  sha512 (pre ++ c1 :: c2 :: post) = sha512 (pre ++ d1 :: d2 :: post).
Proof.
  intros H. unfold sha512. rewrite (sha512_state_collides pre post c1 c2 d1 d2 H).
  reflexivity.
Qed.

Lemma sha512_collides_on_weighted_sums_witness :
  31 * charCode (fromCharCode 65) + charCode (fromCharCode 97)
  = 31 * charCode (fromCharCode 66) + charCode (fromCharCode 66)
  /\ sha512 (lit "user:" ++ fromCharCode 65 :: fromCharCode 97 :: lit "-2024")
     = sha512 (lit "user:" ++ fromCharCode 66 :: fromCharCode 66 :: lit "-2024").
Proof.
  split; [vm_compute; reflexivity|].
  apply (sha512_collides_on_weighted_sums (lit "user:") (lit "-2024")
           (fromCharCode 65) (fromCharCode 97) (fromCharCode 66) (fromCharCode 66)).
  vm_compute. reflexivity.
Defined.

Lemma hexDigits_split a : forall b x,
  hexDigits (b + a) x = hexDigits b (x / 16 ^ Z.of_nat a) ++ hexDigits a x.
Proof.
  induction a as [|a IH]; intros b x.
  - rewrite Nat.add_0_r. cbn [hexDigits]. rewrite app_nil_r.
    change (16 ^ Z.of_nat 0) with 1. rewrite Z.div_1_r. reflexivity.
  - rewrite Nat.add_succ_r. cbn [hexDigits]. rewrite IH, app_assoc.
    do 3 f_equal. rewrite Z.div_div by lia. f_equal.
    rewrite Nat2Z.inj_succ, Z.pow_succ_r by lia. reflexivity.
Qed.

(** X27.  The placeholder [sha512] carries at most 32 bits: its
    result is four copies of the same 16 characters, eight zeros followed
    by the eight hexadecimal digits of a number of at most 2^31. *)
Theorem sha512_carries_32_bits (message : jsstring) :
  exists h,
    0 <= h <= 2 ^ 31
    /\ sha512 message
       = let block := repeat (fromCharCode 48) 8 ++ hexDigits 8 h in
         block ++ block ++ block ++ block.
Proof.
  pose proof (sha512_state_int32 message 0 int32_0) as Hi.
  exists (Z.abs (fold_left sha512Step message 0)).
  unfold int32 in Hi. split; [lia|].
  unfold sha512. cbv zeta.
  set (h := Z.abs (fold_left sha512Step message 0)).
  assert (Hh : 0 <= h <= 2 ^ 31) by (unfold h; lia).
  rewrite (padStart_toString16 15 h) by (change (16 ^ Z.of_nat 16) with (2 ^ 64); lia).
  change (hexDigits 16 h) with (hexDigits (8 + 8) h). rewrite (hexDigits_split 8 8 h).
  replace (h / 16 ^ Z.of_nat 8) with 0
    by (symmetry; apply Z.div_small; change (16 ^ Z.of_nat 8) with (2 ^ 32); lia).
  rewrite hexDigits_zero. reflexivity.
Qed.


(** ** The same properties on a concrete platform *)

Lemma stringToBytes_is_utf8_witness :
  let s := lit "a" ++ [fromCharCode 0xE9; fromCharCode 0x20AC;
                       fromCharCode 0xD83D; fromCharCode 0xDE00] in
  wellFormed s = true /\ stringToBytes s = Buffer_from_utf8 s.
Proof.
  intros s. split; [vm_compute; reflexivity|].
  apply (stringToBytes_is_utf8 s). vm_compute. reflexivity.
Defined.

Lemma timeSafeCompare_wellFormed_equality_witness :
  wellFormed (lit "s3cret") = true
  /\ wellFormed (lit "s3cret!") = true
  /\ Z.of_nat (length (Buffer_from_utf8 (lit "s3cret"))) < 2 ^ 32
  /\ Z.of_nat (length (Buffer_from_utf8 (lit "s3cret!"))) < 2 ^ 32
  /\ (timeSafeCompare (lit "s3cret") (lit "s3cret!") = true <-> lit "s3cret" = lit "s3cret!")
  /\ (constantTimeCompare (lit "s3cret") (lit "s3cret!") = true
      <-> lit "s3cret" = lit "s3cret!").
Proof.
  split; [vm_compute; reflexivity|]. split; [vm_compute; reflexivity|].
  split; [vm_compute; reflexivity|]. split; [vm_compute; reflexivity|].
  apply (timeSafeCompare_wellFormed_equality (lit "s3cret") (lit "s3cret!"));
    vm_compute; reflexivity.
Defined.

Lemma simpleVerifyPassword_rejects_full_credentials_witness :
  hashPassword JsonModel.entropy JsonModel.stringify Example.now Example.password
    (Example.options None) = Ok (Example.credential None)
  /\ simpleVerifyPassword Example.password (Example.credential None) = false.
Proof.
  assert (Hh : hashPassword JsonModel.entropy JsonModel.stringify Example.now Example.password
                 (Example.options None) = Ok (Example.credential None))
    by (vm_compute; reflexivity).
  split; [exact Hh|].
  apply (simpleVerifyPassword_rejects_full_credentials JsonModel.entropy JsonModel.stringify
           Example.now Example.password Example.password (Example.options None)
           (Example.credential None) Hh).
Defined.

Lemma needsRehashing_without_metadata_witness :
  let stored := Example.legacySalt ++ [colon]
                ++ sha256 (Example.password ++ Example.legacySalt) in
  validateStoredHashFormat JsonModel.parse stored
  = Ok (MkStoredHash Example.legacySalt
          (sha256 (Example.password ++ Example.legacySalt)) None)
  /\ needsRehashing JsonModel.parse JsonModel.toNumberObject JsonModel.subtractFraction
       Example.now stored (MkHashOptions None None (Some (Int 1)) None None None) = Ok true.
Proof.
  intros stored.
  assert (Hd : validateStoredHashFormat JsonModel.parse stored
               = Ok (MkStoredHash Example.legacySalt
                       (sha256 (Example.password ++ Example.legacySalt)) None))
    by (vm_compute; reflexivity).
  split; [exact Hd|].
  apply (needsRehashing_without_metadata JsonModel.parse JsonModel.toNumberObject
           JsonModel.subtractFraction
           Example.now stored (MkHashOptions None None (Some (Int 1)) None None None)).
  intros d fields H. rewrite Hd in H. injection H as <-. discriminate.
Defined.

Lemma needsRehashing_fresh_credential_witness :
  let meta := metadataFor Example.now (Example.options None) in
  validatePassword Example.password = Ok tt
  /\ integerIn 8 64 (saltLengthOf (Example.options None))
  /\ loopEnds (iterationsOf (Example.options None)) = true
  /\ JsonModel.parse (JsonModel.stringify meta) = Some meta
  /\ exists stored b,
       hashPassword JsonModel.entropy JsonModel.stringify Example.now Example.password
         (Example.options None) = Ok stored
       /\ needsRehashing JsonModel.parse JsonModel.toNumberObject JsonModel.subtractFraction
            (Example.now + 1000) stored (Example.options None) = Ok b
       /\ (b = false
           <-> less (iterationsOf (Example.options None))
                    (num_or (iterations (Example.options None)) (Int 100000)) = false
               /\ algorithmOf (Example.options None) = algorithmOf (Example.options None)
               /\ Example.now <> 0
               /\ Example.now + 1000 - Example.now <= oneYear)
       /\ (iterations (Example.options None) = None ->
           iterations (Example.options None) = None -> b = true).
Proof.
  intros meta.
  assert (Hp : validatePassword Example.password = Ok tt) by (vm_compute; reflexivity).
  assert (Hs : integerIn 8 64 (saltLengthOf (Example.options None)))
    by (vm_compute; split; discriminate).
  assert (Hl : loopEnds (iterationsOf (Example.options None)) = true)
    by (vm_compute; reflexivity).
  assert (Hj : JsonModel.parse (JsonModel.stringify meta) = Some meta)
    by (vm_compute; reflexivity).
  split; [exact Hp|]. split; [exact Hs|]. split; [exact Hl|]. split; [exact Hj|].
  exact (needsRehashing_fresh_credential JsonModel.entropy JsonModel.stringify
           JsonModel.parse JsonModel.toNumberObject JsonModel.subtractFraction
           Example.now (Example.now + 1000)
           Example.password (Example.options None) (Example.options None) Hp Hs Hl Hj).
Defined.

Lemma security_levels_give_verifiable_credentials_witness :
  let level := getSecurityLevel level_low in
  let meta := metadataOf (sl_algorithm level) (Int (sl_iterations level))
                         (Int (sl_keyLength level)) Example.now in
  validatePassword Example.password = Ok tt
  /\ JsonModel.parse (JsonModel.stringify meta) = Some meta
  /\ exists stored,
       hashPassword JsonModel.entropy JsonModel.stringify Example.now Example.password
         (asHashOptions level) = Ok stored
       /\ verifyPassword JsonModel.parse JsonModel.toNumberObject Example.password stored
          = Ok true
       /\ (0 < Example.now -> Example.now + 1000 - Example.now <= oneYear ->
           needsRehashing JsonModel.parse JsonModel.toNumberObject JsonModel.subtractFraction
             (Example.now + 1000) stored (asHashOptions level) = Ok false).
Proof.
  intros level meta.
  assert (Hp : validatePassword Example.password = Ok tt) by (vm_compute; reflexivity).
  assert (Hj : JsonModel.parse (JsonModel.stringify meta) = Some meta)
    by (vm_compute; reflexivity).
  split; [exact Hp|]. split; [exact Hj|].
  exact (security_levels_give_verifiable_credentials JsonModel.entropy JsonModel.stringify
           JsonModel.parse JsonModel.toNumberObject JsonModel.subtractFraction
           Example.now (Example.now + 1000)
           Example.password level (or_introl (ex_intro _ level_low eq_refl)) Hp Hj).
Defined.

Lemma upgrade_result_verifies_up_to_64_byte_salts_witness :
  let meta := metadataFor Example.now (Example.options (Some sha512_alg)) in
  upgradePasswordHash JsonModel.entropy JsonModel.stringify JsonModel.parse
    JsonModel.toNumberObject 0 5 Example.now Example.password (Example.credential None)
    (Example.options (Some sha512_alg))
  = Ok (Some (Example.credential (Some sha512_alg)))
  /\ JsonModel.parse (JsonModel.stringify meta) = Some meta
  /\ integerValue (saltLengthOf (Example.options (Some sha512_alg))) <= 64
  /\ verifyPassword JsonModel.parse JsonModel.toNumberObject Example.password
       (Example.credential (Some sha512_alg)) = Ok true.
Proof.
  intros meta.
  assert (Hu : upgradePasswordHash JsonModel.entropy JsonModel.stringify JsonModel.parse
                 JsonModel.toNumberObject 0 5 Example.now Example.password
                 (Example.credential None) (Example.options (Some sha512_alg))
               = Ok (Some (Example.credential (Some sha512_alg))))
    by (vm_compute; reflexivity).
  assert (Hj : JsonModel.parse (JsonModel.stringify meta) = Some meta)
    by (vm_compute; reflexivity).
  assert (Hs : integerValue (saltLengthOf (Example.options (Some sha512_alg))) <= 64)
    by (vm_compute; discriminate).
  split; [exact Hu|]. split; [exact Hj|]. split; [exact Hs|].
  destruct (upgrade_result_verifies_up_to_64_byte_salts JsonModel.entropy JsonModel.stringify
              JsonModel.parse JsonModel.toNumberObject 0 5 Example.now Example.password
              (Example.credential None) (Example.options (Some sha512_alg))
              (Example.credential (Some sha512_alg)) Hu Hj) as [H _].
  exact (H Hs).
Defined.
